(** * Backtesting engine and performance analytics

    A shallow embedding of [src/backtesting/backtest_engine.py]
    (class [BacktestEngine]) and of the scalar analytics of
    [src/backtesting/advanced_analytics.py] (class [AdvancedAnalytics]).

    Numbers.  The Python code computes with binary floating point.  The
    embedding idealises every finite number as an exact rational ([Q]); the
    non-finite values that numpy and pandas produce (division by zero, the
    sample deviation of fewer than two values) are kept explicit in the type
    [xnum].  Python's own [/] on scalars raises [ZeroDivisionError] on a zero
    divisor, which the engine model keeps as an exception.

    Effects.  The engine methods mutate [self] in place and may raise, so they
    are state transformers returning the (possibly partially updated) engine
    together with either an exception or a value. *)

From Stdlib Require Import QArith ZArith List Bool Lia Lqa Sorted.
Import ListNotations.

Open Scope Q_scope.

(** ** Python runtime: exceptions and scalar division *)

Module Py.

Inductive exn : Type :=
| KeyError
| ZeroDivisionError
| ValueError.

(** [a / b] on Python scalars. *)
Definition truediv (a b : Q) : exn + Q :=
  if Qeq_bool b 0 then inl ZeroDivisionError else inr (a / b).

(** [a < b] on numbers. *)
Definition ltb (a b : Q) : bool := negb (Qle_bool b a).

End Py.

Import Py.

(** ** Data model *)

(** A row of the price frame.  The engine reads only the columns
    ['open_time'] and ['close']. *)
Record Bar : Type := mkBar {
  open_time : Z;
  close : Q
}.

(** A pandas frame: which of the two columns exist, and the rows in index
    order (a default [RangeIndex], so the label handed to the strategy is the
    row position). *)
Record DataFrame : Type := mkFrame {
  has_close : bool;
  has_open_time : bool;
  rows : list Bar
}.

(** Entries of [self.trades]. *)
Inductive Trade : Type :=
| BUY (timestamp : Z) (price quantity cost balance : Q)
| SELL (timestamp : Z) (price quantity revenue profit profit_pct balance : Q).

Definition trade_price (t : Trade) : Q :=
  match t with
  | BUY _ p _ _ _ => p
  | SELL _ p _ _ _ _ _ => p
  end.

(** Entries of [self.equity_curve]. *)
Record EquityPoint : Type := mkPoint {
  timestamp : Z;
  portfolio_value : Q;
  price : Q
}.

(** The attributes of a [BacktestEngine] instance. *)
Record Engine : Type := mkEngine {
  initial_balance : Q;
  balance : Q;
  commission : Q;
  position : Q;
  entry_price : Q;
  trades : list Trade;
  equity_curve : list EquityPoint
}.

Definition set_balance (v : Q) (self : Engine) : Engine :=
  mkEngine (initial_balance self) v (commission self) (position self)
           (entry_price self) (trades self) (equity_curve self).

Definition set_position (v : Q) (self : Engine) : Engine :=
  mkEngine (initial_balance self) (balance self) (commission self) v
           (entry_price self) (trades self) (equity_curve self).

Definition set_entry_price (v : Q) (self : Engine) : Engine :=
  mkEngine (initial_balance self) (balance self) (commission self)
           (position self) v (trades self) (equity_curve self).

Definition append_trade (t : Trade) (self : Engine) : Engine :=
  mkEngine (initial_balance self) (balance self) (commission self)
           (position self) (entry_price self) (trades self ++ [t])
           (equity_curve self).

Definition append_equity (p : EquityPoint) (self : Engine) : Engine :=
  mkEngine (initial_balance self) (balance self) (commission self)
           (position self) (entry_price self) (trades self)
           (equity_curve self ++ [p]).

(** ** Methods as state transformers *)

(** A method call: the engine after the call, and an exception or a value. *)
Definition M (A : Type) : Type := Engine -> Engine * (exn + A).

Definition ret {A} (a : A) : M A := fun self => (self, inr a).

Definition bind {A B} (m : M A) (k : A -> M B) : M B :=
  fun self =>
    match m self with
    | (self', inr a) => k a self'
    | (self', inl e) => (self', inl e)
    end.

Definition lift {A} (r : exn + A) : M A := fun self => (self, r).

Definition get : M Engine := fun self => (self, inr self).

Definition modify (f : Engine -> Engine) : M unit :=
  fun self => (f self, inr tt).

Notation "x <- m ;; k" := (bind m (fun x => k))
  (at level 61, m at next level, right associativity).
Notation "m ;;; k" := (bind m (fun _ => k))
  (at level 61, right associativity).

(** [BacktestEngine.__init__]: no argument is inspected. *)
Definition __init__ (initial_balance commission : Q) : exn + Engine :=
  inr (mkEngine initial_balance initial_balance commission 0 0 [] []).

(** [BacktestEngine.buy]. *)
Definition buy (price quantity : Q) (timestamp : Z) : M bool :=
  self <- get ;;
  let cost := quantity * price * (1 + commission self) in
  if Qle_bool cost (balance self) then
    modify (fun s => set_balance (balance s - cost) s) ;;;
    modify (fun s => set_position (position s + quantity) s) ;;;
    modify (set_entry_price price) ;;;
    modify (fun s => append_trade (BUY timestamp price quantity cost (balance s)) s) ;;;
    ret true
  else ret false.

(** [BacktestEngine.sell].  The division that computes [profit_pct] comes
    after the two assignments to [balance] and [position]. *)
Definition sell (price quantity : Q) (timestamp : Z) : M bool :=
  self <- get ;;
  if Qle_bool quantity (position self) then
    let revenue := quantity * price * (1 - commission self) in
    modify (fun s => set_balance (balance s + revenue) s) ;;;
    modify (fun s => set_position (position s - quantity) s) ;;;
    self <- get ;;
    let profit := (price - entry_price self) * quantity in
    r <- lift (truediv (price - entry_price self) (entry_price self)) ;;
    let profit_pct := r * 100 in
    modify (fun s => append_trade
              (SELL timestamp price quantity revenue profit profit_pct (balance s)) s) ;;;
    ret true
  else ret false.

(** [BacktestEngine.get_portfolio_value]. *)
Definition get_portfolio_value (self : Engine) (current_price : Q) : Q :=
  balance self + position self * current_price.

(** [row['close']] and [row['open_time']]: a missing column is a [KeyError]. *)
Definition row_close (df : DataFrame) (row : Bar) : exn + Q :=
  if has_close df then inr (close row) else inl KeyError.

Definition row_open_time (df : DataFrame) (row : Bar) : exn + Z :=
  if has_open_time df then inr (open_time row) else inl KeyError.

(** A strategy: the frame and the current index label to a signal
    ([1] buy, [-1] sell, anything else hold). *)
Definition Strategy : Type := DataFrame -> nat -> Z.

(** The body of the loop of [run_backtest] for the row [row] at label [i]. *)
Definition bar_step (df : DataFrame) (strategy_func : Strategy)
    (i : nat) (row : Bar) : M unit :=
  current_price <- lift (row_close df row) ;;
  timestamp <- lift (row_open_time df row) ;;
  let signal := strategy_func df i in
  self <- get ;;
  (if (signal =? 1)%Z && Qeq_bool (position self) 0 then
     q <- lift (truediv (balance self) current_price) ;;
     let quantity := q * 0.95 in
     buy current_price quantity timestamp ;;; ret tt
   else if (signal =? -1)%Z && ltb 0 (position self) then
     sell current_price (position self) timestamp ;;; ret tt
   else ret tt) ;;;
  self <- get ;;
  let portfolio_value := get_portfolio_value self current_price in
  modify (append_equity (mkPoint timestamp portfolio_value current_price)).

(** [for i, row in df.iterrows(): ...], from label [i] on. *)
Fixpoint iterrows (df : DataFrame) (strategy_func : Strategy)
    (i : nat) (rs : list Bar) : M unit :=
  match rs with
  | [] => ret tt
  | row :: rs' =>
      bar_step df strategy_func i row ;;;
      iterrows df strategy_func (S i) rs'
  end.

(** [BacktestEngine.run_backtest]. *)
Definition run_backtest (df : DataFrame) (strategy_func : Strategy) : M unit :=
  iterrows df strategy_func 0 (rows df).

(** ** Summary metrics *)

Record Metrics : Type := mkMetrics {
  total_trades : nat;
  winning_trades : nat;
  losing_trades : nat;
  win_rate : Q;
  total_return : Q;
  total_return_pct : Q;
  avg_profit : Q;
  avg_profit_pct : Q;
  max_profit : Q;
  max_loss : Q;
  final_balance : Q;
  final_position : Q
}.

(** The dictionary returned by [get_performance_metrics]: either the single
    key ["error"] or the metrics. *)
Inductive MetricsResult : Type :=
| NoTradesExecuted
| NoSellTradesExecuted
| MetricsOf (m : Metrics).

Definition is_sell (t : Trade) : bool :=
  match t with SELL _ _ _ _ _ _ _ => true | BUY _ _ _ _ _ => false end.

Definition trade_profit (t : Trade) : Q :=
  match t with SELL _ _ _ _ p _ _ => p | BUY _ _ _ _ _ => 0 end.

Definition trade_profit_pct (t : Trade) : Q :=
  match t with SELL _ _ _ _ _ p _ => p | BUY _ _ _ _ _ => 0 end.

Definition Qsum (l : list Q) : Q := fold_left Qplus l 0.

Definition Qlen (l : list Q) : Q := inject_Z (Z.of_nat (length l)).

(** [max(l)] and [min(l)] of a non-empty Python list, seeded with its head. *)
Definition py_max (x : Q) (l : list Q) : Q :=
  fold_left (fun m y => if ltb m y then y else m) l x.

Definition py_min (x : Q) (l : list Q) : Q :=
  fold_left (fun m y => if ltb y m then y else m) l x.

(** [BacktestEngine.get_performance_metrics]. *)
Definition get_performance_metrics (self : Engine) : exn + MetricsResult :=
  match trades self with
  | [] => inr NoTradesExecuted
  | _ :: _ =>
      let sell_trades := filter is_sell (trades self) in
      match map trade_profit sell_trades with
      | [] => inr NoSellTradesExecuted
      | p0 :: ps =>
          let profits := p0 :: ps in
          let profit_pcts := map trade_profit_pct sell_trades in
          let last_price := trade_price (last (trades self) (BUY 0 0 0 0 0)) in
          match truediv (get_portfolio_value self last_price - initial_balance self)
                        (initial_balance self) with
          | inl e => inl e
          | inr r =>
              let win_trades := filter (fun p => ltb 0 p) profits in
              let lose_trades := filter (fun p => ltb p 0) profits in
              inr (MetricsOf
                     (mkMetrics
                        (length sell_trades)
                        (length win_trades)
                        (length lose_trades)
                        (Qlen win_trades / Qlen profits * 100)
                        (Qsum profits)
                        (r * 100)
                        (Qsum profits / Qlen profits)
                        (Qsum profit_pcts / Qlen profit_pcts)
                        (py_max p0 ps)
                        (py_min p0 ps)
                        (balance self)
                        (position self)))
          end
      end
  end.

(** ** Analytics: numbers of numpy and pandas *)

(** A float as pandas sees it: a finite value, an infinity or NaN. *)
Inductive xnum : Type :=
| Fin (q : Q)
| PInf
| NInf
| NaN.

(** Elementwise [a / b] on float columns: no exception, [x/0] is an infinity
    and [0/0] is NaN. *)
Definition xdiv (a b : Q) : xnum :=
  if Qeq_bool b 0 then
    if Qeq_bool a 0 then NaN else if ltb 0 a then PInf else NInf
  else Fin (a / b).

Definition xsub (x : xnum) (q : Q) : xnum :=
  match x with Fin a => Fin (a - q) | _ => x end.

(** [x * k] for a positive constant [k]. *)
Definition xscale (x : xnum) (k : Q) : xnum :=
  match x with Fin a => Fin (a * k) | _ => x end.

(** [x < y]; every comparison with NaN is false. *)
Definition xltb (x y : xnum) : bool :=
  match x, y with
  | NaN, _ | _, NaN => false
  | _, NInf => false
  | NInf, _ => true
  | PInf, _ => false
  | Fin _, PInf => true
  | Fin a, Fin b => ltb a b
  end.

Definition is_nan (x : xnum) : bool :=
  match x with NaN => true | _ => false end.

(** [Series.dropna()]. *)
Definition dropna (xs : list xnum) : list xnum :=
  filter (fun x => negb (is_nan x)) xs.

(** [Series.pct_change()]: [data / data.shift(1) - 1]; the first entry has no
    predecessor and is NaN. *)
Fixpoint pct_change_from (prev : Q) (vs : list Q) : list xnum :=
  match vs with
  | [] => []
  | v :: vs' => xsub (xdiv v prev) 1 :: pct_change_from v vs'
  end.

Definition pct_change (vs : list Q) : list xnum :=
  match vs with
  | [] => []
  | v :: vs' => NaN :: pct_change_from v vs'
  end.

(** The finite entries of a NaN-free column, or [None] when an infinity is
    among them. *)
Fixpoint finite_values (xs : list xnum) : option (list Q) :=
  match xs with
  | [] => Some []
  | Fin q :: xs' => option_map (cons q) (finite_values xs')
  | NaN :: xs' => finite_values xs'
  | _ :: _ => None
  end.

Definition Qmean (qs : list Q) : Q := Qsum qs / Qlen qs.

(** Sample variance, [ddof = 1]. *)
Definition Qvar (qs : list Q) : Q :=
  Qsum (map (fun q => (q - Qmean qs) * (q - Qmean qs)) qs) / (Qlen qs - 1).

(** The square of [Series.std()] (NaN skipped, [ddof = 1]); [None] is NaN:
    fewer than two values, or an infinity among them. *)
Definition std_sq (xs : list xnum) : option Q :=
  match finite_values xs with
  | None => None
  | Some qs => if (length qs <? 2)%nat then None else Some (Qvar qs)
  end.

(** [s.std() == 0]; false when the deviation is NaN.  The test is on the
    exact deviation.  pandas computes the deviation in binary floating point,
    where three or more equal values can give a tiny non-zero number instead
    of 0; the idealised numbers do not show that case. *)
Definition std_is_zero (v : option Q) : bool :=
  match v with Some var => Qeq_bool var 0 | None => false end.

Definition has (p : xnum -> bool) (xs : list xnum) : bool := existsb p xs.

(** [Series.mean()], NaN skipped. *)
Definition xmean (xs : list xnum) : xnum :=
  match finite_values xs with
  | Some [] => NaN
  | Some qs => Fin (Qmean qs)
  | None =>
      let pos := has (fun x => match x with PInf => true | _ => false end) xs in
      let neg := has (fun x => match x with NInf => true | _ => false end) xs in
      if pos && neg then NaN else if pos then PInf else NInf
  end.

(** The value of [mean / std * np.sqrt(252)].  A finite result is kept as
    the pair of the mean and the squared deviation it is computed from. *)
Inductive stat : Type :=
| Lit0
| Ratio (mean var : Q)
| SPInf
| SNInf
| SNaN.

Definition ratio (m : xnum) (v : option Q) : stat :=
  match v with
  | None => SNaN
  | Some var =>
      if ltb var 0 then SNaN
      else if Qeq_bool var 0 then
        match m with
        | Fin q => if Qeq_bool q 0 then SNaN else if ltb 0 q then SPInf else SNInf
        | PInf => SPInf
        | NInf => SNInf
        | NaN => SNaN
        end
      else
        match m with
        | Fin q => Ratio q var
        | PInf => SPInf
        | NInf => SNInf
        | NaN => SNaN
        end
  end.

Definition is_empty {A} (l : list A) : bool :=
  match l with [] => true | _ => false end.

(** The [returns] column added by [AdvancedAnalytics.__init__]. *)
Definition returns_column (equity_df : list EquityPoint) : list xnum :=
  pct_change (map portfolio_value equity_df).

(** [AdvancedAnalytics.calculate_sharpe_ratio]. *)
Definition calculate_sharpe_ratio (equity_df : list EquityPoint)
    (risk_free_rate : Q) : stat :=
  if is_empty equity_df || (length equity_df <? 2)%nat then Lit0
  else
    let returns := dropna (returns_column equity_df) in
    if (length returns =? 0)%nat then Lit0
    else
      let excess_returns := map (fun r => xsub r (risk_free_rate / 252)) returns in
      if std_is_zero (std_sq excess_returns) then Lit0
      else ratio (xmean excess_returns) (std_sq excess_returns).

(** [AdvancedAnalytics.calculate_sortino_ratio]. *)
Definition calculate_sortino_ratio (equity_df : list EquityPoint)
    (risk_free_rate : Q) : stat :=
  if is_empty equity_df || (length equity_df <? 2)%nat then Lit0
  else
    let returns := dropna (returns_column equity_df) in
    if (length returns =? 0)%nat then Lit0
    else
      let excess_returns := map (fun r => xsub r (risk_free_rate / 252)) returns in
      let downside_returns := filter (fun x => xltb x (Fin 0)) excess_returns in
      if (length downside_returns =? 0)%nat || std_is_zero (std_sq downside_returns)
      then Lit0
      else ratio (xmean excess_returns) (std_sq downside_returns).

(** ** Analytics: drawdown *)

(** [Series.expanding().max()]: the running maximum. *)
Fixpoint expanding_max_from (m : Q) (vs : list Q) : list Q :=
  match vs with
  | [] => []
  | v :: vs' =>
      let m' := if ltb m v then v else m in
      m' :: expanding_max_from m' vs'
  end.

Definition expanding_max (vs : list Q) : list Q :=
  match vs with
  | [] => []
  | v :: vs' => v :: expanding_max_from v vs'
  end.

(** [(portfolio_values - peak) / peak], elementwise. *)
Definition drawdown_series (vs : list Q) : list xnum :=
  map (fun vp => xdiv (fst vp - snd vp) (snd vp)) (combine vs (expanding_max vs)).

(** Position and value of the first minimum among the non-NaN entries, scanning
    from position [i] with the best candidate so far. *)
Fixpoint argmin_from (i : nat) (best : option (nat * xnum)) (xs : list xnum)
    : option (nat * xnum) :=
  match xs with
  | [] => best
  | x :: xs' =>
      let best' :=
        if is_nan x then best
        else match best with
             | None => Some (i, x)
             | Some (_, b) => if xltb x b then Some (i, x) else best
             end in
      argmin_from (S i) best' xs'
  end.

(** [Series.min()]: NaN when every entry is NaN. *)
Definition series_min (xs : list xnum) : xnum :=
  match argmin_from 0 None xs with
  | Some (_, v) => v
  | None => NaN
  end.

(** [Series.idxmin()]: the label of the first minimum; [None] when every entry
    is NaN, where the label is unusable for the slice that follows. *)
Definition idxmin (xs : list xnum) : option nat :=
  option_map fst (argmin_from 0 None xs).

(** Position of the first maximum of a column of finite values. *)
Fixpoint argmax_from (i : nat) (best : nat * Q) (qs : list Q) : nat * Q :=
  match qs with
  | [] => best
  | q :: qs' =>
      argmax_from (S i) (if ltb (snd best) q then (i, q) else best) qs'
  end.

(** [Series.idxmax()]: the label of the first maximum; [None] on an empty
    series, where pandas raises [ValueError]. *)
Definition idxmax (qs : list Q) : option nat :=
  match qs with
  | [] => None
  | q :: qs' => Some (fst (argmax_from 1 (0%nat, q) qs'))
  end.

(** The two labels computed by [calculate_max_drawdown]: [peak_idx] and
    [max_dd_idx].  The slice [peak[:max_dd_idx]] is positional and excludes
    its end. *)
Definition drawdown_labels (vs : list Q) : exn + (nat * nat) :=
  let peak := expanding_max vs in
  let drawdown := drawdown_series vs in
  match idxmin drawdown with
  | None => inl ValueError
  | Some max_dd_idx =>
      match idxmax (firstn max_dd_idx peak) with
      | None => inl ValueError
      | Some peak_idx => inr (peak_idx, max_dd_idx)
      end
  end.

(** [self.equity_df.loc[i, 'timestamp'] if i in self.equity_df.index else None]. *)
Definition timestamp_at (equity_df : list EquityPoint) (i : nat) : option Z :=
  option_map timestamp (nth_error equity_df i).

(** [AdvancedAnalytics.calculate_max_drawdown]. *)
Definition calculate_max_drawdown (equity_df : list EquityPoint)
    : exn + (xnum * xnum * option Z * option Z) :=
  if is_empty equity_df then inr (Fin 0, Fin 0, None, None)
  else
    let portfolio_values := map portfolio_value equity_df in
    let drawdown := drawdown_series portfolio_values in
    let max_dd := series_min drawdown in
    let max_dd_pct := xscale max_dd 100 in
    match drawdown_labels portfolio_values with
    | inl e => inl e
    | inr (peak_idx, max_dd_idx) =>
        inr (max_dd, max_dd_pct,
             timestamp_at equity_df peak_idx,
             timestamp_at equity_df max_dd_idx)
    end.

(** A row of the frame returned by [drawdown_analysis]. *)
Record Episode : Type := mkEpisode {
  start_date : Z;
  end_date : Z;
  duration_days : Z;
  max_drawdown_pct : xnum;
  recovery_date : Z
}.

(** Timestamps count seconds; [Timedelta.days] is the floor of the
    difference in days. *)
Definition days (delta : Z) : Z := (delta / 86400)%Z.

(** [self.equity_df.iloc[i]['timestamp']], for a position inside the frame. *)
Definition iloc_timestamp (equity_df : list EquityPoint) (i : nat) : Z :=
  nth i (map timestamp equity_df) 0%Z.

(** [drawdown.iloc[a:b]]. *)
Definition iloc_slice {A} (a b : nat) (l : list A) : list A :=
  firstn (b - a) (skipn a l).

(** The dictionary appended for the run from [start_idx] to [end_idx]. *)
Definition episode (equity_df : list EquityPoint) (drawdown : list xnum)
    (start_idx end_idx : nat) : Episode :=
  let period_dd := iloc_slice start_idx (end_idx + 1) drawdown in
  let max_dd := series_min period_dd in
  mkEpisode (iloc_timestamp equity_df start_idx)
            (iloc_timestamp equity_df end_idx)
            (days (iloc_timestamp equity_df end_idx - iloc_timestamp equity_df start_idx))
            max_dd
            (iloc_timestamp equity_df end_idx).

(** The loop [for i, is_dd in enumerate(in_drawdown)], from position [i] on,
    with the loop variable [start_idx] and the list built so far. *)
Fixpoint scan_drawdown (equity_df : list EquityPoint) (drawdown : list xnum)
    (i : nat) (in_drawdown : list bool)
    (start_idx : option nat) (drawdown_periods : list Episode) : list Episode :=
  match in_drawdown with
  | [] => drawdown_periods
  | is_dd :: rest =>
      match is_dd, start_idx with
      | true, None =>
          scan_drawdown equity_df drawdown (S i) rest (Some i) drawdown_periods
      | false, Some s =>
          let end_idx := (i - 1)%nat in
          scan_drawdown equity_df drawdown (S i) rest None
            (drawdown_periods ++ [episode equity_df drawdown s end_idx])
      | _, _ =>
          scan_drawdown equity_df drawdown (S i) rest start_idx drawdown_periods
      end
  end.

(** [(portfolio_values - peak) / peak * 100]. *)
Definition drawdown_pct_series (vs : list Q) : list xnum :=
  map (fun x => xscale x 100) (drawdown_series vs).

(** [drawdown < -0.1]. *)
Definition in_drawdown_column (drawdown : list xnum) : list bool :=
  map (fun x => xltb x (Fin (-0.1))) drawdown.

(** [AdvancedAnalytics.drawdown_analysis]. *)
Definition drawdown_analysis (equity_df : list EquityPoint) : list Episode :=
  if is_empty equity_df then []
  else
    let drawdown := drawdown_pct_series (map portfolio_value equity_df) in
    scan_drawdown equity_df drawdown 0 (in_drawdown_column drawdown) None [].

(** ** Scenarios used below *)

(** A strategy that replays a fixed list of signals, holding afterwards. *)
Definition signals (l : list Z) : Strategy := fun _ i => nth i l 0%Z.

(** A frame with both columns and one bar a day at the given closes. *)
Definition frame_of (closes : list Q) : DataFrame :=
  mkFrame true true
    (map (fun tc => mkBar (Z.of_nat (fst tc) * 86400) (snd tc))
         (combine (seq 0 (length closes)) closes)).

(** The engine that [__init__] builds. *)
Definition fresh (b c : Q) : Engine := mkEngine b b c 0 0 [] [].

(** An equity curve with one point a day at the given portfolio values. *)
Definition curve_of (vs : list Q) : list EquityPoint :=
  map (fun tv => mkPoint (Z.of_nat (fst tv) * 86400) (snd tv) 1)
      (combine (seq 0 (length vs)) vs).

(** The end-to-end scenario: four daily bars and one round trip. *)
Definition scenario_frame : DataFrame := frame_of [100; 110; 90; 120].

Definition scenario_signals : Strategy := signals [1; 0; -1; 0]%Z.

Definition scenario_engine : Engine := fresh 10000 0.

Definition scenario_final : Engine :=
  fst (run_backtest scenario_frame scenario_signals scenario_engine).

(** Two bars whose timestamps go backwards. *)
Definition backwards_frame : DataFrame :=
  mkFrame true true [mkBar 86400 100; mkBar 0 110].

(** A frame of one bar that has no ['close'] column. *)
Definition closeless_frame : DataFrame :=
  mkFrame false true [mkBar 0 100].

(** * Derived notions used in the statements *)

(** ** Closed forms of the methods *)

(** The engine after an accepted [buy]. *)
Definition bought (price quantity : Q) (timestamp : Z) (self : Engine) : Engine :=
  let cost := quantity * price * (1 + commission self) in
  mkEngine (initial_balance self) (balance self - cost) (commission self)
           (position self + quantity) price
           (trades self ++ [BUY timestamp price quantity cost (balance self - cost)])
           (equity_curve self).

(** The engine after the two assignments of an accepted [sell]. *)
Definition credited (price quantity : Q) (self : Engine) : Engine :=
  mkEngine (initial_balance self)
           (balance self + quantity * price * (1 - commission self))
           (commission self) (position self - quantity) (entry_price self)
           (trades self) (equity_curve self).

(** The engine after a [sell] that ran to its end. *)
Definition sold (price quantity : Q) (timestamp : Z) (self : Engine) : Engine :=
  let revenue := quantity * price * (1 - commission self) in
  mkEngine (initial_balance self) (balance self + revenue) (commission self)
           (position self - quantity) (entry_price self)
           (trades self ++
              [SELL timestamp price quantity revenue
                    ((price - entry_price self) * quantity)
                    ((price - entry_price self) / entry_price self * 100)
                    (balance self + revenue)])
           (equity_curve self).

(** The engine after the equity point of a bar is appended. *)
Definition recorded (timestamp : Z) (current_price : Q) (self : Engine) : Engine :=
  append_equity
    (mkPoint timestamp (get_portfolio_value self current_price) current_price) self.

(** The point that a bar appends, read off the engine after the bar. *)
Definition point_of (row : Bar) (self : Engine) : EquityPoint :=
  mkPoint (open_time row) (balance self + position self * close row) (close row).

(** ** Invariants of a run *)

(** A commission under which the sized order of [run_backtest] (95% of the
    balance) is affordable. *)
Definition affordable (c : Q) : Prop := 0.95 * (1 + c) <= 1.

(** No shorting, no negative cash, and an open position was bought. *)
Definition healthy (e : Engine) : Prop :=
  0 <= balance e /\ 0 <= position e /\
  (0 < position e -> affordable (commission e) /\ ~ entry_price e == 0).

Definition positive_closes (rs : list Bar) : Prop :=
  forall row, In row rs -> 0 < close row.

Definition well_formed (df : DataFrame) : Prop :=
  has_close df = true /\ has_open_time df = true.

(** ** Two runs of one signal sequence under two commissions *)

(** Both engines are flat, the second with no more cash than the first. *)
Definition flat_pair (e1 e2 : Engine) : Prop :=
  position e1 == 0 /\ position e2 == 0 /\
  0 < balance e2 /\ balance e2 <= balance e1.

(** Both engines are long, the second with no more units and no more cash
    than the first. *)
Definition long_pair (e1 e2 : Engine) : Prop :=
  0 < position e2 /\ position e2 <= position e1 /\
  0 <= balance e2 /\ balance e2 <= balance e1 /\
  ~ entry_price e1 == 0 /\ ~ entry_price e2 == 0.

Definition dominated (c1 c2 : Q) (e1 e2 : Engine) : Prop :=
  commission e1 = c1 /\ commission e2 = c2 /\
  (flat_pair e1 e2 \/ long_pair e1 e2).

(** Both engines are flat and hold the same positive cash. *)
Definition idle_pair (c1 c2 : Q) (e1 e2 : Engine) : Prop :=
  commission e1 = c1 /\ commission e2 = c2 /\
  position e1 == 0 /\ position e2 == 0 /\
  balance e1 = balance e2 /\ 0 < balance e1.

(** ** Drawdown runs *)

(** A closed run of the column [in_drawdown]: the positions [s..e] are all in
    drawdown, the position before [s] (if any) is not, and the position after
    [e] exists and is not. *)
Definition closed_run (in_drawdown : list bool) (s e : nat) : Prop :=
  (s <= e)%nat /\
  (forall j, (s <= j <= e)%nat -> nth j in_drawdown false = true) /\
  (forall s', S s' = s -> nth s' in_drawdown false = false) /\
  (S e < length in_drawdown)%nat /\
  nth (S e) in_drawdown false = false.

(** The pairs [(start_idx, end_idx)] for which the loop of
    [drawdown_analysis] appends a row, from position [i] on. *)
Fixpoint runs_from (i : nat) (in_drawdown : list bool) (start_idx : option nat)
    : list (nat * nat) :=
  match in_drawdown with
  | [] => []
  | is_dd :: rest =>
      match is_dd, start_idx with
      | true, None => runs_from (S i) rest (Some i)
      | false, Some s => (s, (i - 1)%nat) :: runs_from (S i) rest None
      | _, _ => runs_from (S i) rest start_idx
      end
  end.

(** What the loop variable [start_idx] records on entering position [i]. *)
Definition start_ok (l : list bool) (i : nat) (start_idx : option nat) : Prop :=
  match start_idx with
  | None => forall i', S i' = i -> nth i' l false = false
  | Some s =>
      (s < i)%nat /\
      (forall j, (s <= j < i)%nat -> nth j l false = true) /\
      (forall s', S s' = s -> nth s' l false = false)
  end.

(** Row [a] ends before row [b] starts. *)
Definition run_before (a b : nat * nat) : Prop := (snd a < fst b)%nat.

(** ** Drawdown runs, read off the values *)

(** The order of floats as a proposition: minus infinity lies below every
    finite value and below plus infinity, every finite value lies below plus
    infinity, and NaN is not comparable with anything. *)
Definition xlt (x y : xnum) : Prop :=
  match x, y with
  | Fin a, Fin b => a < b
  | Fin _, PInf => True
  | NInf, Fin _ => True
  | NInf, PInf => True
  | _, _ => False
  end.

(** A drawdown, in percent, of more than 0.1 percent. *)
Definition below_threshold (x : xnum) : Prop := xlt x (Fin (-0.1)).

(** Position [j] of the series is in drawdown. *)
Definition in_drawdown_at (drawdown : list xnum) (j : nat) : Prop :=
  (j < length drawdown)%nat /\ below_threshold (nth j drawdown NaN).

(** A closed run of a drawdown series: the positions [s..e] are all in
    drawdown, the position before [s] (if any) is not, and the position after
    [e] exists and is not. *)
Definition drawdown_run (drawdown : list xnum) (s e : nat) : Prop :=
  (s <= e)%nat /\
  (forall j, (s <= j <= e)%nat -> in_drawdown_at drawdown j) /\
  (forall s', S s' = s -> ~ in_drawdown_at drawdown s') /\
  (S e < length drawdown)%nat /\
  ~ in_drawdown_at drawdown (S e).

(** [p] is the running peak of [vs] at position [j]: one of the values at the
    positions [0..j], and none of them is above it. *)
Definition running_peak (vs : list Q) (j : nat) (p : Q) : Prop :=
  (exists k, (k <= j)%nat /\ nth k vs 0 = p) /\
  (forall k, (k <= j)%nat -> nth k vs 0 <= p).

(** The date of a timestamp, as a day number, and its time of day in
    seconds. *)
Definition calendar_day (t : Z) : Z := (t / 86400)%Z.

Definition time_of_day (t : Z) : Z := (t mod 86400)%Z.

(** Four one-minute bars around midnight: 23:58, 23:59, 00:00 and 00:01, with
    a dip of one percent that is recovered at 00:01. *)
Definition midnight_curve : list EquityPoint :=
  [mkPoint 86280 100 1; mkPoint 86340 99 1;
   mkPoint 86400 99.5 1; mkPoint 86460 100 1].

(** ** Curves without a decline *)

(** Every value is at least the one before it, starting above [m]. *)
Fixpoint rising_from (m : Q) (vs : list Q) : Prop :=
  match vs with
  | [] => True
  | v :: vs' => m <= v /\ rising_from v vs'
  end.

(** A non-empty curve of positive values that never declines. *)
Definition never_declines (vs : list Q) : Prop :=
  match vs with
  | [] => False
  | v :: vs' => 0 < v /\ rising_from v vs'
  end.

(** An entry of a drawdown series that is a finite zero. *)
Definition zero_entry (x : xnum) : Prop := exists z, x = Fin z /\ z == 0.

From Stdlib Require Import Qround.

(** * Notions used in the further properties *)

(** ** Runs without trades *)

(** A strategy that gives neither a buy nor a sell signal at any bar of a
    frame. *)
Definition holds (strategy_func : Strategy) (df : DataFrame) : Prop :=
  forall i, (i < length (rows df))%nat ->
    strategy_func df i <> 1%Z /\ strategy_func df i <> (-1)%Z.

(** The equity points that the bars [rs] append while the account of [e]
    stays as it is. *)
Definition marked (e : Engine) (rs : list Bar) : list EquityPoint :=
  map (fun row => point_of row e) rs.

(** The engine [e] with the points of [rs] appended and nothing else changed. *)
Definition idled (e : Engine) (rs : list Bar) : Engine :=
  mkEngine (initial_balance e) (balance e) (commission e) (position e)
           (entry_price e) (trades e) (equity_curve e ++ marked e rs).

(** ** Shape of the trade ledger *)

(** A ledger made of round trips: a BUY row, then a SELL row for the same
    quantity, and so on, possibly ending with an open BUY row. *)
Fixpoint round_trips (ts : list Trade) : Prop :=
  match ts with
  | [] => True
  | BUY _ _ q _ _ :: rest =>
      match rest with
      | [] => True
      | SELL _ _ q' _ _ _ _ :: rest' => q' == q /\ round_trips rest'
      | BUY _ _ _ _ _ :: _ => False
      end
  | SELL _ _ _ _ _ _ _ :: _ => False
  end.

(** The engine is flat, with cash, after complete round trips. *)
Definition ledger_flat (e : Engine) : Prop :=
  position e == 0 /\ 0 < balance e /\
  round_trips (trades e) /\ Nat.even (length (trades e)) = true.

(** The engine is long, after complete round trips and one open BUY row for
    the units it holds. *)
Definition ledger_long (e : Engine) : Prop :=
  0 < position e /\ 0 <= balance e /\
  affordable (commission e) /\ ~ entry_price e == 0 /\
  exists pre ts p q cost bal,
    trades e = pre ++ [BUY ts p q cost bal] /\
    round_trips pre /\ Nat.even (length pre) = true /\ position e == q.

(** The ['timestamp'] and ['price'] entries of a trade row. *)
Definition trade_stamp (t : Trade) : Z * Q :=
  match t with
  | BUY ts p _ _ _ => (ts, p)
  | SELL ts p _ _ _ _ _ => (ts, p)
  end.

(** The ['open_time'] and ['close'] entries of a bar. *)
Definition bar_stamp (row : Bar) : Z * Q := (open_time row, close row).

(** [l1] is [l2] with some entries left out, the order kept. *)
Inductive subseq {A : Type} : list A -> list A -> Prop :=
| subseq_nil : forall l, subseq [] l
| subseq_skip : forall x l1 l2, subseq l1 l2 -> subseq l1 (x :: l2)
| subseq_take : forall x l1 l2, subseq l1 l2 -> subseq (x :: l1) (x :: l2).

(** * The example strategies of [backtest_engine.py] *)

(** ** Positional slices and column statistics *)

(** A slice bound of Python on a sequence of length [n]: a negative bound
    counts from the end, and every bound is clipped to [0..n]. *)
Definition slice_bound (n : nat) (k : Z) : nat :=
  if (k <? 0)%Z then Z.to_nat (Z.max 0 (Z.of_nat n + k))
  else Nat.min (Z.to_nat k) n.

(** [series.iloc[a:b]]. *)
Definition iloc {A} (a b : Z) (l : list A) : list A :=
  let start := slice_bound (length l) a in
  let stop := slice_bound (length l) b in
  firstn (stop - start) (skipn start l).

(** [Series.mean()] of a column of finite values: NaN when it is empty. *)
Definition series_mean (qs : list Q) : xnum :=
  match qs with
  | [] => NaN
  | _ :: _ => Fin (Qmean qs)
  end.

(** [x <= y]; every comparison with NaN is false. *)
Definition xleb (x y : xnum) : bool :=
  negb (is_nan x) && negb (is_nan y) && negb (xltb y x).

(** ** [sma_crossover_strategy] *)

(** [sma_crossover_strategy(df, current_index, short_period, long_period)],
    on the column [df['close']]. *)
Definition sma_crossover (closes : list Q)
    (current_index short_period long_period : Z) : Z :=
  if (current_index <? long_period)%Z then 0%Z
  else
    let short_sma :=
      series_mean (iloc (current_index - short_period) current_index closes) in
    let long_sma :=
      series_mean (iloc (current_index - long_period) current_index closes) in
    let prev_short_sma :=
      series_mean (iloc (current_index - short_period - 1) (current_index - 1) closes) in
    let prev_long_sma :=
      series_mean (iloc (current_index - long_period - 1) (current_index - 1) closes) in
    if xltb long_sma short_sma && xleb prev_short_sma prev_long_sma then 1%Z
    else if xltb short_sma long_sma && xleb prev_long_sma prev_short_sma then (-1)%Z
    else 0%Z.

(** The strategy with its default periods 10 and 20, as [run_backtest]
    calls it. *)
Definition sma_crossover_strategy : Strategy :=
  fun df current_index =>
    sma_crossover (map close (rows df)) (Z.of_nat current_index) 10 20.

(** ** [rsi_strategy] *)

(** [Series.diff()] with the leading NaN already replaced by the [0] that
    both [where] calls put there. *)
Fixpoint diff_from (prev : Q) (qs : list Q) : list Q :=
  match qs with
  | [] => []
  | q :: qs' => (q - prev) :: diff_from q qs'
  end.

(** [delta.where(delta > 0, 0)]: the rises of the window, 0 elsewhere. *)
Definition rises (window : list Q) : list Q :=
  match window with
  | [] => []
  | q :: qs => 0 :: map (fun d => if ltb 0 d then d else 0) (diff_from q qs)
  end.

(** [-delta.where(delta < 0, 0)]: the falls of the window as positive
    numbers, 0 elsewhere. *)
Definition falls (window : list Q) : list Q :=
  match window with
  | [] => []
  | q :: qs => - 0 :: map (fun d => - (if ltb d 0 then d else 0)) (diff_from q qs)
  end.

(** [q - x] for a float [x]. *)
Definition xrsub (q : Q) (x : xnum) : xnum :=
  match x with
  | Fin a => Fin (q - a)
  | PInf => NInf
  | NInf => PInf
  | NaN => NaN
  end.

(** [100 - (100 / (1 + rs))] for [rs = gain / loss], in numpy floats. *)
Definition rsi_value (gain loss : Q) : xnum :=
  match xdiv gain loss with
  | Fin rs => xrsub 100 (xdiv 100 (1 + rs))
  | PInf => Fin (100 - 0)
  | NInf => Fin (100 - 0)
  | NaN => NaN
  end.

(** [rsi_strategy(df, current_index, period, oversold, overbought)] of
    [backtest_engine.py], on the column [df['close']]. *)
Definition rsi_signal (closes : list Q) (current_index period : Z)
    (oversold overbought : Q) : Z :=
  if (current_index <? period)%Z then 0%Z
  else
    let window := iloc (current_index - period) current_index closes in
    match window with
    | [] => 0%Z
    | _ :: _ =>
        let gain := Qmean (rises window) in
        let loss := Qmean (falls window) in
        if Qeq_bool loss 0 then 0%Z
        else
          let rsi := rsi_value gain loss in
          if xltb rsi (Fin oversold) then 1%Z
          else if xltb (Fin overbought) rsi then (-1)%Z
          else 0%Z
    end.

(** The strategy with its defaults: period 14, oversold 30, overbought 70. *)
Definition rsi_strategy : Strategy :=
  fun df current_index =>
    rsi_signal (map close (rows df)) (Z.of_nat current_index) 14 30 70.

(** ** Drawdown values *)

(** An entry of a drawdown series that lies in [(-1, 0]]. *)
Definition shallow_entry (x : xnum) : Prop :=
  exists z, x = Fin z /\ -1 < z /\ z <= 0.

(** * Performance by calendar period *)

(** ** Rounding and column sums *)

(** [np.rint]: the nearest integer, a tie going to the even one. *)
Definition rint (x : Q) : Z :=
  let f := Qfloor x in
  let r := x - inject_Z f in
  if ltb r (1 # 2) then f
  else if ltb (1 # 2) r then (f + 1)%Z
  else if Z.even f then f else (f + 1)%Z.

(** [round(decimals)] on a float, for [scale = 10 ** decimals]. *)
Definition round_to (scale : Q) (x : Q) : Q :=
  inject_Z (rint (x * scale)) / scale.

Definition xround (scale : Q) (x : xnum) : xnum :=
  match x with Fin q => Fin (round_to scale q) | _ => x end.

(** The sum of a group column, NaN skipped: 0 for a group without values. *)
Definition xsum (xs : list xnum) : xnum :=
  match finite_values xs with
  | Some qs => Fin (Qsum qs)
  | None =>
      let pos := has (fun x => match x with PInf => true | _ => false end) xs in
      let neg := has (fun x => match x with NInf => true | _ => false end) xs in
      if pos && neg then NaN else if pos then PInf else NInf
  end.

(** ** Grouping *)

(** The group keys of [groupby]: each key once, in ascending order. *)
Fixpoint insert_key (k : Z) (ks : list Z) : list Z :=
  match ks with
  | [] => [k]
  | x :: rest =>
      if (k <? x)%Z then k :: ks
      else if (k =? x)%Z then ks
      else x :: insert_key k rest
  end.

Definition group_keys (ks : list Z) : list Z := fold_right insert_key [] ks.

(** A row of the frame returned by [performance_by_period], with the column
    names of the source.  The column ['volatility'] is the rounded root of
    [volatility_sq], the sample variance of the returns of the period ([None]
    is NaN). *)
Module ByPeriod.

Record Row : Type := mkRow {
  period : Z;
  start_value : Q;
  end_value : Q;
  total_return : xnum;
  volatility_sq : option Q;
  periods : nat;
  return_pct : xnum
}.

End ByPeriod.

(** The rows of [equity_df] with their ['returns'] entry. *)
Definition with_returns (equity_df : list EquityPoint)
    : list (EquityPoint * xnum) :=
  combine equity_df (returns_column equity_df).

(** The rows of one period, in their order in the frame. *)
Definition period_group (to_period : Z -> Z) (k : Z)
    (table : list (EquityPoint * xnum)) : list (EquityPoint * xnum) :=
  filter (fun r => (to_period (timestamp (fst r)) =? k)%Z) table.

(** The aggregation of one group: first and last portfolio value, sum,
    deviation and count of the returns, all float columns rounded to 4
    decimals, then the return percentage of the rounded values, rounded to 2
    decimals. *)
Definition period_row (to_period : Z -> Z)
    (table : list (EquityPoint * xnum)) (k : Z) : ByPeriod.Row :=
  let g := period_group to_period k table in
  let values := map (fun r => portfolio_value (fst r)) g in
  let rets := map snd g in
  let start := round_to 10000 (hd 0 values) in
  let stop := round_to 10000 (last values 0) in
  ByPeriod.mkRow k start stop
    (xround 10000 (xsum rets))
    (std_sq rets)
    (length (dropna rets))
    (xround 100 (xscale (xdiv (stop - start) start) 100)).

(** [AdvancedAnalytics.performance_by_period], for the calendar given as the
    function [to_period] from a timestamp to the ordinal of its period
    (pandas' [to_period('M')] or [to_period('W')]). *)
Definition performance_by_period (to_period : Z -> Z)
    (equity_df : list EquityPoint) : list ByPeriod.Row :=
  if is_empty equity_df then []
  else
    let table := with_returns equity_df in
    map (period_row to_period table)
        (group_keys (map (fun p => to_period (timestamp p)) equity_df)).

(** The weeks of [to_period('W')]: Monday to Sunday; day 0 of the timestamps
    is a Thursday. *)
Definition week_of (ts : Z) : Z := ((ts / 86400 + 3) / 7)%Z.

(** Six daily points, from a Thursday to the Tuesday after. *)
Definition sample_curve : list EquityPoint :=
  curve_of [100; 101; 102; 103; 104; 90].

(** * Properties of the engine *)

(** ** Booleans of the code as propositions *)

Lemma ltb_true (a b : Q) : ltb a b = true <-> a < b.
Proof.
  unfold ltb. rewrite negb_true_iff. split; intro H.
  - apply Qnot_le_lt. intro L. apply Qle_bool_iff in L. congruence.
  - destruct (Qle_bool b a) eqn:E; trivial.
    apply Qle_bool_iff in E. exfalso. exact (Qlt_not_le _ _ H E).
Qed.

Lemma ltb_false (a b : Q) : ltb a b = false <-> b <= a.
Proof.
  unfold ltb. rewrite negb_false_iff. apply Qle_bool_iff.
Qed.

Lemma Qle_bool_false (a b : Q) : Qle_bool a b = false <-> b < a.
Proof.
  rewrite <- ltb_true. unfold ltb. now rewrite negb_true_iff.
Qed.

Lemma Qeq_bool_false (a b : Q) : Qeq_bool a b = false <-> ~ a == b.
Proof.
  split; intro H.
  - now apply Qeq_bool_neq.
  - destruct (Qeq_bool a b) eqn:E; trivial.
    apply Qeq_bool_iff in E. contradiction.
Qed.

(** Turn every boolean test in the context into its proposition. *)
Ltac reflect_tests :=
  repeat match goal with
    | H : _ && _ = true |- _ => apply andb_true_iff in H; destruct H
    | H : Qle_bool _ _ = true |- _ => apply Qle_bool_iff in H
    | H : Qle_bool _ _ = false |- _ => apply Qle_bool_false in H
    | H : Qeq_bool _ _ = true |- _ => apply Qeq_bool_iff in H
    | H : Qeq_bool _ _ = false |- _ => apply Qeq_bool_false in H
    | H : ltb _ _ = true |- _ => apply ltb_true in H
    | H : ltb _ _ = false |- _ => apply ltb_false in H
    end.

Lemma quotient_spec (a p : Q) : ~ p == 0 -> (a / p) * p == a.
Proof. intro H. field. exact H. Qed.

Lemma buy_eq (price quantity : Q) (timestamp : Z) (self : Engine) :
  buy price quantity timestamp self =
    if Qle_bool (quantity * price * (1 + commission self)) (balance self)
    then (bought price quantity timestamp self, inr true)
    else (self, inr false).
Proof.
  unfold buy, bind, get. cbn.
  destruct (Qle_bool _ _); reflexivity.
Qed.

Lemma sell_eq (price quantity : Q) (timestamp : Z) (self : Engine) :
  sell price quantity timestamp self =
    if Qle_bool quantity (position self) then
      if Qeq_bool (entry_price self) 0
      then (credited price quantity self, inl ZeroDivisionError)
      else (sold price quantity timestamp self, inr true)
    else (self, inr false).
Proof.
  unfold sell, bind, get, lift, truediv. cbn.
  destruct (Qle_bool _ _); [|reflexivity].
  cbn. destruct (Qeq_bool (entry_price self) 0); reflexivity.
Qed.

(** The loop body on a frame that has both columns. *)
Lemma bar_step_eq (df : DataFrame) (strategy_func : Strategy) (i : nat)
    (row : Bar) (self : Engine) :
  has_close df = true -> has_open_time df = true ->
  bar_step df strategy_func i row self =
    let p := close row in
    let ts := open_time row in
    if (strategy_func df i =? 1)%Z && Qeq_bool (position self) 0 then
      if Qeq_bool p 0 then (self, inl ZeroDivisionError)
      else
        let quantity := balance self / p * 0.95 in
        if Qle_bool (quantity * p * (1 + commission self)) (balance self)
        then (recorded ts p (bought p quantity ts self), inr tt)
        else (recorded ts p self, inr tt)
    else if (strategy_func df i =? -1)%Z && ltb 0 (position self) then
      if Qle_bool (position self) (position self) then
        if Qeq_bool (entry_price self) 0
        then (credited p (position self) self, inl ZeroDivisionError)
        else (recorded ts p (sold p (position self) ts self), inr tt)
      else (recorded ts p self, inr tt)
    else (recorded ts p self, inr tt).
Proof.
  intros Hc Ht.
  unfold bar_step, bind, lift, row_close, row_open_time, get.
  rewrite Hc, Ht. cbv beta iota zeta.
  destruct (_ && Qeq_bool _ _).
  - unfold truediv. destruct (Qeq_bool (close row) 0); [reflexivity|].
    cbv beta iota. rewrite buy_eq. destruct (Qle_bool _ _); reflexivity.
  - destruct (_ && ltb _ _); [|reflexivity].
    rewrite sell_eq. destruct (Qle_bool _ _); [|reflexivity].
    destruct (Qeq_bool _ _); reflexivity.
Qed.

(** A frame without the ['close'] or the ['open_time'] column stops the
    loop body at the row access, with the engine untouched. *)
Lemma bar_step_missing_column (df : DataFrame) (strategy_func : Strategy)
    (i : nat) (row : Bar) (self : Engine) :
  has_close df = false \/ has_open_time df = false ->
  bar_step df strategy_func i row self = (self, inl KeyError).
Proof.
  intros H. unfold bar_step, bind, lift, row_close, row_open_time.
  destruct (has_close df); [|reflexivity].
  destruct H as [H|H]; [discriminate|]. now rewrite H.
Qed.

(** ** The equity curve follows the engine state *)

Lemma recorded_point (row : Bar) (e1 : Engine) :
  equity_curve (recorded (open_time row) (close row) e1) =
    equity_curve e1 ++ [point_of row (recorded (open_time row) (close row) e1)].
Proof. reflexivity. Qed.

Lemma bar_step_outcome (df : DataFrame) (strategy_func : Strategy) (i : nat)
    (row : Bar) (e e' : Engine) (r : exn + unit) :
  bar_step df strategy_func i row e = (e', r) ->
  match r with
  | inr _ => equity_curve e' = equity_curve e ++ [point_of row e']
  | inl _ => equity_curve e' = equity_curve e
  end.
Proof.
  intro H.
  destruct (has_close df) eqn:Hc; [destruct (has_open_time df) eqn:Ht|].
  - rewrite bar_step_eq in H by assumption. cbv zeta in H.
    repeat match type of H with
      | (if ?b then _ else _) = _ => destruct b
      end; inversion H; subst; try reflexivity.
  - rewrite bar_step_missing_column in H by (now right).
    inversion H; subst; reflexivity.
  - rewrite bar_step_missing_column in H by (now left).
    inversion H; subst; reflexivity.
Qed.

Lemma iterrows_cons (df : DataFrame) (strategy_func : Strategy) (i : nat)
    (row : Bar) (rs : list Bar) (e : Engine) :
  iterrows df strategy_func i (row :: rs) e =
    match bar_step df strategy_func i row e with
    | (e1, inr _) => iterrows df strategy_func (S i) rs e1
    | (e1, inl x) => (e1, inl x)
    end.
Proof. reflexivity. Qed.

(** What a run, complete or stopped by an exception, leaves in the equity
    curve: one point per bar it got through, each computed from the engine as
    it was after that bar. *)
Lemma iterrows_trace (df : DataFrame) (strategy_func : Strategy) :
  forall (rs : list Bar) (i : nat) (e e' : Engine) (r : exn + unit),
    iterrows df strategy_func i rs e = (e', r) ->
    exists pts,
      equity_curve e' = equity_curve e ++ pts /\
      (forall u, r = inr u -> length pts = length rs) /\
      forall k pt, nth_error pts k = Some pt ->
        exists bar ek,
          nth_error rs k = Some bar /\
          iterrows df strategy_func i (firstn (S k) rs) e = (ek, inr tt) /\
          pt = point_of bar ek.
Proof.
  induction rs as [|row rs IH]; intros i e e' r H.
  - inversion H; subst. exists []. rewrite app_nil_r.
    repeat split; trivial. intros [|k] pt Hk; discriminate.
  - rewrite iterrows_cons in H.
    destruct (bar_step df strategy_func i row e) as [e1 [x|[]]] eqn:Hs.
    + inversion H; subst. apply bar_step_outcome in Hs.
      exists []. rewrite app_nil_r. repeat split; trivial.
      * intros u Hu; discriminate.
      * intros [|k] pt Hk; discriminate.
    + pose proof (bar_step_outcome _ _ _ _ _ _ _ Hs) as Ho. cbv beta iota in Ho.
      destruct (IH _ _ _ _ H) as (pts & Heq & Hlen & Hpts).
      exists (point_of row e1 :: pts). repeat split.
      * rewrite Heq, Ho, <- app_assoc. reflexivity.
      * intros u Hu. cbn. f_equal. eauto.
      * intros [|k] pt Hk.
        -- inversion Hk; subst. exists row, e1. repeat split.
           cbn [firstn]. rewrite iterrows_cons, Hs. reflexivity.
        -- cbn in Hk. destruct (Hpts _ _ Hk) as (bar & ek & Hb & Hr & Hp).
           exists bar, ek. repeat split; trivial.
           change (firstn (S (S k)) (row :: rs)) with (row :: firstn (S k) rs).
           rewrite iterrows_cons, Hs. exact Hr.
Qed.

(** C1 (conservation).  When [run_backtest] completes over a non-empty bar
    series, the curve has grown by one point per bar; the last point's
    portfolio value is the final balance plus the final position times the
    last close; and the point of every bar is the balance plus the position
    times that bar's close, taken in the engine as it was after that bar's
    transition. *)
Theorem C1_conservation (df : DataFrame) (strategy_func : Strategy)
    (e e' : Engine) :
  rows df <> [] ->
  run_backtest df strategy_func e = (e', inr tt) ->
  length (equity_curve e') = (length (equity_curve e) + length (rows df))%nat /\
  (forall d d',
      portfolio_value (last (equity_curve e') d) =
        balance e' + position e' * close (last (rows df) d')) /\
  (forall k bar, nth_error (rows df) k = Some bar ->
      exists ek pt,
        iterrows df strategy_func 0 (firstn (S k) (rows df)) e = (ek, inr tt) /\
        nth_error (equity_curve e') (length (equity_curve e) + k) = Some pt /\
        portfolio_value pt = balance ek + position ek * close bar /\
        price pt = close bar /\ timestamp pt = open_time bar).
Proof.
  unfold run_backtest. intros Hne Hrun.
  destruct (iterrows_trace _ _ _ _ _ _ _ Hrun) as (pts & Heq & Hlen & Hpts).
  specialize (Hlen tt eq_refl).
  assert (Hk : forall k bar, nth_error (rows df) k = Some bar ->
            exists ek,
              iterrows df strategy_func 0 (firstn (S k) (rows df)) e = (ek, inr tt) /\
              nth_error pts k = Some (point_of bar ek)).
  { intros k bar Hb.
    assert (Hlt : (k < length pts)%nat).
    { rewrite Hlen. apply nth_error_Some. congruence. }
    destruct (nth_error pts k) as [pt|] eqn:Hpt;
      [|apply nth_error_None in Hpt; lia].
    destruct (Hpts _ _ Hpt) as (bar' & ek & Hb' & Hr & Hp).
    assert (bar' = bar) by congruence. subst. eauto. }
  split; [|split].
  - rewrite Heq, length_app, Hlen. reflexivity.
  - intros d d'.
    destruct (exists_last Hne) as (pre & bar & Hrows).
    assert (Hb : nth_error (rows df) (length pre) = Some bar).
    { rewrite Hrows, nth_error_app2, Nat.sub_diag by lia. reflexivity. }
    destruct (Hk _ _ Hb) as (ek & Hr & Hpt).
    assert (Hall : firstn (S (length pre)) (rows df) = rows df).
    { apply firstn_all2. rewrite Hrows, length_app. cbn. lia. }
    rewrite Hall, Hrun in Hr. inversion Hr; subst ek.
    assert (Hpts' : pts = firstn (length pre) pts ++ [point_of bar e']).
    { rewrite <- (firstn_skipn (length pre) pts) at 1. f_equal.
      assert (Hl : length (skipn (length pre) pts) = 1%nat).
      { rewrite length_skipn, Hlen, Hrows, length_app. cbn. lia. }
      rewrite <- (Nat.add_0_r (length pre)), <- nth_error_skipn in Hpt.
      destruct (skipn (length pre) pts) as [|x [|y l]]; try discriminate.
      cbn in Hpt. congruence. }
    rewrite Heq, Hpts', app_assoc, last_last.
    rewrite Hrows at 1. rewrite last_last. reflexivity.
  - intros k bar Hb. destruct (Hk _ _ Hb) as (ek & Hr & Hpt).
    exists ek, (point_of bar ek). repeat split; trivial.
    rewrite Heq, nth_error_app2 by lia.
    replace (length (equity_curve e) + k - length (equity_curve e))%nat with k by lia.
    exact Hpt.
Qed.

Lemma C1_conservation_witness :
  rows scenario_frame <> [] /\
  run_backtest scenario_frame scenario_signals scenario_engine
    = (scenario_final, inr tt) /\
  forall d d',
    portfolio_value (last (equity_curve scenario_final) d) =
      balance scenario_final
      + position scenario_final * close (last (rows scenario_frame) d').
Proof.
  assert (Hne : rows scenario_frame <> []) by discriminate.
  assert (Hrun : run_backtest scenario_frame scenario_signals scenario_engine
                 = (scenario_final, inr tt)) by (vm_compute; reflexivity).
  split; [exact Hne|]. split; [exact Hrun|].
  exact (proj1 (proj2 (C1_conservation _ _ _ _ Hne Hrun))).
Defined.

(** ** The end-to-end scenario *)

(** C6.  Balance 10000, commission 0, closes [100, 110, 90, 120], signals
    [Buy, Hold, Sell, Hold]: the run completes; the ledger is one buy at
    index 0 of 95 units costing 9500 and leaving 500, then one sell at index 2
    of 95 units at 90 with revenue 8550, profit -950 and balance 9050; the
    last equity point is worth 9050; the win rate is 0. *)
Theorem C6_end_to_end_scenario :
  exists e0 e' q cost b1 q' revenue profit pct b2 m,
    __init__ 10000 0 = inr e0 /\
    run_backtest scenario_frame scenario_signals e0 = (e', inr tt) /\
    trades e' = [BUY 0 100 q cost b1;
                 SELL (2 * 86400) 90 q' revenue profit pct b2] /\
    q == 95 /\ cost == 9500 /\ b1 == 500 /\
    q' == 95 /\ revenue == 8550 /\ profit == -950 /\ b2 == 9050 /\
    balance e' == 9050 /\ position e' == 0 /\
    (forall d, portfolio_value (last (equity_curve e') d) == 9050) /\
    length (equity_curve e') = 4%nat /\
    length (trades e') = 2%nat /\
    get_performance_metrics e' = inr (MetricsOf m) /\
    win_rate m == 0 /\ total_trades m = 1%nat /\ winning_trades m = 0%nat.
Proof.
  eexists. eexists. do 9 eexists.
  split; [reflexivity|].
  split; [vm_compute; reflexivity|].
  split; [reflexivity|].
  repeat (split; [vm_compute; reflexivity|]).
  vm_compute; reflexivity.
Qed.

(** ** [sell] on an engine that never bought *)

(** C10.  On a freshly constructed engine, [sell] with quantity 0 passes the
    guard [quantity <= position] and raises [ZeroDivisionError] at the
    division by [entry_price = 0]; no trade is appended and no boolean is
    returned. *)
Theorem C10_sell_zero_on_fresh_engine_raises (b c p : Q) (ts : Z) :
  exists e0 e',
    __init__ b c = inr e0 /\
    position e0 = 0 /\ entry_price e0 = 0 /\
    Qle_bool 0 (position e0) = true /\
    sell p 0 ts e0 = (e', inl ZeroDivisionError) /\
    trades e' = [] /\ balance e' == b /\ position e' == 0.
Proof.
  exists (fresh b c), (credited p 0 (fresh b c)).
  repeat split; cbn; ring.
Qed.

(** ** No shorting and no negative cash *)

Lemma bar_step_healthy (df : DataFrame) (strategy_func : Strategy) (i : nat)
    (row : Bar) (e : Engine) :
  well_formed df -> 0 < close row -> healthy e ->
  exists e', bar_step df strategy_func i row e = (e', inr tt) /\ healthy e'.
Proof.
  intros [Hc Ht] Hp (Hb & Hq & Hopen).
  rewrite bar_step_eq by assumption. cbv zeta.
  assert (Hp0 : ~ close row == 0) by lra.
  pose proof (quotient_spec (balance e) (close row) Hp0) as Hd.
  unfold affordable in *.
  destruct (_ && Qeq_bool _ _) eqn:Hbuy.
  - reflect_tests.
    destruct (Qeq_bool (close row) 0) eqn:Hz; reflect_tests; [contradiction|].
    destruct (Qle_bool _ _) eqn:Hcost; reflect_tests.
    + eexists. split; [reflexivity|]. unfold healthy, affordable. cbn.
      set (d := balance e / close row) in *.
      repeat split; try nra.
      assert (Hd0 : 0 < d) by lra.
      assert (Hdp : 0 < d * close row) by (apply Qmult_lt_0_compat; assumption).
      apply Qnot_lt_le. intro Hn.
      assert (Hx : 0 < (d * close row) * (0.95 * (1 + commission e) - 1))
        by (apply Qmult_lt_0_compat; lra).
      nra.
    + eexists. split; [reflexivity|]. unfold healthy. cbn. auto.
  - destruct (_ && ltb _ _) eqn:Hsell.
    + reflect_tests.
      destruct (Hopen H0) as [Haff Hentry].
      assert (Hrefl : Qle_bool (position e) (position e) = true)
        by (apply Qle_bool_iff; lra).
      rewrite Hrefl.
      assert (He : Qeq_bool (entry_price e) 0 = false)
        by (now apply Qeq_bool_false).
      rewrite He.
      eexists. split; [reflexivity|]. unfold healthy. cbn.
      clear Hd.
      assert (Hrev : 0 <= position e * close row * (1 - commission e))
        by (apply Qmult_le_0_compat; [apply Qmult_le_0_compat|]; lra).
      repeat split; lra.
    + eexists. split; [reflexivity|]. unfold healthy. cbn. auto.
Qed.

Lemma iterrows_healthy (df : DataFrame) (strategy_func : Strategy) :
  well_formed df ->
  forall (rs : list Bar) (i : nat) (e : Engine),
    positive_closes rs -> healthy e ->
    exists e', iterrows df strategy_func i rs e = (e', inr tt) /\ healthy e'.
Proof.
  intros Hwf. induction rs as [|row rs IH]; intros i e Hpos He.
  - exists e. split; [reflexivity|assumption].
  - destruct (bar_step_healthy df strategy_func i row e Hwf) as (e1 & Hs & H1);
      [apply Hpos; now left|assumption|].
    destruct (IH (S i) e1) as (e' & Hr & H'); [|assumption|].
    + intros r Hr. apply Hpos. now right.
    + exists e'. split; [|assumption].
      rewrite iterrows_cons, Hs. exact Hr.
Qed.

Lemma fresh_healthy (b c : Q) : 0 < b -> healthy (fresh b c).
Proof.
  intro Hb. unfold healthy. cbn. repeat split; try lra.
Qed.

Lemma positive_closes_firstn (k : nat) (rs : list Bar) :
  positive_closes rs -> positive_closes (firstn k rs).
Proof.
  intros H row Hin. apply H.
  rewrite <- (firstn_skipn k rs). apply in_or_app. now left.
Qed.

(** C5 (no shorting).  From a positive initial balance, over bars with
    positive closes, whatever the strategy and the commission: the run
    completes, it appends one equity point per bar, and at every equity point
    the engine (as it is after that bar's transition) has a balance and a
    position that are not negative. *)
Theorem C5_no_shorting (df : DataFrame) (strategy_func : Strategy)
    (b c : Q) (e0 : Engine) :
  __init__ b c = inr e0 ->
  well_formed df -> 0 < b -> positive_closes (rows df) ->
  exists e',
    run_backtest df strategy_func e0 = (e', inr tt) /\
    length (equity_curve e') = length (rows df) /\
    forall k pt, nth_error (equity_curve e') k = Some pt ->
      exists bar ek,
        nth_error (rows df) k = Some bar /\
        iterrows df strategy_func 0 (firstn (S k) (rows df)) e0 = (ek, inr tt) /\
        pt = point_of bar ek /\
        0 <= balance ek /\ 0 <= position ek.
Proof.
  intros Hinit Hwf Hb Hpos. inversion Hinit; subst e0; clear Hinit.
  fold (fresh b c).
  destruct (iterrows_healthy df strategy_func Hwf (rows df) 0 (fresh b c) Hpos
              (fresh_healthy b c Hb)) as (e' & Hrun & _).
  exists e'. split; [exact Hrun|].
  destruct (iterrows_trace _ _ _ _ _ _ _ Hrun) as (pts & Heq & Hlen & Hpts).
  cbn in Heq. rewrite Heq. split; [exact (Hlen tt eq_refl)|].
  intros k pt Hk. destruct (Hpts _ _ Hk) as (bar & ek & Hbar & Hr & Hp).
  exists bar, ek. repeat split; trivial.
  all: destruct (iterrows_healthy df strategy_func Hwf
                   (firstn (S k) (rows df)) 0 (fresh b c)
                   (positive_closes_firstn _ _ Hpos) (fresh_healthy b c Hb))
         as (ek' & Hr' & Hh);
       rewrite Hr in Hr'; inversion Hr'; subst ek'; apply Hh.
Qed.

Lemma C5_no_shorting_witness :
  exists e',
    run_backtest scenario_frame scenario_signals scenario_engine = (e', inr tt) /\
    length (equity_curve e') = length (rows scenario_frame) /\
    forall k pt, nth_error (equity_curve e') k = Some pt ->
      exists bar ek,
        nth_error (rows scenario_frame) k = Some bar /\
        iterrows scenario_frame scenario_signals 0
          (firstn (S k) (rows scenario_frame)) scenario_engine = (ek, inr tt) /\
        pt = point_of bar ek /\
        0 <= balance ek /\ 0 <= position ek.
Proof.
  apply (C5_no_shorting scenario_frame scenario_signals 10000 0 scenario_engine).
  - reflexivity.
  - split; reflexivity.
  - reflexivity.
  - intros row Hin. cbn in Hin.
    repeat (destruct Hin as [Hin|Hin]; [subst row; reflexivity|]).
    destruct Hin.
Defined.

(** ** The loop body by engine state and signal *)

Lemma bar_step_flat_buy (df : DataFrame) (strategy_func : Strategy)
    (i : nat) (row : Bar) (e : Engine) :
  well_formed df -> 0 < close row ->
  position e == 0 -> 0 < balance e -> affordable (commission e) ->
  (strategy_func df i =? 1)%Z = true ->
  bar_step df strategy_func i row e =
    (recorded (open_time row) (close row)
       (bought (close row) (balance e / close row * 0.95) (open_time row) e),
     inr tt).
Proof.
  intros [Hc Ht] Hp Hq Hb Haff Hs.
  rewrite bar_step_eq by assumption. cbv zeta. set (p := close row).
  apply Qeq_bool_iff in Hq. rewrite Hs, Hq. cbn [andb].
  assert (Hz : Qeq_bool p 0 = false) by (apply Qeq_bool_false; subst p; lra).
  rewrite Hz.
  assert (Hcost : Qle_bool (balance e / p * 0.95 * p * (1 + commission e))
                           (balance e) = true).
  { apply Qle_bool_iff. unfold affordable in Haff.
    assert (Hd : balance e / p * 0.95 * p * (1 + commission e)
                 == balance e * (0.95 * (1 + commission e)))
      by (field; subst p; lra).
    rewrite Hd. nra. }
  rewrite Hcost. reflexivity.
Qed.

Lemma bar_step_flat_buy_rejected (df : DataFrame) (strategy_func : Strategy)
    (i : nat) (row : Bar) (e : Engine) :
  well_formed df -> 0 < close row ->
  position e == 0 -> 0 < balance e -> ~ affordable (commission e) ->
  bar_step df strategy_func i row e =
    (recorded (open_time row) (close row) e, inr tt).
Proof.
  intros [Hc Ht] Hp Hq Hb Haff.
  rewrite bar_step_eq by assumption. cbv zeta. set (p := close row).
  assert (Hl : ltb 0 (position e) = false) by (apply ltb_false; lra).
  apply Qeq_bool_iff in Hq. rewrite Hq, Hl, !andb_true_r, andb_false_r.
  destruct (strategy_func df i =? 1)%Z; [|reflexivity].
  assert (Hz : Qeq_bool p 0 = false) by (apply Qeq_bool_false; subst p; lra).
  rewrite Hz.
  assert (Hcost : Qle_bool (balance e / p * 0.95 * p * (1 + commission e))
                           (balance e) = false).
  { apply Qle_bool_false. unfold affordable in Haff.
    apply Qnot_le_lt in Haff.
    assert (Hd : balance e / p * 0.95 * p * (1 + commission e)
                 == balance e * (0.95 * (1 + commission e)))
      by (field; subst p; lra).
    rewrite Hd. nra. }
  rewrite Hcost. reflexivity.
Qed.

Lemma bar_step_flat_hold (df : DataFrame) (strategy_func : Strategy)
    (i : nat) (row : Bar) (e : Engine) :
  well_formed df ->
  position e == 0 -> (strategy_func df i =? 1)%Z = false ->
  bar_step df strategy_func i row e =
    (recorded (open_time row) (close row) e, inr tt).
Proof.
  intros [Hc Ht] Hq Hs.
  rewrite bar_step_eq by assumption. cbv zeta. set (p := close row).
  assert (Hl : ltb 0 (position e) = false) by (apply ltb_false; lra).
  rewrite Hs, Hl, andb_false_r. reflexivity.
Qed.

Lemma bar_step_long_sell (df : DataFrame) (strategy_func : Strategy)
    (i : nat) (row : Bar) (e : Engine) :
  well_formed df ->
  0 < position e -> ~ entry_price e == 0 ->
  (strategy_func df i =? -1)%Z = true ->
  bar_step df strategy_func i row e =
    (recorded (open_time row) (close row)
       (sold (close row) (position e) (open_time row) e),
     inr tt).
Proof.
  intros [Hc Ht] Hq He Hs.
  rewrite bar_step_eq by assumption. cbv zeta. set (p := close row).
  assert (Hn : Qeq_bool (position e) 0 = false) by (apply Qeq_bool_false; lra).
  assert (Hl : ltb 0 (position e) = true) by (now apply ltb_true).
  assert (Hr : Qle_bool (position e) (position e) = true)
    by (apply Qle_bool_iff; lra).
  apply Qeq_bool_false in He.
  rewrite Hn, Hl, Hs, Hr, He, andb_false_r. reflexivity.
Qed.

Lemma bar_step_long_hold (df : DataFrame) (strategy_func : Strategy)
    (i : nat) (row : Bar) (e : Engine) :
  well_formed df ->
  0 < position e -> (strategy_func df i =? -1)%Z = false ->
  bar_step df strategy_func i row e =
    (recorded (open_time row) (close row) e, inr tt).
Proof.
  intros [Hc Ht] Hq Hs.
  rewrite bar_step_eq by assumption. cbv zeta. set (p := close row).
  assert (Hn : Qeq_bool (position e) 0 = false) by (apply Qeq_bool_false; lra).
  rewrite Hn, Hs, andb_false_r. reflexivity.
Qed.


(** ** Commission monotonicity *)

Lemma affordable_le (c1 c2 : Q) : c1 <= c2 -> affordable c2 -> affordable c1.
Proof. unfold affordable. intros. lra. Qed.

Lemma bar_step_dominated (df : DataFrame) (strategy_func : Strategy) (i : nat)
    (row : Bar) (c1 c2 : Q) (e1 e2 : Engine) :
  well_formed df -> 0 < close row -> c1 <= c2 -> affordable c2 ->
  dominated c1 c2 e1 e2 ->
  exists e1' e2',
    bar_step df strategy_func i row e1 = (e1', inr tt) /\
    bar_step df strategy_func i row e2 = (e2', inr tt) /\
    dominated c1 c2 e1' e2'.
Proof.
  intros Hwf Hp Hc Haff2 (Hc1 & Hc2 & [Hflat|Hlong]).
  - destruct Hflat as (Hq1 & Hq2 & Hb2 & Hb).
    destruct (strategy_func df i =? 1)%Z eqn:Hs.
    + assert (Haff1 : affordable c1) by (eapply affordable_le; eassumption).
      rewrite (bar_step_flat_buy df strategy_func i row e1 Hwf Hp), 
              (bar_step_flat_buy df strategy_func i row e2 Hwf Hp);
        try assumption; try lra; try (rewrite ?Hc1, ?Hc2; assumption).
      do 2 eexists. split; [reflexivity|]. split; [reflexivity|].
      unfold dominated, flat_pair, long_pair, affordable in *. cbn.
      rewrite Hc1, Hc2.
      split; [reflexivity|]. split; [reflexivity|]. right.
      assert (Hp0 : ~ close row == 0) by lra.
      pose proof (quotient_spec (balance e1) (close row) Hp0) as Hd1.
      pose proof (quotient_spec (balance e2) (close row) Hp0) as Hd2.
      set (d1 := balance e1 / close row) in *.
      set (d2 := balance e2 / close row) in *.
      assert (H0d2 : 0 < d2) by nra.
      assert (Hd21 : d2 <= d1) by nra.
      set (f1 := 0.95 * (1 + c1)) in *.
      set (f2 := 0.95 * (1 + c2)) in *.
      assert (Hf : f1 <= f2) by (subst f1 f2; lra).
      assert (Hk1 : d1 * 0.95 * close row * (1 + c1) == balance e1 * f1)
        by (subst f1; rewrite <- Hd1; ring).
      assert (Hk2 : d2 * 0.95 * close row * (1 + c2) == balance e2 * f2)
        by (subst f2; rewrite <- Hd2; ring).
      rewrite Hk1, Hk2.
      assert (Hm : balance e2 * (1 - f2) <= balance e1 * (1 - f1)) by nra.
      repeat split; try lra; try nra.
    + rewrite (bar_step_flat_hold df strategy_func i row e1 Hwf), 
              (bar_step_flat_hold df strategy_func i row e2 Hwf);
        try assumption.
      do 2 eexists. split; [reflexivity|]. split; [reflexivity|].
      unfold dominated, flat_pair. cbn. auto 10.
  - destruct Hlong as (Hq2 & Hq & Hb2 & Hb & He1 & He2).
    assert (Hq1 : 0 < position e1) by lra.
    destruct (strategy_func df i =? -1)%Z eqn:Hs.
    + rewrite (bar_step_long_sell df strategy_func i row e1 Hwf), 
              (bar_step_long_sell df strategy_func i row e2 Hwf);
        try assumption.
      do 2 eexists. split; [reflexivity|]. split; [reflexivity|].
      unfold dominated, flat_pair, long_pair, affordable in *. cbn.
      rewrite Hc1, Hc2.
      split; [reflexivity|]. split; [reflexivity|]. left.
      assert (Hr2 : 0 < position e2 * close row * (1 - c2))
        by (apply Qmult_lt_0_compat; [apply Qmult_lt_0_compat|]; lra).
      assert (Hr : position e2 * close row * (1 - c2)
                   <= position e1 * close row * (1 - c1)).
      { assert (Ha : position e2 * close row <= position e1 * close row) by nra.
        assert (Hb' : 0 < position e2 * close row)
          by (apply Qmult_lt_0_compat; lra).
        set (x2 := position e2 * close row) in *.
        set (x1 := position e1 * close row) in *.
        nra. }
      repeat split; lra.
    + rewrite (bar_step_long_hold df strategy_func i row e1 Hwf), 
              (bar_step_long_hold df strategy_func i row e2 Hwf);
        try assumption.
      do 2 eexists. split; [reflexivity|]. split; [reflexivity|].
      unfold dominated, long_pair. cbn. auto 10.
Qed.

Lemma bar_step_idle (df : DataFrame) (strategy_func : Strategy) (i : nat)
    (row : Bar) (c1 c2 : Q) (e1 e2 : Engine) :
  well_formed df -> 0 < close row -> c1 <= c2 -> ~ affordable c1 ->
  idle_pair c1 c2 e1 e2 ->
  exists e1' e2',
    bar_step df strategy_func i row e1 = (e1', inr tt) /\
    bar_step df strategy_func i row e2 = (e2', inr tt) /\
    idle_pair c1 c2 e1' e2'.
Proof.
  intros Hwf Hp Hc Hn1 (Hc1 & Hc2 & Hq1 & Hq2 & Hb & Hb1).
  assert (Hn2 : ~ affordable c2).
  { intro H. apply Hn1. eapply affordable_le; eassumption. }
  rewrite (bar_step_flat_buy_rejected df strategy_func i row e1 Hwf Hp),
          (bar_step_flat_buy_rejected df strategy_func i row e2 Hwf Hp);
    try assumption; try (rewrite ?Hc1, ?Hc2; assumption);
    try (rewrite <- Hb; assumption).
  do 2 eexists. split; [reflexivity|]. split; [reflexivity|].
  unfold idle_pair. cbn. auto 10.
Qed.

(** Two runs over the same rows stay related when one bar keeps them so. *)
Lemma iterrows_pair (R : Engine -> Engine -> Prop) (df : DataFrame)
    (strategy_func : Strategy) :
  (forall i row e1 e2, 0 < close row -> R e1 e2 ->
     exists e1' e2',
       bar_step df strategy_func i row e1 = (e1', inr tt) /\
       bar_step df strategy_func i row e2 = (e2', inr tt) /\
       R e1' e2') ->
  forall (rs : list Bar) (i : nat) (e1 e2 : Engine),
    positive_closes rs -> R e1 e2 ->
    exists e1' e2',
      iterrows df strategy_func i rs e1 = (e1', inr tt) /\
      iterrows df strategy_func i rs e2 = (e2', inr tt) /\
      R e1' e2'.
Proof.
  intros Hstep. induction rs as [|row rs IH]; intros i e1 e2 Hpos HR.
  - exists e1, e2. repeat split; assumption.
  - destruct (Hstep i row e1 e2) as (a1 & a2 & Hs1 & Hs2 & HR');
      [apply Hpos; now left|assumption|].
    destruct (IH (S i) a1 a2) as (e1' & e2' & Hr1 & Hr2 & HR'');
      [intros r Hr; apply Hpos; now right|assumption|].
    exists e1', e2'. rewrite !iterrows_cons, Hs1, Hs2. auto.
Qed.

(** C2 (commission monotonicity), as the code has it.  Over bars with
    positive closes, from the same positive initial balance and with the
    same signals, commissions [c1 <= c2] give a final balance under [c2]
    that is not above the one under [c1], provided the two commissions lie
    on the same side of the affordability threshold of the sized order:
    either [0.95 * (1 + c2) <= 1], or [0.95 * (1 + c1) > 1]. *)
Theorem C2_commission_monotone_same_regime (df : DataFrame)
    (strategy_func : Strategy) (b c1 c2 : Q) :
  well_formed df -> positive_closes (rows df) -> 0 < b ->
  0 <= c1 -> c1 < c2 ->
  affordable c2 \/ ~ affordable c1 ->
  exists e1 e2,
    run_backtest df strategy_func (fresh b c1) = (e1, inr tt) /\
    run_backtest df strategy_func (fresh b c2) = (e2, inr tt) /\
    balance e2 <= balance e1.
Proof.
  intros Hwf Hpos Hb _ Hlt [Haff|Hnaff]; unfold run_backtest.
  - destruct (iterrows_pair (dominated c1 c2) df strategy_func) with
      (rs := rows df) (i := 0%nat) (e1 := fresh b c1) (e2 := fresh b c2)
      as (e1 & e2 & H1 & H2 & HR); trivial.
    + intros i row a1 a2 Hp HR.
      apply bar_step_dominated; trivial. lra.
    + unfold dominated, flat_pair. cbn. repeat split; trivial.
      left. repeat split; lra.
    + exists e1, e2. repeat split; trivial.
      destruct HR as (_ & _ & [HR|HR]); unfold flat_pair, long_pair in HR; tauto.
  - destruct (iterrows_pair (idle_pair c1 c2) df strategy_func) with
      (rs := rows df) (i := 0%nat) (e1 := fresh b c1) (e2 := fresh b c2)
      as (e1 & e2 & H1 & H2 & HR); trivial.
    + intros i row a1 a2 Hp HR.
      apply bar_step_idle; trivial. lra.
    + unfold idle_pair. cbn. repeat split; trivial; lra.
    + exists e1, e2. repeat split; trivial.
      destruct HR as (_ & _ & _ & _ & HR & _). rewrite HR. lra.
Qed.

Lemma C2_commission_monotone_same_regime_witness :
  exists e1 e2,
    run_backtest scenario_frame scenario_signals (fresh 10000 0.001) = (e1, inr tt) /\
    run_backtest scenario_frame scenario_signals (fresh 10000 0.01) = (e2, inr tt) /\
    balance e2 <= balance e1.
Proof.
  apply (C2_commission_monotone_same_regime
           scenario_frame scenario_signals 10000 0.001 0.01).
  - split; reflexivity.
  - intros row Hin. cbn in Hin.
    repeat (destruct Hin as [Hin|Hin]; [subst row; reflexivity|]).
    destruct Hin.
  - reflexivity.
  - discriminate.
  - reflexivity.
  - left. discriminate.
Defined.

(** C2 as stated fails: with one bar at 100 and a buy signal, commission 0
    buys (cash 500 is left) while commission 0.1 makes the sized order
    unaffordable, so nothing is bought and all 10000 of cash is kept. *)
Lemma C2_counterexample :
  0 <= 0 /\ 0 < 0.1 /\ 0.1 < 1 /\
  exists e1 e2,
    run_backtest (frame_of [100]) (signals [1%Z]) (fresh 10000 0) = (e1, inr tt) /\
    run_backtest (frame_of [100]) (signals [1%Z]) (fresh 10000 0.1) = (e2, inr tt) /\
    balance e1 == 500 /\ balance e2 == 10000 /\
    ~ balance e2 <= balance e1.
Proof.
  repeat (split; [vm_compute; congruence|]).
  do 2 eexists.
  split; [vm_compute; reflexivity|].
  split; [vm_compute; reflexivity|].
  split; [vm_compute; reflexivity|].
  split; [vm_compute; reflexivity|].
  vm_compute. intro H. apply H. reflexivity.
Qed.

(** ** Input validation *)

(** C3 as stated fails: a negative initial balance with commission 2 builds
    an engine; an empty series runs to its end without an error; a series
    whose timestamps go backwards is simulated like any other, trades and
    equity points included. *)
Lemma C3_counterexample :
  (exists e, __init__ (-1) 2 = inr e /\ balance e = -1 /\ commission e = 2) /\
  run_backtest (mkFrame true true []) scenario_signals scenario_engine
    = (scenario_engine, inr tt) /\
  (exists e',
     run_backtest backwards_frame (signals [1; -1]%Z) scenario_engine
       = (e', inr tt) /\
     length (trades e') = 2%nat /\ length (equity_curve e') = 2%nat /\
     map timestamp (equity_curve e') = [86400; 0]%Z).
Proof.
  split; [eexists; repeat split|].
  split; [reflexivity|].
  eexists. split; [vm_compute; reflexivity|].
  repeat split.
Qed.

(** C3, as the code has it.  Nothing is validated before the simulation:
    (1) construction succeeds for every initial balance and commission;
    (2) over an empty series [run_backtest] returns normally with the engine
        unchanged;
    (3) over a non-empty series that lacks the ['close'] or the ['open_time']
        column it raises [KeyError] at the first bar with the engine
        unchanged;
    (4) timestamps are not inspected: every series with both columns and
        positive closes, run from a positive balance, completes with one
        equity point per bar. *)
Theorem C3_no_validation_before_simulation :
  (forall b c, __init__ b c = inr (fresh b c)) /\
  (forall df strategy_func e,
      rows df = [] -> run_backtest df strategy_func e = (e, inr tt)) /\
  (forall df strategy_func e,
      rows df <> [] -> has_close df = false \/ has_open_time df = false ->
      run_backtest df strategy_func e = (e, inl KeyError)) /\
  (forall df strategy_func b c,
      well_formed df -> positive_closes (rows df) -> 0 < b ->
      exists e',
        run_backtest df strategy_func (fresh b c) = (e', inr tt) /\
        length (equity_curve e') = length (rows df)).
Proof.
  split; [reflexivity|]. split; [|split].
  - intros df s e H. unfold run_backtest. rewrite H. reflexivity.
  - intros df s e Hne Hcol. unfold run_backtest.
    destruct (rows df) as [|row rs]; [congruence|].
    rewrite iterrows_cons, bar_step_missing_column by assumption. reflexivity.
  - intros df s b c Hwf Hpos Hb.
    destruct (iterrows_healthy df s Hwf (rows df) 0 (fresh b c) Hpos
                (fresh_healthy b c Hb)) as (e' & Hrun & _).
    exists e'. split; [exact Hrun|].
    destruct (iterrows_trace _ _ _ _ _ _ _ Hrun) as (pts & Heq & Hlen & _).
    rewrite Heq. exact (Hlen tt eq_refl).
Qed.

Lemma C3_no_validation_before_simulation_witness :
  run_backtest closeless_frame scenario_signals scenario_engine
    = (scenario_engine, inl KeyError) /\
  exists e',
    run_backtest backwards_frame scenario_signals (fresh 10000 0) = (e', inr tt) /\
    length (equity_curve e') = length (rows backwards_frame).
Proof.
  destruct C3_no_validation_before_simulation as (_ & _ & Hkey & Hrun).
  split.
  - apply Hkey; [discriminate|now left].
  - apply Hrun.
    + split; reflexivity.
    + intros row Hin. cbn in Hin.
      repeat (destruct Hin as [Hin|Hin]; [subst row; reflexivity|]).
      destruct Hin.
    + reflexivity.
Defined.
(** * Properties of the analytics *)

(** ** [idxmax]: the first maximum *)

Lemma argmax_from_spec :
  forall (qs : list Q) (i : nat) (best : nat * Q),
    let r := argmax_from i best qs in
    (forall k, (k < length qs)%nat -> nth k qs 0 <= snd r) /\
    snd best <= snd r /\
    (r = best \/
     exists k, (k < length qs)%nat /\ fst r = (i + k)%nat /\
               snd r = nth k qs 0 /\ snd best < snd r /\
               forall j, (j < k)%nat -> nth j qs 0 < snd r).
Proof.
  induction qs as [|q qs IH]; intros i best; cbn zeta.
  - cbn. repeat split; try lra; auto. intros k Hk. lia.
  - cbn [argmax_from].
    specialize (IH (S i) (if ltb (snd best) q then (i, q) else best)).
    cbn zeta in IH. destruct IH as (Hall & Hge & Hcase).
    set (r := argmax_from (S i) (if ltb (snd best) q then (i, q) else best) qs) in *.
    destruct (ltb (snd best) q) eqn:Hlt; reflect_tests; cbn [snd fst] in *.
    + split; [|split].
      * intros [|k] Hk; cbn in *; [assumption|apply Hall; lia].
      * lra.
      * right. destruct Hcase as [Heq|(k & Hk & Hi & Hv & Hs & Hbefore)].
        -- exists 0%nat. rewrite Heq. cbn. repeat split; try lia; try lra.
        -- exists (S k). cbn. repeat split; try lia; try lra; trivial.
           intros [|j] Hj; [lra|apply Hbefore; lia].
    + split; [|split].
      * intros [|k] Hk; cbn in *; [lra|apply Hall; lia].
      * assumption.
      * destruct Hcase as [Heq|(k & Hk & Hi & Hv & Hs & Hbefore)].
        -- now left.
        -- right. exists (S k). cbn. repeat split; try lia; try lra; trivial.
           intros [|j] Hj; [lra|apply Hbefore; lia].
Qed.

(** [idxmax] fails exactly on the empty series; otherwise it names a position
    whose value no other exceeds and which every earlier value is strictly
    below. *)
Lemma idxmax_spec (qs : list Q) (m : nat) :
  idxmax qs = Some m ->
  (m < length qs)%nat /\
  (forall j, (j < length qs)%nat -> nth j qs 0 <= nth m qs 0) /\
  (forall j, (j < m)%nat -> nth j qs 0 < nth m qs 0).
Proof.
  destruct qs as [|q qs]; [discriminate|]. cbn [idxmax]. intro H.
  inversion H as [Hm]; clear H.
  destruct (argmax_from_spec qs 1 (0%nat, q)) as (Hall & Hge & Hcase).
  cbn [snd fst] in *.
  destruct Hcase as [Heq|(k & Hk & Hi & Hv & Hs & Hbefore)].
  - rewrite Heq in *. cbn [fst snd] in *. cbn. split; [lia|]. split.
    + intros [|j] Hj; [lra|]. apply Hall. cbn in Hj. lia.
    + intros j Hj; lia.
  - rewrite Hi. cbn. rewrite <- Hv. split; [lia|]. split.
    + intros [|j] Hj; [lra|]. apply Hall. cbn in Hj. lia.
    + intros [|j] Hj; [lra|]. apply Hbefore. lia.
Qed.

Lemma idxmax_none (qs : list Q) : idxmax qs = None <-> qs = [].
Proof. destruct qs; cbn; split; congruence. Qed.

(** ** The order on pandas floats and [idxmin] *)

Ltac xorder :=
  intros;
  repeat match goal with x : xnum |- _ => destruct x end;
  cbn in *; try congruence;
  repeat match goal with
    | |- ltb _ _ = true => apply ltb_true
    | |- ltb _ _ = false => apply ltb_false
    end;
  reflect_tests; try lra.

Lemma xltb_irrefl (x : xnum) : xltb x x = false.
Proof. xorder. Qed.

Lemma xltb_trans (x y z : xnum) :
  xltb x y = true -> xltb y z = true -> xltb x z = true.
Proof. xorder. Qed.

Lemma xltb_lt_le (x y z : xnum) :
  xltb x y = true -> xltb z y = false -> is_nan z = false -> xltb x z = true.
Proof. xorder. Qed.

Lemma xltb_le_le (x y z : xnum) :
  xltb x y = false -> xltb y z = false -> is_nan y = false ->
  xltb x z = false.
Proof. xorder. Qed.

Lemma xltb_asym (x y : xnum) : xltb x y = true -> xltb y x = false.
Proof. xorder. Qed.

Lemma argmin_from_spec :
  forall (xs : list xnum) (i : nat) (best : option (nat * xnum)),
    (forall bi bv, best = Some (bi, bv) -> is_nan bv = false) ->
    match argmin_from i best xs with
    | None => best = None /\ forall j, is_nan (nth j xs NaN) = true
    | Some (k, v) =>
        is_nan v = false /\
        (forall j, xltb (nth j xs NaN) v = false) /\
        (forall bi bv, best = Some (bi, bv) -> xltb bv v = false) /\
        (best = Some (k, v) \/
         exists j, (j < length xs)%nat /\ k = (i + j)%nat /\
                   nth j xs NaN = v /\
                   (forall bi bv, best = Some (bi, bv) -> xltb v bv = true) /\
                   forall j', (j' < j)%nat ->
                     is_nan (nth j' xs NaN) = true \/
                     xltb v (nth j' xs NaN) = true)
    end.
Proof.
  induction xs as [|x xs IH]; intros i best Hbest.
  - cbn [argmin_from]. destruct best as [[bi bv]|].
    + pose proof (Hbest _ _ eq_refl) as Hn. repeat split.
      * exact Hn.
      * intros [|j]; cbn; destruct bv; reflexivity.
      * intros ? ? E. inversion E; subst. apply xltb_irrefl.
      * now left.
    + split; [reflexivity|]. intros [|j]; reflexivity.
  - cbn [argmin_from].
    set (best' := if is_nan x then best
                  else match best with
                       | None => Some (i, x)
                       | Some (_, b) => if xltb x b then Some (i, x) else best
                       end).
    assert (Hbest' : forall bi bv, best' = Some (bi, bv) -> is_nan bv = false).
    { subst best'. intros bi bv. destruct (is_nan x) eqn:Hx; [apply Hbest|].
      destruct best as [[ci cv]|].
      - destruct (xltb x cv); [|apply Hbest].
        intro E; inversion E; subst; exact Hx.
      - intro E; inversion E; subst; exact Hx. }
    specialize (IH (S i) best' Hbest').
    destruct (argmin_from (S i) best' xs) as [[k v]|].
    + destruct IH as (Hv & Hall & Hb & Hcase).
      destruct (is_nan x) eqn:Hx; subst best'.
      * (* a NaN entry is skipped *)
        split; [exact Hv|]. split; [|split; [exact Hb|]].
        -- intros [|j]; [destruct x; try discriminate; reflexivity|apply Hall].
        -- destruct Hcase as [E|(j & Hj & Hk & Hnth & Hlt & Hearly)];
             [now left|right].
           exists (S j). cbn [length nth].
           split; [lia|]. split; [lia|]. split; [exact Hnth|].
           split; [exact Hlt|].
           intros [|j'] Hj'; [left; exact Hx|apply Hearly; lia].
      * destruct best as [[bi bv]|].
        -- pose proof (Hbest _ _ eq_refl) as Hbv.
           destruct (xltb x bv) eqn:Hxb.
           ++ (* the entry becomes the best *)
              pose proof (Hb _ _ eq_refl) as Hxv.
              split; [exact Hv|]. split; [|split].
              ** intros [|j]; [exact Hxv|apply Hall].
              ** intros ? ? E. inversion E; subst.
                 destruct (xltb bv0 v) eqn:Hc; trivial.
                 rewrite (xltb_trans _ _ _ Hxb Hc) in Hxv. discriminate.
              ** right.
                 destruct Hcase as [E|(j & Hj & Hk & Hnth & Hlt & Hearly)].
                 --- inversion E; subst. exists 0%nat. cbn [length nth].
                     split; [lia|]. split; [lia|]. split; [reflexivity|]. split.
                     +++ intros ? ? E'. inversion E'; subst. exact Hxb.
                     +++ intros j' Hj'. lia.
                 --- pose proof (Hlt _ _ eq_refl) as Hvx.
                     exists (S j). cbn [length nth].
                     split; [lia|]. split; [lia|]. split; [exact Hnth|]. split.
                     +++ intros ? ? E'. inversion E'; subst.
                         exact (xltb_trans _ _ _ Hvx Hxb).
                     +++ intros [|j'] Hj'; [right; exact Hvx|apply Hearly; lia].
           ++ (* the best stays *)
              pose proof (Hb _ _ eq_refl) as Hbvv.
              split; [exact Hv|]. split; [|split; [exact Hb|]].
              ** intros [|j]; [|apply Hall]. cbn [nth].
                 exact (xltb_le_le _ _ _ Hxb Hbvv Hbv).
              ** destruct Hcase as [E|(j & Hj & Hk & Hnth & Hlt & Hearly)];
                   [now left|right].
                 pose proof (Hlt _ _ eq_refl) as Hvb.
                 exists (S j). cbn [length nth].
                 split; [lia|]. split; [lia|]. split; [exact Hnth|].
                 split; [exact Hlt|].
                 intros [|j'] Hj'; [|apply Hearly; lia].
                 right. exact (xltb_lt_le _ _ _ Hvb Hxb Hx).
        -- (* the first non-NaN entry *)
           pose proof (Hb _ _ eq_refl) as Hxv.
           split; [exact Hv|]. split; [|split; [intros ? ? E; discriminate|]].
           ++ intros [|j]; [exact Hxv|apply Hall].
           ++ right.
              destruct Hcase as [E|(j & Hj & Hk & Hnth & Hlt & Hearly)].
              ** inversion E; subst. exists 0%nat. cbn [length nth].
                 split; [lia|]. split; [lia|]. split; [reflexivity|].
                 split; [discriminate|].
                 intros j' Hj'. lia.
              ** pose proof (Hlt _ _ eq_refl) as Hvx.
                 exists (S j). cbn [length nth].
                 split; [lia|]. split; [lia|]. split; [exact Hnth|].
                 split; [discriminate|].
                 intros [|j'] Hj'; [right; exact Hvx|apply Hearly; lia].
    + destruct IH as (Hnone & Hall).
      destruct (is_nan x) eqn:Hx; subst best'.
      * split; [exact Hnone|]. intros [|j]; [exact Hx|apply Hall].
      * destruct best as [[bi bv]|]; [destruct (xltb x bv)|]; discriminate.
Qed.

(** [idxmin] names the first position holding the minimum of the non-NaN
    entries, and [series_min] is the value there. *)
Lemma idxmin_spec (xs : list xnum) (t : nat) :
  idxmin xs = Some t ->
  (t < length xs)%nat /\
  nth t xs NaN = series_min xs /\
  is_nan (series_min xs) = false /\
  (forall j, xltb (nth j xs NaN) (series_min xs) = false) /\
  (forall j, (j < t)%nat ->
     is_nan (nth j xs NaN) = true \/ xltb (series_min xs) (nth j xs NaN) = true).
Proof.
  unfold idxmin, series_min. intro H.
  assert (S := argmin_from_spec xs 0 None).
  destruct (argmin_from 0 None xs) as [[k v]|]; [|discriminate].
  cbn in H. inversion H; subst k; clear H.
  destruct S as (Hv & Hall & _ & [E|(j & Hj & Hk & Hnth & _ & Hearly)]);
    [intros; discriminate|discriminate|].
  cbn in Hk. subst j. auto.
Qed.

Lemma length_expanding_max_from (vs : list Q) :
  forall m, length (expanding_max_from m vs) = length vs.
Proof.
  induction vs as [|v vs IH]; intro m; cbn; [reflexivity|].
  now rewrite IH.
Qed.

Lemma length_expanding_max (vs : list Q) :
  length (expanding_max vs) = length vs.
Proof.
  destruct vs as [|v vs]; cbn; [reflexivity|].
  now rewrite length_expanding_max_from.
Qed.

Lemma length_drawdown_series (vs : list Q) :
  length (drawdown_series vs) = length vs.
Proof.
  unfold drawdown_series.
  rewrite length_map, length_combine, length_expanding_max. lia.
Qed.

(** ** The start of the maximum drawdown *)

(** C4, as the code has it.  When the trough (the first position of the
    minimum drawdown) is not the first point, [calculate_max_drawdown]
    returns the minimum drawdown, its percentage, and two timestamps: the end
    is the one at the trough; the start is the one at the earliest position
    before the trough where the running peak reaches its maximum over the
    positions before the trough (every earlier peak is strictly lower). *)
Theorem C4_drawdown_start_is_earliest_peak (equity_df : list EquityPoint)
    (t : nat) :
  let vs := map portfolio_value equity_df in
  let peak := expanding_max vs in
  let drawdown := drawdown_series vs in
  idxmin drawdown = Some t -> (0 < t)%nat ->
  exists s start_date end_date,
    calculate_max_drawdown equity_df =
      inr (series_min drawdown, xscale (series_min drawdown) 100,
           Some start_date, Some end_date) /\
    drawdown_labels vs = inr (s, t) /\
    nth_error (map timestamp equity_df) s = Some start_date /\
    nth_error (map timestamp equity_df) t = Some end_date /\
    nth t drawdown NaN = series_min drawdown /\
    (s < t)%nat /\
    (forall j, (j < t)%nat -> nth j peak 0 <= nth s peak 0) /\
    (forall j, (j < s)%nat -> nth j peak 0 < nth s peak 0).
Proof.
  intros vs peak drawdown Hmin Ht.
  destruct (idxmin_spec _ _ Hmin) as (Hlen & Hval & _).
  unfold drawdown in Hlen. rewrite length_drawdown_series in Hlen.
  assert (Hpk : length (firstn t peak) = t).
  { rewrite length_firstn. unfold peak. rewrite length_expanding_max. lia. }
  destruct (idxmax (firstn t peak)) as [s|] eqn:Hmax.
  2:{ apply idxmax_none in Hmax. rewrite Hmax in Hpk. cbn in Hpk. lia. }
  destruct (idxmax_spec _ _ Hmax) as (Hs & Hall & Hfirst).
  rewrite Hpk in Hs, Hall.
  assert (Hnth : forall j, (j < t)%nat -> nth j (firstn t peak) 0 = nth j peak 0).
  { intros j Hj. rewrite nth_firstn.
    destruct (Nat.ltb_spec j t); [reflexivity|lia]. }
  assert (Hlab : drawdown_labels vs = inr (s, t)).
  { unfold drawdown_labels. fold drawdown peak. now rewrite Hmin, Hmax. }
  unfold vs in Hlen. rewrite length_map in Hlen.
  destruct (nth_error equity_df s) as [ps|] eqn:Es;
    [|apply nth_error_None in Es; lia].
  destruct (nth_error equity_df t) as [pt|] eqn:Et;
    [|apply nth_error_None in Et; lia].
  exists s, (timestamp ps), (timestamp pt). repeat split; trivial.
  - unfold calculate_max_drawdown. fold vs drawdown.
    destruct equity_df as [|p0 rest]; [cbn in Hlen; lia|]. cbn [is_empty].
    rewrite Hlab. unfold timestamp_at. now rewrite Es, Et.
  - now rewrite nth_error_map, Es.
  - now rewrite nth_error_map, Et.
  - intros j Hj. rewrite <- (Hnth j Hj), <- (Hnth s Hs). now apply Hall.
  - intros j Hj. rewrite <- (Hnth j), <- (Hnth s Hs) by lia. now apply Hfirst.
Qed.

Lemma C4_drawdown_start_is_earliest_peak_witness :
  exists s start_date end_date,
    calculate_max_drawdown (curve_of [100; 90; 80; 95]) =
      inr (series_min (drawdown_series [100; 90; 80; 95]),
           xscale (series_min (drawdown_series [100; 90; 80; 95])) 100,
           Some start_date, Some end_date) /\
    drawdown_labels [100; 90; 80; 95] = inr (s, 2%nat) /\
    nth_error (map timestamp (curve_of [100; 90; 80; 95])) s = Some start_date /\
    nth_error (map timestamp (curve_of [100; 90; 80; 95])) 2 = Some end_date /\
    nth 2 (drawdown_series [100; 90; 80; 95]) NaN =
      series_min (drawdown_series [100; 90; 80; 95]) /\
    (s < 2)%nat /\
    (forall j, (j < 2)%nat ->
       nth j (expanding_max [100; 90; 80; 95]) 0
       <= nth s (expanding_max [100; 90; 80; 95]) 0) /\
    (forall j, (j < s)%nat ->
       nth j (expanding_max [100; 90; 80; 95]) 0
       < nth s (expanding_max [100; 90; 80; 95]) 0).
Proof.
  apply (C4_drawdown_start_is_earliest_peak (curve_of [100; 90; 80; 95]) 2).
  - reflexivity.
  - lia.
Defined.

(** C4 as stated fails on the curve [100, 90, 80, 95]: the trough is at
    position 2 and the running peak is 100 at positions 0, 1 and 2; the start
    returned is position 0, the earliest of them, not the latest. *)
Lemma C4_counterexample :
  drawdown_labels [100; 90; 80; 95] = inr (0%nat, 2%nat) /\
  (exists dd pct,
     calculate_max_drawdown (curve_of [100; 90; 80; 95]) =
       inr (Fin dd, Fin pct, Some 0%Z, Some (2 * 86400)%Z) /\
     dd == -0.2 /\ pct == -20) /\
  expanding_max [100; 90; 80; 95] = [100; 100; 100; 100] /\
  (0 < 2)%nat /\
  nth 2 (expanding_max [100; 90; 80; 95]) 0
    = nth 0 (expanding_max [100; 90; 80; 95]) 0.
Proof.
  split; [reflexivity|]. split.
  - do 2 eexists. split; [vm_compute; reflexivity|]. split; reflexivity.
  - repeat split. lia.
Qed.

(** ** The maximum drawdown on sample curves *)

Lemma max_drawdown_empty :
  calculate_max_drawdown [] = inr (Fin 0, Fin 0, None, None).
Proof. reflexivity. Qed.

Lemma max_drawdown_example :
  exists dd pct,
    calculate_max_drawdown (curve_of [100; 90; 80; 95]) =
      inr (Fin dd, Fin pct, timestamp_at (curve_of [100; 90; 80; 95]) 0,
           timestamp_at (curve_of [100; 90; 80; 95]) 2) /\
    dd == -0.2 /\ pct == -20 /\
    drawdown_labels [100; 90; 80; 95] = inr (0%nat, 2%nat).
Proof.
  do 2 eexists. split; [vm_compute; reflexivity|]. repeat split.
Qed.

(** When the trough is the first point (the first position of the minimum
    drawdown is 0), the slice [peak[:max_dd_idx]] is empty and [idxmax]
    raises. *)
Lemma max_drawdown_trough_first (equity_df : list EquityPoint) :
  idxmin (drawdown_series (map portfolio_value equity_df)) = Some 0%nat ->
  calculate_max_drawdown equity_df = inl ValueError.
Proof.
  intro H.
  unfold calculate_max_drawdown, drawdown_labels. rewrite H. cbn [firstn idxmax].
  destruct equity_df; [discriminate|reflexivity].
Qed.

Lemma max_drawdown_rising_curve :
  calculate_max_drawdown (curve_of [100; 110]) = inl ValueError /\
  calculate_max_drawdown (curve_of [100]) = inl ValueError /\
  calculate_max_drawdown (curve_of [100; 100; 100]) = inl ValueError /\
  exists z, series_min (drawdown_series [100; 110]) = Fin z /\ z == 0.
Proof.
  repeat split. eexists. split; [vm_compute; reflexivity|reflexivity].
Qed.

(** ** Sharpe and Sortino on degenerate curves *)

Lemma sharpe_sortino_short_curve (equity_df : list EquityPoint) (rf : Q) :
  (length equity_df < 2)%nat ->
  calculate_sharpe_ratio equity_df rf = Lit0 /\
  calculate_sortino_ratio equity_df rf = Lit0.
Proof.
  intro H. unfold calculate_sharpe_ratio, calculate_sortino_ratio.
  apply Nat.ltb_lt in H. rewrite H, orb_true_r. split; reflexivity.
Qed.

Lemma sharpe_sortino_constant_three :
  calculate_sharpe_ratio (curve_of [100; 100; 100]) 0.02 = Lit0 /\
  calculate_sortino_ratio (curve_of [100; 100; 100]) 0.02 = Lit0.
Proof. split; reflexivity. Qed.

(** C7 at the inputs where the code departs from it.  On a constant equity
    curve of exactly two points there is one return, whose sample deviation
    ([ddof = 1]) is NaN; the test [std() == 0] is false on NaN, so the
    quotient is computed and is NaN, for the Sharpe ratio under every
    risk-free rate and for the Sortino ratio under every positive one. *)
Theorem C7_two_point_constant_curve_gives_nan (t0 t1 : Z) (v p0 p1 rf : Q) :
  ~ v == 0 ->
  calculate_sharpe_ratio [mkPoint t0 v p0; mkPoint t1 v p1] rf = SNaN /\
  (0 < rf ->
   calculate_sortino_ratio [mkPoint t0 v p0; mkPoint t1 v p1] rf = SNaN).
Proof.
  intro Hv.
  assert (Hz : Qeq_bool v 0 = false) by (now apply Qeq_bool_false).
  unfold calculate_sharpe_ratio, calculate_sortino_ratio, returns_column.
  cbn [is_empty length Nat.ltb Nat.leb orb map portfolio_value pct_change
       pct_change_from].
  unfold xdiv. rewrite Hz. cbn [xsub dropna filter is_nan negb length Nat.eqb map].
  split; [reflexivity|].
  intro Hrf.
  assert (Hneg : ltb (v / v - 1 - rf / 252) 0 = true).
  { apply ltb_true.
    assert (E : v / v - 1 - rf / 252 == - (rf * (1 # 252))) by (field; exact Hv).
    rewrite E. lra. }
  cbn [xltb]. rewrite Hneg. reflexivity.
Qed.

Lemma C7_two_point_constant_curve_gives_nan_witness :
  calculate_sharpe_ratio (curve_of [100; 100]) 0.02 = SNaN /\
  (0 < 0.02 -> calculate_sortino_ratio (curve_of [100; 100]) 0.02 = SNaN).
Proof.
  apply (C7_two_point_constant_curve_gives_nan 0 86400 100 1 1 0.02).
  discriminate.
Defined.

(** ** Drawdown episodes *)

Lemma scan_drawdown_runs (equity_df : list EquityPoint) (drawdown : list xnum) :
  forall (in_dd : list bool) (i : nat) (start_idx : option nat)
         (periods : list Episode),
    scan_drawdown equity_df drawdown i in_dd start_idx periods =
      periods ++ map (fun se => episode equity_df drawdown (fst se) (snd se))
                     (runs_from i in_dd start_idx).
Proof.
  induction in_dd as [|b rest IH]; intros i start_idx periods.
  - cbn. now rewrite app_nil_r.
  - cbn [scan_drawdown runs_from].
    destruct b, start_idx as [s|]; rewrite IH; cbn [map fst snd];
      rewrite <- ?app_assoc; reflexivity.
Qed.

Lemma skipn_cons_nth {A} (l : list A) (i : nat) (x d : A) (rest : list A) :
  skipn i l = x :: rest ->
  nth i l d = x /\ skipn (S i) l = rest /\ (i < length l)%nat.
Proof.
  revert i. induction l as [|y l IH]; intros i H.
  - destruct i; discriminate.
  - destruct i as [|i].
    + cbn in H. inversion H; subst. cbn. repeat split. lia.
    + cbn in H. destruct (IH _ H) as (H1 & H2 & H3).
      cbn [nth length]. repeat split; trivial. lia.
Qed.

(** The rows appended from position [i] on are the closed runs whose closing
    position is [i] or later. *)
Lemma runs_from_spec (l : list bool) :
  forall (rest : list bool) (i : nat) (start_idx : option nat),
    skipn i l = rest -> start_ok l i start_idx ->
    forall s e,
      In (s, e) (runs_from i rest start_idx) <->
      closed_run l s e /\ (i <= S e)%nat.
Proof.
  induction rest as [|b rest IH]; intros i start_idx Hskip Hst s e.
  - cbn. split; [tauto|]. intros [(_ & _ & _ & Hlen & _) Hi].
    assert (length (skipn i l) = 0%nat) by now rewrite Hskip.
    rewrite length_skipn in H. lia.
  - destruct (skipn_cons_nth l i b false rest Hskip) as (Hb & Hrest & Hlen).
    cbn [runs_from].
    destruct b, start_idx as [s0|].
    + (* in drawdown, run open *)
      rewrite (IH (S i) (Some s0) Hrest).
      * split; intros [Hc Hi]; split; trivial; try lia.
        destruct (Nat.eq_dec (S e) i); [|lia]. subst i.
        destruct Hc as (_ & _ & _ & _ & Hf). congruence.
      * destruct Hst as (H1 & H2 & H3). repeat split; trivial; try lia.
        intros j Hj. destruct (Nat.eq_dec j i); [subst; trivial|apply H2; lia].
    + (* in drawdown, run starts here *)
      rewrite (IH (S i) (Some i) Hrest).
      * split; intros [Hc Hi]; split; trivial; try lia.
        destruct (Nat.eq_dec (S e) i); [|lia]. subst i.
        destruct Hc as (_ & _ & _ & _ & Hf). congruence.
      * cbn in Hst. repeat split; trivial; try lia.
        intros j Hj. assert (j = i) by lia. subst; trivial.
    + (* not in drawdown, run closes here *)
      destruct Hst as (H1 & H2 & H3).
      cbn [In]. rewrite (IH (S i) None Hrest).
      * split.
        -- intros [E|[Hc Hi]].
           ++ inversion E; subst s e. split; [|lia].
              unfold closed_run. replace (S (i - 1)) with i by lia.
              repeat split; trivial; try lia.
              intros j Hj. apply H2. lia.
           ++ split; trivial. lia.
        -- intros [Hc Hi].
           destruct (Nat.eq_dec (S e) i) as [E|E]; [left|right; split; trivial; lia].
           subst i. replace (S e - 1)%nat with e by lia.
           f_equal. destruct Hc as (Hse & Hall & Hprev & _ & _).
           destruct (Nat.lt_trichotomy s0 s) as [L|[L|L]]; trivial.
           ++ destruct s as [|s']; [lia|].
              specialize (Hprev s' eq_refl). rewrite H2 in Hprev by lia.
              discriminate.
           ++ destruct s0 as [|s0']; [lia|].
              specialize (H3 s0' eq_refl). rewrite Hall in H3 by lia.
              discriminate.
      * cbn. intros i' Hi'. inversion Hi'; subst; trivial.
    + (* not in drawdown, no run open *)
      rewrite (IH (S i) None Hrest).
      * split; intros [Hc Hi]; split; trivial; try lia.
        destruct (Nat.eq_dec (S e) i); [|lia]. subst i.
        destruct Hc as (Hse & Hall & _ & _ & _).
        cbn in Hst. specialize (Hst e eq_refl).
        rewrite Hall in Hst by lia. discriminate.
      * cbn. intros i' Hi'. inversion Hi'; subst; trivial.
Qed.

(** The appended rows come in order, each ending before the next starts. *)
Lemma runs_from_sorted (l : list bool) :
  forall (rest : list bool) (i : nat) (start_idx : option nat),
    skipn i l = rest -> start_ok l i start_idx ->
    StronglySorted run_before (runs_from i rest start_idx).
Proof.
  induction rest as [|b rest IH]; intros i start_idx Hskip Hst.
  - constructor.
  - destruct (skipn_cons_nth l i b false rest Hskip) as (Hb & Hrest & Hlen).
    cbn [runs_from].
    destruct b, start_idx as [s0|].
    + apply IH; trivial.
      destruct Hst as (H1 & H2 & H3). repeat split; trivial; try lia.
      intros j Hj. destruct (Nat.eq_dec j i); [subst; trivial|apply H2; lia].
    + apply IH; trivial. cbn in Hst. repeat split; trivial; try lia.
      intros j Hj. assert (j = i) by lia. subst; trivial.
    + assert (Hnone : start_ok l (S i) None).
      { cbn. intros i' Hi'. inversion Hi'; subst; trivial. }
      constructor; [apply IH; trivial|].
      apply Forall_forall. intros [s e] Hin.
      apply (runs_from_spec l rest (S i) None Hrest Hnone) in Hin.
      destruct Hin as [(Hse & Hall & _) Hi].
      unfold run_before. cbn [fst snd].
      destruct (le_lt_dec s i) as [L|L]; [|lia].
      rewrite Hall in Hb by lia. discriminate.
    + apply IH; trivial. cbn. intros i' Hi'. inversion Hi'; subst; trivial.
Qed.

Lemma nth_in_drawdown_column (drawdown : list xnum) (j : nat) :
  nth j (in_drawdown_column drawdown) false =
    xltb (nth j drawdown NaN) (Fin (-0.1)).
Proof.
  unfold in_drawdown_column.
  change false with ((fun x => xltb x (Fin (-0.1))) NaN).
  apply map_nth.
Qed.

Lemma nth_iloc_slice {A} (a b j : nat) (l : list A) (d : A) :
  (j < b - a)%nat -> nth j (iloc_slice a b l) d = nth (a + j) l d.
Proof.
  intro H. unfold iloc_slice. rewrite nth_firstn.
  destruct (Nat.ltb_spec j (b - a)); [|lia]. apply nth_skipn.
Qed.

(** [series_min] of a slice whose entries are all below a finite bound is the
    value of one of its positions, and no position of the slice is below it. *)
Lemma series_min_slice (drawdown : list xnum) (s e : nat) (bound : xnum) :
  (s <= e)%nat ->
  (forall j, (s <= j <= e)%nat -> xltb (nth j drawdown NaN) bound = true) ->
  let m := series_min (iloc_slice s (e + 1) drawdown) in
  (forall j, (s <= j <= e)%nat -> xltb (nth j drawdown NaN) m = false) /\
  (exists j, (s <= j <= e)%nat /\ nth j drawdown NaN = m) /\
  xltb m bound = true.
Proof.
  intros Hse Hall m.
  set (slice := iloc_slice s (e + 1) drawdown) in *.
  assert (Hnth : forall j, (j <= e - s)%nat ->
                   nth j slice NaN = nth (s + j) drawdown NaN).
  { intros j Hj. apply nth_iloc_slice. lia. }
  destruct (idxmin slice) as [t|] eqn:Hmin.
  - destruct (idxmin_spec _ _ Hmin) as (Ht & Hval & Hn & Hle & _).
    fold m in Hval, Hn, Hle.
    assert (Htl : (t <= e - s)%nat).
    { unfold slice, iloc_slice in Ht. rewrite length_firstn in Ht. lia. }
    split; [|split].
    + intros j Hj. replace j with (s + (j - s))%nat by lia.
      rewrite <- Hnth by lia. apply Hle.
    + exists (s + t)%nat. split; [lia|]. rewrite <- Hnth by lia. exact Hval.
    + rewrite <- Hval, Hnth by lia. apply Hall. lia.
  - exfalso. unfold idxmin in Hmin.
    assert (S := argmin_from_spec slice 0 None).
    destruct (argmin_from 0 None slice) as [[k v]|]; [discriminate|].
    destruct S as (_ & Hnan); [intros; discriminate|].
    specialize (Hnan 0%nat). rewrite Hnth in Hnan by lia.
    specialize (Hall (s + 0)%nat). 
    destruct (nth (s + 0) drawdown NaN); try discriminate.
    cbn in Hall. assert (false = true) by (apply Hall; lia). discriminate.
Qed.

Lemma xltb_xlt (x y : xnum) : xltb x y = true <-> xlt x y.
Proof.
  destruct x, y; cbn; try (split; [discriminate|tauto]); try tauto.
  apply ltb_true.
Qed.

Lemma in_drawdown_column_spec (drawdown : list xnum) (j : nat) :
  nth j (in_drawdown_column drawdown) false = true <->
  in_drawdown_at drawdown j.
Proof.
  rewrite nth_in_drawdown_column, xltb_xlt. unfold in_drawdown_at, below_threshold.
  split; [|tauto]. intro H. split; trivial.
  destruct (Nat.lt_ge_cases j (length drawdown)) as [L|L]; trivial.
  rewrite nth_overflow in H by exact L. destruct H.
Qed.

Lemma closed_run_spec (drawdown : list xnum) (s e : nat) :
  closed_run (in_drawdown_column drawdown) s e <-> drawdown_run drawdown s e.
Proof.
  unfold closed_run, drawdown_run.
  assert (L : length (in_drawdown_column drawdown) = length drawdown)
    by apply length_map.
  rewrite L.
  assert (F : forall j, nth j (in_drawdown_column drawdown) false = false <->
                        ~ in_drawdown_at drawdown j).
  { intro j. rewrite <- in_drawdown_column_spec. symmetry. apply not_true_iff_false. }
  split; intros (H1 & H2 & H3 & H4 & H5);
    (split; [exact H1|split; [|split; [|split; [exact H4|]]]]).
  - intros j Hj. apply in_drawdown_column_spec, H2, Hj.
  - intros s' Hs'. apply F, H3, Hs'.
  - apply F, H5.
  - intros j Hj. apply in_drawdown_column_spec, H2, Hj.
  - intros s' Hs'. apply F, H3, Hs'.
  - apply F, H5.
Qed.

(** Each entry of the running maximum started at [m] is [m] or one of the
    values seen so far, and neither [m] nor any of those values is above it. *)
Lemma expanding_max_from_spec (vs : list Q) :
  forall m j, (j < length vs)%nat ->
    let p := nth j (expanding_max_from m vs) 0 in
    (p = m \/ exists k, (k <= j)%nat /\ nth k vs 0 = p) /\
    m <= p /\
    (forall k, (k <= j)%nat -> nth k vs 0 <= p).
Proof.
  induction vs as [|v vs IH]; intros m j Hj; [cbn in Hj; lia|].
  cbn [expanding_max_from].
  set (m' := if ltb m v then v else m).
  assert (Hm' : (m' = m \/ m' = v) /\ m <= m' /\ v <= m').
  { subst m'. destruct (ltb m v) eqn:E; reflect_tests;
      (split; [tauto|split; lra]). }
  destruct Hm' as (Hor & Hmm & Hvm).
  destruct j as [|j]; cbn [nth].
  - split; [|split; trivial].
    + destruct Hor as [E|E]; [left; exact E|right].
      exists 0%nat. split; [lia|]. cbn. now symmetry.
    + intros k Hk. assert (k = 0)%nat by lia. subst k. exact Hvm.
  - cbn [length] in Hj.
    destruct (IH m' j ltac:(lia)) as (Hin & Hle & Hall).
    set (p := nth j (expanding_max_from m' vs) 0) in *.
    split; [|split].
    + destruct Hin as [E|(k & Hk & E)].
      * destruct Hor as [E'|E']; [left; congruence|right].
        exists 0%nat. split; [lia|]. cbn. congruence.
      * right. exists (S k). split; [lia|exact E].
    + lra.
    + intros [|k] Hk; cbn [nth]; [lra|apply Hall; lia].
Qed.

Lemma expanding_max_spec (vs : list Q) (j : nat) :
  (j < length vs)%nat -> running_peak vs j (nth j (expanding_max vs) 0).
Proof.
  destruct vs as [|v vs]; intro Hj; [cbn in Hj; lia|].
  cbn [expanding_max]. destruct j as [|j]; cbn [nth].
  - split.
    + exists 0%nat. split; [lia|reflexivity].
    + intros k Hk. assert (k = 0)%nat by lia. subst k. cbn. lra.
  - cbn [length] in Hj.
    destruct (expanding_max_from_spec vs v j ltac:(lia)) as (Hin & Hle & Hall).
    set (p := nth j (expanding_max_from v vs) 0) in *.
    split.
    + destruct Hin as [E|(k & Hk & E)].
      * exists 0%nat. split; [lia|]. cbn. now symmetry.
      * exists (S k). split; [lia|exact E].
    + intros [|k] Hk; cbn [nth]; [exact Hle|apply Hall; lia].
Qed.

Lemma nth_drawdown_pct_series (vs : list Q) (j : nat) :
  (j < length vs)%nat ->
  nth j (drawdown_pct_series vs) NaN =
    xscale (xdiv (nth j vs 0 - nth j (expanding_max vs) 0)
                 (nth j (expanding_max vs) 0)) 100.
Proof.
  intro Hj. unfold drawdown_pct_series, drawdown_series.
  change NaN with ((fun x => xscale x 100) NaN) at 1. rewrite map_nth.
  change NaN
    with ((fun vp : Q * Q => xdiv (fst vp - snd vp) (snd vp)) (0, 0)) at 1.
  rewrite map_nth, combine_nth by (now rewrite length_expanding_max).
  reflexivity.
Qed.

(** The drawdown series, entry by entry, in terms of the values: the
    percentage by which the value lies under the running peak; where the peak
    is 0 the division gives minus infinity for a negative value and NaN for
    0. *)
Lemma drawdown_pct_series_spec (vs : list Q) (j : nat) :
  (j < length vs)%nat ->
  exists p, running_peak vs j p /\
    match nth j (drawdown_pct_series vs) NaN with
    | Fin d => ~ p == 0 /\ d == (nth j vs 0 - p) / p * 100
    | NInf => p == 0 /\ nth j vs 0 < 0
    | NaN => p == 0 /\ nth j vs 0 == 0
    | PInf => False
    end.
Proof.
  intro Hj. exists (nth j (expanding_max vs) 0).
  pose proof (expanding_max_spec vs j Hj) as Hp. split; [exact Hp|].
  rewrite (nth_drawdown_pct_series vs j Hj).
  destruct Hp as (_ & Hall). specialize (Hall j (Nat.le_refl j)).
  set (p := nth j (expanding_max vs) 0) in *. set (v := nth j vs 0) in *.
  unfold xdiv.
  destruct (Qeq_bool p 0) eqn:Ep.
  - destruct (Qeq_bool (v - p) 0) eqn:Ev.
    + cbn. reflect_tests. split; lra.
    + destruct (ltb 0 (v - p)) eqn:El; cbn; reflect_tests; [lra|split; lra].
  - cbn. reflect_tests. split; [exact Ep|reflexivity].
Qed.

(** [Timedelta.days] against the dates of the two timestamps. *)
Lemma days_calendar (s e : Z) :
  ((time_of_day s <= time_of_day e ->
    days (e - s) = calendar_day e - calendar_day s) /\
   (time_of_day e < time_of_day s ->
    days (e - s) = calendar_day e - calendar_day s - 1))%Z.
Proof.
  unfold days, calendar_day, time_of_day.
  split; intro H; Z.to_euclidean_division_equations; lia.
Qed.

Lemma Forall2_map_in {A B} (P : B -> A -> Prop) (f : A -> B) (l : list A) :
  (forall x, In x l -> P (f x) x) -> Forall2 P (map f l) l.
Proof.
  induction l as [|x l IH]; intro H; cbn; constructor.
  - apply H. now left.
  - apply IH. intros y Hy. apply H. now right.
Qed.

(** C8 (amended).  For every equity curve, [drawdown_analysis] returns one
    row for each closed run of consecutive points whose drawdown is below
    -0.1 percent, in order of occurrence and without repetition.  The
    drawdown of a point is the percentage by which its value lies under the
    running peak.  The row of the run from [s] to [e] holds the timestamp at
    [s] as start, the timestamp at [e] as end and as recovery date, and the
    minimum of the drawdown values of the run.  Its duration is the number of
    whole days elapsed from start to end: the difference of the two calendar
    dates when the end is at a time of day not earlier than the start's, and
    one less otherwise.  A run is closed only by a later point that is not in
    drawdown, so a run that reaches the last equity point gets no row. *)
Theorem C8_drawdown_episodes_are_closed_runs (equity_df : list EquityPoint) :
  let values := map portfolio_value equity_df in
  let stamps := map timestamp equity_df in
  let drawdown := drawdown_pct_series values in
  (forall j, (j < length equity_df)%nat ->
     exists p, running_peak values j p /\
       match nth j drawdown NaN with
       | Fin d => ~ p == 0 /\ d == (nth j values 0 - p) / p * 100
       | NInf => p == 0 /\ nth j values 0 < 0
       | NaN => p == 0 /\ nth j values 0 == 0
       | PInf => False
       end) /\
  exists runs,
    (forall s e, In (s, e) runs <-> drawdown_run drawdown s e) /\
    StronglySorted run_before runs /\
    (forall s e, In (s, e) runs -> (S e < length equity_df)%nat) /\
    Forall2
      (fun row se =>
         let start := nth (fst se) stamps 0%Z in
         let stop := nth (snd se) stamps 0%Z in
         start_date row = start /\
         end_date row = stop /\
         recovery_date row = stop /\
         duration_days row = ((stop - start) / 86400)%Z /\
         ((time_of_day start <= time_of_day stop)%Z ->
          duration_days row = (calendar_day stop - calendar_day start)%Z) /\
         ((time_of_day stop < time_of_day start)%Z ->
          duration_days row = (calendar_day stop - calendar_day start - 1)%Z) /\
         (exists j, (fst se <= j <= snd se)%nat /\
                    nth j drawdown NaN = max_drawdown_pct row) /\
         (forall j, (fst se <= j <= snd se)%nat ->
                    ~ xlt (nth j drawdown NaN) (max_drawdown_pct row)) /\
         below_threshold (max_drawdown_pct row))
      (drawdown_analysis equity_df) runs.
Proof.
  intros values stamps drawdown.
  set (in_drawdown := in_drawdown_column drawdown).
  assert (Hlen : length drawdown = length equity_df).
  { unfold drawdown, drawdown_pct_series, values.
    now rewrite length_map, length_drawdown_series, length_map. }
  split.
  { intros j Hj. apply drawdown_pct_series_spec.
    unfold values. now rewrite length_map. }
  assert (Hstart : start_ok in_drawdown 0 None).
  { cbn. intros i' Hi'. discriminate. }
  exists (runs_from 0 in_drawdown None).
  assert (Hspec : forall s e,
             In (s, e) (runs_from 0 in_drawdown None) <->
             drawdown_run drawdown s e).
  { intros s e.
    rewrite (runs_from_spec in_drawdown in_drawdown 0 None eq_refl Hstart).
    unfold in_drawdown. rewrite closed_run_spec.
    split; [tauto|]. intro H. split; [exact H|lia]. }
  split; [exact Hspec|split; [|split]].
  - now apply (runs_from_sorted in_drawdown).
  - intros s e Hin. apply Hspec in Hin.
    destruct Hin as (_ & _ & _ & H & _). now rewrite <- Hlen.
  - assert (E : drawdown_analysis equity_df =
                map (fun se => episode equity_df drawdown (fst se) (snd se))
                    (runs_from 0 in_drawdown None)).
    { unfold drawdown_analysis. fold values drawdown in_drawdown.
      destruct equity_df as [|p0 rest]; [reflexivity|].
      cbn [is_empty]. now rewrite scan_drawdown_runs. }
    rewrite E. apply Forall2_map_in. intros [s e] Hin. cbn [fst snd].
    apply Hspec in Hin. destruct Hin as (Hse & Hall & _).
    pose proof (days_calendar (nth s stamps 0%Z) (nth e stamps 0%Z)) as [D1 D2].
    split; [reflexivity|]. split; [reflexivity|]. split; [reflexivity|].
    split; [reflexivity|]. split; [exact D1|]. split; [exact D2|].
    destruct (series_min_slice drawdown s e (Fin (-0.1)) Hse) as (M1 & M2 & M3).
    { intros j Hj. apply xltb_xlt. apply (Hall j Hj). }
    change (max_drawdown_pct (episode equity_df drawdown s e))
      with (series_min (iloc_slice s (e + 1) drawdown)).
    split; [exact M2|]. split.
    + intros j Hj Hlt. apply xltb_xlt in Hlt.
      rewrite (M1 j Hj) in Hlt. discriminate.
    + apply xltb_xlt. exact M3.
Qed.

(** C8 as stated fails on four one-minute bars around midnight: the run from
    23:59 to 00:00 is closed at 00:01 and its row has a duration of 0 days,
    while the dates of its start and end differ by one calendar day. *)
Lemma C8_counterexample :
  exists row,
    drawdown_analysis midnight_curve = [row] /\
    start_date row = 86340%Z /\ end_date row = 86400%Z /\
    duration_days row = 0%Z /\
    (calendar_day (end_date row) - calendar_day (start_date row))%Z = 1%Z.
Proof.
  eexists. split; [vm_compute; reflexivity|]. repeat split.
Qed.

(** Two dips and a last point still below the peak: two rows, none for the
    run that is open at the end. *)
Lemma drawdown_analysis_example :
  exists d1 d2,
    drawdown_analysis (curve_of [100; 95; 96; 100; 88; 90; 101; 99]) =
      [mkEpisode 86400 172800 1 (Fin d1) 172800;
       mkEpisode 345600 432000 1 (Fin d2) 432000] /\
    d1 == -5 /\ d2 == -12 /\
    nth 7 (in_drawdown_column
             (drawdown_pct_series [100; 95; 96; 100; 88; 90; 101; 99])) false
      = true.
Proof.
  do 2 eexists. split; [vm_compute; reflexivity|]. repeat split.
Qed.

(** ** Curves that never decline *)

Lemma drawdown_rising_from (vs : list Q) :
  forall m m', 0 < m -> m' == m -> rising_from m vs ->
    Forall zero_entry
      (map (fun vp => xdiv (fst vp - snd vp) (snd vp))
           (combine vs (expanding_max_from m' vs))).
Proof.
  induction vs as [|v vs IH]; intros m m' Hm Hmm Hr; cbn; [constructor|].
  destruct Hr as [Hle Hr].
  set (p := if ltb m' v then v else m').
  assert (Hp : p == v).
  { subst p. destruct (ltb m' v) eqn:E; reflect_tests; [reflexivity|lra]. }
  constructor.
  - unfold xdiv.
    assert (Hz : Qeq_bool p 0 = false) by (apply Qeq_bool_false; lra).
    rewrite Hz. eexists. split; [reflexivity|]. cbn [fst snd].
    assert (E : v - p == 0) by lra. rewrite E. field. lra.
  - apply (IH v p); trivial. lra.
Qed.

Lemma argmin_from_keeps_zero (xs : list xnum) :
  forall i k b, b == 0 -> Forall zero_entry xs ->
    argmin_from i (Some (k, Fin b)) xs = Some (k, Fin b).
Proof.
  induction xs as [|x xs IH]; intros i k b Hb Hall; [reflexivity|].
  inversion Hall as [|? ? (z & Hx & Hz) Hrest]; subst.
  cbn [argmin_from is_nan xltb].
  assert (E : ltb z b = false) by (apply ltb_false; lra).
  rewrite E. now apply IH.
Qed.

(** On a curve that never declines the minimum drawdown is a zero, first
    reached at the first point. *)
Lemma argmin_never_declines (vs : list Q) :
  never_declines vs ->
  exists z, argmin_from 0 None (drawdown_series vs) = Some (0%nat, Fin z) /\ z == 0.
Proof.
  destruct vs as [|v vs]; [intros []|]. intros [Hv Hr].
  unfold drawdown_series. cbn [expanding_max combine map fst snd].
  unfold xdiv at 1.
  assert (Hz : Qeq_bool v 0 = false) by (apply Qeq_bool_false; lra).
  rewrite Hz. cbn [argmin_from is_nan].
  assert (E : (v - v) / v == 0) by (field; lra).
  eexists. split; [|exact E].
  apply argmin_from_keeps_zero; [exact E|].
  apply (drawdown_rising_from vs v v); trivial. reflexivity.
Qed.

(** C9 at the inputs where the code departs from it.  On every equity curve
    of positive values that never declines, the drawdown series has the
    minimum 0, first reached at position 0; the slice [peak[:max_dd_idx]] is
    then empty and [idxmax] raises [ValueError]: no drawdown is returned. *)
Theorem C9_max_drawdown_raises_without_decline (equity_df : list EquityPoint) :
  never_declines (map portfolio_value equity_df) ->
  calculate_max_drawdown equity_df = inl ValueError /\
  idxmin (drawdown_series (map portfolio_value equity_df)) = Some 0%nat /\
  exists z, series_min (drawdown_series (map portfolio_value equity_df)) = Fin z /\
            z == 0.
Proof.
  intro H. destruct (argmin_never_declines _ H) as (z & Hz & Hz0).
  assert (Hi : idxmin (drawdown_series (map portfolio_value equity_df)) = Some 0%nat)
    by (unfold idxmin; now rewrite Hz).
  split; [now apply max_drawdown_trough_first|]. split; [exact Hi|].
  exists z. unfold series_min. now rewrite Hz.
Qed.

Lemma C9_max_drawdown_raises_without_decline_witness :
  calculate_max_drawdown (curve_of [100; 110]) = inl ValueError /\
  idxmin (drawdown_series (map portfolio_value (curve_of [100; 110]))) = Some 0%nat /\
  exists z,
    series_min (drawdown_series (map portfolio_value (curve_of [100; 110]))) = Fin z /\
    z == 0.
Proof.
  apply (C9_max_drawdown_raises_without_decline (curve_of [100; 110])).
  cbn. split; [reflexivity|]. split; [discriminate|exact I].
Defined.

(** ** Constant curves of three or more points *)

Lemma Qsum_repeat_from (z : Q) (m : nat) :
  forall a, fold_left Qplus (repeat z m) a == a + inject_Z (Z.of_nat m) * z.
Proof.
  induction m as [|m IH]; intro a.
  - cbn. ring.
  - cbn [repeat fold_left]. rewrite IH, Nat2Z.inj_succ.
    unfold Z.succ. rewrite inject_Z_plus. ring.
Qed.

Lemma Qsum_repeat (z : Q) (m : nat) :
  Qsum (repeat z m) == inject_Z (Z.of_nat m) * z.
Proof. unfold Qsum. rewrite Qsum_repeat_from. ring. Qed.

Lemma Qlen_repeat (q : Q) (m : nat) : Qlen (repeat q m) = inject_Z (Z.of_nat m).
Proof. unfold Qlen. now rewrite repeat_length. Qed.

Lemma Qlen_pos (m : nat) : 0 < inject_Z (Z.of_nat (S m)).
Proof.
  change 0 with (inject_Z 0). rewrite <- Zlt_Qlt. lia.
Qed.

Lemma Qvar_repeat (q : Q) (m : nat) : Qvar (repeat q (S m)) == 0.
Proof.
  unfold Qvar. rewrite map_repeat, Qsum_repeat.
  assert (Hmean : Qmean (repeat q (S m)) == q).
  { unfold Qmean. rewrite Qsum_repeat, Qlen_repeat.
    pose proof (Qlen_pos m). field. lra. }
  rewrite Hmean. unfold Qdiv. ring.
Qed.

Lemma finite_values_repeat (q : Q) (m : nat) :
  finite_values (repeat (Fin q) m) = Some (repeat q m).
Proof.
  induction m as [|m IH]; [reflexivity|]. cbn. now rewrite IH.
Qed.

Lemma std_is_zero_repeat (q : Q) (m : nat) :
  std_is_zero (std_sq (repeat (Fin q) (S (S m)))) = true.
Proof.
  unfold std_sq. rewrite finite_values_repeat, repeat_length.
  cbn [Nat.ltb Nat.leb std_is_zero].
  apply Qeq_bool_iff, Qvar_repeat.
Qed.

Lemma filter_repeat {A} (f : A -> bool) (x : A) (m : nat) :
  filter f (repeat x m) = if f x then repeat x m else [].
Proof.
  induction m as [|m IH]; cbn; [now destruct (f x)|].
  rewrite IH. now destruct (f x).
Qed.

Lemma pct_change_from_repeat (v : Q) (m : nat) :
  ~ v == 0 ->
  pct_change_from v (repeat v m) = repeat (xsub (Fin (v / v)) 1) m.
Proof.
  intro Hv. apply Qeq_bool_false in Hv.
  induction m as [|m IH]; [reflexivity|].
  cbn [repeat pct_change_from]. unfold xdiv at 1. now rewrite Hv, IH.
Qed.

(** In exact arithmetic, on a constant curve of three or more points, of a
    value other than 0, both ratios are the literal 0.  This is a property of
    the idealised numbers: in binary floating point the deviation of many
    equal returns need not be exactly 0. *)
Lemma sharpe_sortino_constant_curve (equity_df : list EquityPoint)
    (v rf : Q) (n : nat) :
  ~ v == 0 ->
  map portfolio_value equity_df = repeat v (S (S (S n))) ->
  calculate_sharpe_ratio equity_df rf = Lit0 /\
  calculate_sortino_ratio equity_df rf = Lit0.
Proof.
  intros Hv Hconst.
  assert (Hlen : length equity_df = S (S (S n))).
  { rewrite <- (length_map portfolio_value), Hconst. apply repeat_length. }
  unfold calculate_sharpe_ratio, calculate_sortino_ratio, returns_column.
  rewrite Hconst, Hlen.
  destruct equity_df as [|p0 rest]; [discriminate|].
  cbn [is_empty Nat.ltb Nat.leb orb repeat pct_change].
  change (v :: repeat v n) with (repeat v (S n)).
  change (v :: repeat v (S n)) with (repeat v (S (S n))).
  rewrite pct_change_from_repeat by exact Hv.
  cbn [xsub]. unfold dropna. cbn [filter is_nan negb].
  rewrite filter_repeat. cbn [is_nan negb].
  rewrite repeat_length, map_repeat. cbn [Nat.eqb xsub].
  rewrite std_is_zero_repeat. split; [reflexivity|].
  rewrite filter_repeat.
  destruct (xltb _ _).
  - now rewrite std_is_zero_repeat, orb_true_r.
  - reflexivity.
Qed.

(** * Further properties of the engine *)

(** ** Accounting of single orders *)

(** An accepted [buy] never overdraws the balance, appends exactly one BUY
    row, and lowers the portfolio value taken at the trade price by exactly
    the commission paid. *)
Theorem buy_accepted_accounting (price quantity : Q) (ts : Z) (e : Engine) :
  quantity * price * (1 + commission e) <= balance e ->
  exists e',
    buy price quantity ts e = (e', inr true) /\
    0 <= balance e' /\
    balance e' == balance e - quantity * price * (1 + commission e) /\
    position e' == position e + quantity /\
    entry_price e' = price /\
    get_portfolio_value e' price ==
      get_portfolio_value e price - quantity * price * commission e /\
    trades e' = trades e ++
      [BUY ts price quantity (quantity * price * (1 + commission e)) (balance e')] /\
    equity_curve e' = equity_curve e.
Proof.
  intro H. exists (bought price quantity ts e).
  rewrite buy_eq. apply Qle_bool_iff in H. rewrite H.
  apply Qle_bool_iff in H.
  unfold get_portfolio_value, bought. cbn.
  repeat split; try reflexivity; try lra; try ring.
Qed.

Lemma buy_accepted_accounting_witness :
  exists e',
    buy 100 95 0 scenario_engine = (e', inr true) /\
    0 <= balance e' /\
    balance e' == balance scenario_engine - 95 * 100 * (1 + commission scenario_engine) /\
    position e' == position scenario_engine + 95 /\
    entry_price e' = 100 /\
    get_portfolio_value e' 100 ==
      get_portfolio_value scenario_engine 100 - 95 * 100 * commission scenario_engine /\
    trades e' = trades scenario_engine ++
      [BUY 0 100 95 (95 * 100 * (1 + commission scenario_engine)) (balance e')] /\
    equity_curve e' = equity_curve scenario_engine.
Proof.
  apply (buy_accepted_accounting 100 95 0 scenario_engine).
  discriminate.
Defined.

(** A [buy] whose cost exceeds the balance returns [False] and changes
    nothing, whatever the quantity; a quantity that is zero or negative is
    never rejected on an engine whose balance is not negative (for a price
    and a commission factor [1 + commission] that are not negative). *)
Theorem buy_rejects_only_on_cost (price quantity : Q) (ts : Z) (e : Engine) :
  (balance e < quantity * price * (1 + commission e) ->
   buy price quantity ts e = (e, inr false)) /\
  (0 <= balance e -> 0 <= price -> 0 <= 1 + commission e -> quantity <= 0 ->
   exists e', buy price quantity ts e = (e', inr true) /\
              position e' == position e + quantity /\
              balance e <= balance e').
Proof.
  split.
  - intro H. rewrite buy_eq. apply Qle_bool_false in H. now rewrite H.
  - intros Hb Hp Hc Hq.
    assert (Hcost : quantity * price * (1 + commission e) <= 0).
    { assert (0 <= (- quantity) * price * (1 + commission e))
        by (apply Qmult_le_0_compat; [apply Qmult_le_0_compat|]; lra).
      lra. }
    exists (bought price quantity ts e). rewrite buy_eq.
    assert (Hle : Qle_bool (quantity * price * (1 + commission e)) (balance e) = true)
      by (apply Qle_bool_iff; lra).
    rewrite Hle. unfold bought. cbn. repeat split; try reflexivity; lra.
Qed.

Lemma buy_rejects_only_on_cost_witness :
  buy 100 101 0 scenario_engine = (scenario_engine, inr false) /\
  exists e', buy 100 (-5) 0 scenario_engine = (e', inr true) /\
             position e' == position scenario_engine + (-5) /\
             balance scenario_engine <= balance e'.
Proof.
  destruct (buy_rejects_only_on_cost 100 101 0 scenario_engine) as [Hrej _].
  destruct (buy_rejects_only_on_cost 100 (-5) 0 scenario_engine) as [_ Hneg].
  split.
  - apply Hrej. reflexivity.
  - apply Hneg; discriminate.
Defined.

(** An accepted [sell] on an engine with a non-zero entry price appends
    exactly one SELL row, whose profit is [(price - entry_price) * quantity]
    and whose profit percentage is relative to the entry price, and lowers
    the portfolio value taken at the trade price by exactly the commission
    paid. *)
Theorem sell_accepted_accounting (price quantity : Q) (ts : Z) (e : Engine) :
  quantity <= position e -> ~ entry_price e == 0 ->
  exists e' revenue profit profit_pct,
    sell price quantity ts e = (e', inr true) /\
    revenue == quantity * price * (1 - commission e) /\
    balance e' == balance e + revenue /\
    position e' == position e - quantity /\
    0 <= position e' /\
    get_portfolio_value e' price ==
      get_portfolio_value e price - quantity * price * commission e /\
    profit == (price - entry_price e) * quantity /\
    profit_pct * entry_price e == (price - entry_price e) * 100 /\
    trades e' = trades e ++
      [SELL ts price quantity revenue profit profit_pct (balance e')] /\
    equity_curve e' = equity_curve e.
Proof.
  intros Hq He.
  exists (sold price quantity ts e),
         (quantity * price * (1 - commission e)),
         ((price - entry_price e) * quantity),
         ((price - entry_price e) / entry_price e * 100).
  rewrite sell_eq.
  assert (Hq' := Hq). apply Qle_bool_iff in Hq'. rewrite Hq'.
  assert (He' := He). apply Qeq_bool_false in He'. rewrite He'.
  unfold get_portfolio_value, sold. cbn.
  split; [reflexivity|]. split; [reflexivity|]. split; [reflexivity|].
  split; [reflexivity|]. split; [lra|]. split; [ring|].
  split; [reflexivity|]. split; [field; exact He|]. split; reflexivity.
Qed.

Lemma sell_accepted_accounting_witness :
  exists e' revenue profit profit_pct,
    sell 90 95 0 (bought 100 95 0 scenario_engine) = (e', inr true) /\
    revenue == 95 * 90 * (1 - commission (bought 100 95 0 scenario_engine)) /\
    balance e' == balance (bought 100 95 0 scenario_engine) + revenue /\
    position e' == position (bought 100 95 0 scenario_engine) - 95 /\
    0 <= position e' /\
    get_portfolio_value e' 90 ==
      get_portfolio_value (bought 100 95 0 scenario_engine) 90
      - 95 * 90 * commission (bought 100 95 0 scenario_engine) /\
    profit == (90 - entry_price (bought 100 95 0 scenario_engine)) * 95 /\
    profit_pct * entry_price (bought 100 95 0 scenario_engine)
      == (90 - entry_price (bought 100 95 0 scenario_engine)) * 100 /\
    trades e' = trades (bought 100 95 0 scenario_engine) ++
      [SELL 0 90 95 revenue profit profit_pct (balance e')] /\
    equity_curve e' = equity_curve (bought 100 95 0 scenario_engine).
Proof.
  apply (sell_accepted_accounting 90 95 0 (bought 100 95 0 scenario_engine)).
  - discriminate.
  - discriminate.
Defined.

(** A [sell] that passes its guard on an engine whose entry price is 0
    raises [ZeroDivisionError] after it has already credited the balance and
    reduced the position: the engine is changed, and no trade row records
    the change. *)
Theorem sell_raises_after_mutation (price quantity : Q) (ts : Z) (e : Engine) :
  quantity <= position e -> entry_price e == 0 ->
  exists e',
    sell price quantity ts e = (e', inl ZeroDivisionError) /\
    balance e' == balance e + quantity * price * (1 - commission e) /\
    position e' == position e - quantity /\
    trades e' = trades e /\ equity_curve e' = equity_curve e.
Proof.
  intros Hq He. exists (credited price quantity e). rewrite sell_eq.
  apply Qle_bool_iff in Hq. apply Qeq_bool_iff in He. rewrite Hq, He.
  unfold credited. cbn. repeat split; reflexivity.
Qed.

Lemma sell_raises_after_mutation_witness :
  exists e',
    sell 100 (-5) 0 scenario_engine = (e', inl ZeroDivisionError) /\
    balance e' == balance scenario_engine + (-5) * 100 * (1 - commission scenario_engine) /\
    position e' == position scenario_engine - (-5) /\
    trades e' = trades scenario_engine /\
    equity_curve e' = equity_curve scenario_engine.
Proof.
  apply (sell_raises_after_mutation 100 (-5) 0 scenario_engine).
  - discriminate.
  - reflexivity.
Defined.

(** Buying and at once selling the same quantity at the same price restores
    the position and costs twice the commission; the SELL row records a
    profit of 0 and a profit percentage of 0. *)
Theorem buy_then_sell_round_trip (price quantity : Q) (t1 t2 : Z) (e : Engine) :
  quantity * price * (1 + commission e) <= balance e ->
  ~ price == 0 -> 0 <= position e ->
  exists e1 e2 cost b1 revenue profit profit_pct b2,
    buy price quantity t1 e = (e1, inr true) /\
    sell price quantity t2 e1 = (e2, inr true) /\
    position e2 == position e /\
    balance e2 == balance e - 2 * (quantity * price * commission e) /\
    trades e2 = trades e ++ [BUY t1 price quantity cost b1;
                             SELL t2 price quantity revenue profit profit_pct b2] /\
    profit == 0 /\ profit_pct == 0.
Proof.
  intros Hc Hp Hq.
  exists (bought price quantity t1 e),
         (sold price quantity t2 (bought price quantity t1 e)).
  do 6 eexists.
  rewrite buy_eq. apply Qle_bool_iff in Hc. rewrite Hc.
  rewrite sell_eq.
  assert (Hg : Qle_bool quantity (position (bought price quantity t1 e)) = true).
  { apply Qle_bool_iff. cbn. lra. }
  rewrite Hg.
  assert (He : Qeq_bool (entry_price (bought price quantity t1 e)) 0 = false).
  { apply Qeq_bool_false. exact Hp. }
  rewrite He. unfold sold, bought. cbn. rewrite <- app_assoc. cbn.
  split; [reflexivity|]. split; [reflexivity|].
  split; [ring|]. split; [ring|]. split; [reflexivity|].
  split; [ring|]. field. exact Hp.
Qed.

Lemma buy_then_sell_round_trip_witness :
  exists e1 e2 cost b1 revenue profit profit_pct b2,
    buy 100 10 0 (fresh 10000 0.001) = (e1, inr true) /\
    sell 100 10 1 e1 = (e2, inr true) /\
    position e2 == position (fresh 10000 0.001) /\
    balance e2 == balance (fresh 10000 0.001)
                  - 2 * (10 * 100 * commission (fresh 10000 0.001)) /\
    trades e2 = trades (fresh 10000 0.001) ++
                  [BUY 0 100 10 cost b1;
                   SELL 1 100 10 revenue profit profit_pct b2] /\
    profit == 0 /\ profit_pct == 0.
Proof.
  apply (buy_then_sell_round_trip 100 10 0 1 (fresh 10000 0.001)).
  - discriminate.
  - discriminate.
  - discriminate.
Defined.

(** ** Runs without trades *)

Lemma idled_cons (e : Engine) (row : Bar) (rs : list Bar) :
  idled (recorded (open_time row) (close row) e) rs = idled e (row :: rs).
Proof.
  unfold idled, marked, recorded, append_equity, point_of, get_portfolio_value.
  cbn. now rewrite <- app_assoc.
Qed.

(** A run in which every bar only records its equity point. *)
Lemma iterrows_idle (P : Engine -> Prop) (df : DataFrame)
    (strategy_func : Strategy) :
  (forall e ts p, P e -> P (recorded ts p e)) ->
  forall (rs : list Bar) (i : nat),
    (forall e k row, P e -> nth_error rs k = Some row ->
       bar_step df strategy_func (i + k) row e =
         (recorded (open_time row) (close row) e, inr tt)) ->
    forall e, P e ->
      iterrows df strategy_func i rs e = (idled e rs, inr tt).
Proof.
  intros Hstable. induction rs as [|row rs IH]; intros i Hstep e HP.
  - cbn. unfold idled, marked. cbn. rewrite app_nil_r. now destruct e.
  - rewrite iterrows_cons.
    rewrite <- (Nat.add_0_r i) at 1. rewrite (Hstep e 0%nat row HP eq_refl).
    rewrite IH.
    + now rewrite idled_cons.
    + intros e' k row' HP' Hk.
      replace (S i + k)%nat with (i + S k)%nat by lia. now apply Hstep.
    + now apply Hstable.
Qed.

(** Under a strategy that never signals, a run over a frame with both
    columns completes whatever the closes; balance, position, entry price
    and ledger stay as they were, and every bar appends the point
    [balance + position * close]. *)
Theorem hold_only_run_changes_nothing (df : DataFrame)
    (strategy_func : Strategy) (e : Engine) :
  well_formed df -> holds strategy_func df ->
  exists e',
    run_backtest df strategy_func e = (e', inr tt) /\
    balance e' = balance e /\ position e' = position e /\
    entry_price e' = entry_price e /\ trades e' = trades e /\
    equity_curve e' =
      equity_curve e ++
      map (fun row => mkPoint (open_time row)
                              (balance e + position e * close row) (close row))
          (rows df).
Proof.
  intros [Hc Ht] Hh. exists (idled e (rows df)). split; [|repeat split].
  unfold run_backtest.
  apply (iterrows_idle (fun _ => True)); trivial.
  intros e0 k row _ Hk. rewrite bar_step_eq by assumption. cbv zeta.
  destruct (Hh k) as [H1 H2].
  { apply nth_error_Some. congruence. }
  cbn [Nat.add]. apply Z.eqb_neq in H1, H2. now rewrite H1, H2.
Qed.

Lemma hold_only_run_changes_nothing_witness :
  exists e',
    run_backtest scenario_frame (signals []) scenario_engine = (e', inr tt) /\
    balance e' = balance scenario_engine /\
    position e' = position scenario_engine /\
    entry_price e' = entry_price scenario_engine /\
    trades e' = trades scenario_engine /\
    equity_curve e' =
      equity_curve scenario_engine ++
      map (fun row => mkPoint (open_time row)
                              (balance scenario_engine
                               + position scenario_engine * close row) (close row))
          (rows scenario_frame).
Proof.
  apply (hold_only_run_changes_nothing scenario_frame (signals []) scenario_engine).
  - split; reflexivity.
  - intros i _. unfold signals. destruct i; cbn; split; discriminate.
Defined.

(** With a commission above the affordability threshold of the sized order
    ([0.95 * (1 + commission) > 1]) the engine never trades: from a positive
    balance over positive closes, whatever the strategy, the run completes
    with an empty ledger, the initial balance, no position, and an equity
    curve that marks the untouched balance at every bar. *)
Theorem unaffordable_commission_never_trades (df : DataFrame)
    (strategy_func : Strategy) (b c : Q) :
  well_formed df -> positive_closes (rows df) -> 0 < b -> ~ affordable c ->
  exists e',
    run_backtest df strategy_func (fresh b c) = (e', inr tt) /\
    trades e' = [] /\ balance e' = b /\ position e' = 0 /\
    equity_curve e' =
      map (fun row => mkPoint (open_time row) (b + 0 * close row) (close row))
          (rows df).
Proof.
  intros Hwf Hpos Hb Hn. exists (idled (fresh b c) (rows df)).
  split; [|repeat split].
  unfold run_backtest.
  apply (iterrows_idle
           (fun e => position e == 0 /\ 0 < balance e /\ ~ affordable (commission e))).
  - intros e ts p H. exact H.
  - intros e k row (Hq & Hbal & Hc) Hk.
    apply bar_step_flat_buy_rejected; trivial.
    apply Hpos. eapply nth_error_In. exact Hk.
  - cbn. repeat split; trivial; try reflexivity.
Qed.

Lemma unaffordable_commission_never_trades_witness :
  exists e',
    run_backtest scenario_frame scenario_signals (fresh 10000 0.1) = (e', inr tt) /\
    trades e' = [] /\ balance e' = 10000 /\ position e' = 0 /\
    equity_curve e' =
      map (fun row => mkPoint (open_time row) (10000 + 0 * close row) (close row))
          (rows scenario_frame).
Proof.
  apply (unaffordable_commission_never_trades scenario_frame scenario_signals 10000 0.1).
  - split; reflexivity.
  - intros row Hin. cbn in Hin.
    repeat (destruct Hin as [Hin|Hin]; [subst row; reflexivity|]).
    destruct Hin.
  - reflexivity.
  - intro H. vm_compute in H. apply H. reflexivity.
Defined.

(** ** Shape of the trade ledger *)

Lemma round_trips_app_bounded (n : nat) :
  forall pre rest, (length pre <= n)%nat ->
    round_trips pre -> Nat.even (length pre) = true ->
    round_trips rest -> round_trips (pre ++ rest).
Proof.
  induction n as [|n IH]; intros pre rest Hlen Hpre Hev Hrest.
  - destruct pre; [exact Hrest|cbn in Hlen; lia].
  - destruct pre as [|t1 [|t2 pre']]; [exact Hrest|discriminate|].
    destruct t1; [|contradiction]. destruct t2; [contradiction|].
    destruct Hpre as [Hq Hpre]. cbn [app round_trips]. split; [exact Hq|].
    apply IH; trivial. cbn in Hlen. lia.
Qed.

Lemma round_trips_app (pre rest : list Trade) :
  round_trips pre -> Nat.even (length pre) = true ->
  round_trips rest -> round_trips (pre ++ rest).
Proof. apply (round_trips_app_bounded (length pre)). lia. Qed.

Lemma even_app_two {A} (pre : list A) (x y : A) :
  Nat.even (length ((pre ++ [x]) ++ [y])) = Nat.even (length pre).
Proof.
  rewrite !length_app. cbn [length].
  replace (length pre + 1 + 1)%nat with (S (S (length pre))) by lia.
  reflexivity.
Qed.

Lemma bar_step_ledger (df : DataFrame) (strategy_func : Strategy) (i : nat)
    (row : Bar) (e : Engine) :
  well_formed df -> 0 < close row ->
  ledger_flat e \/ ledger_long e ->
  exists e',
    bar_step df strategy_func i row e = (e', inr tt) /\
    (ledger_flat e' \/ ledger_long e').
Proof.
  intros Hwf Hp [(Hq & Hb & Hrt & Hev)|(Hq & Hb & Haff & He & Hopen)].
  - destruct (strategy_func df i =? 1)%Z eqn:Hs.
    + destruct (Qlt_le_dec 1 (0.95 * (1 + commission e))) as [Hn|Ha].
      * rewrite bar_step_flat_buy_rejected; trivial.
        -- eexists. split; [reflexivity|]. left. repeat split; assumption.
        -- unfold affordable. lra.
      * rewrite bar_step_flat_buy; trivial.
        eexists. split; [reflexivity|]. right.
        assert (Hp0 : ~ close row == 0) by lra.
        pose proof (quotient_spec (balance e) (close row) Hp0) as Hd.
        assert (Hdpos : 0 < balance e / close row).
        { apply Qlt_shift_div_l; lra. }
        unfold ledger_long. cbn.
        set (d := balance e / close row) in *.
        assert (Hcost : d * 0.95 * close row * (1 + commission e)
                        == balance e * (0.95 * (1 + commission e)))
          by (rewrite <- Hd; ring).
        split; [lra|]. split; [rewrite Hcost; nra|].
        split; [exact Ha|]. split; [exact Hp0|].
        do 6 eexists. split; [reflexivity|]. repeat split; trivial. lra.
    + rewrite bar_step_flat_hold; trivial.
      eexists. split; [reflexivity|]. left. repeat split; assumption.
  - destruct Hopen as (pre & ts & p & q & cost & bal & Ht & Hrt & Hev & Hpq).
    destruct (strategy_func df i =? -1)%Z eqn:Hs.
    + rewrite bar_step_long_sell; trivial.
      eexists. split; [reflexivity|]. left.
      unfold ledger_flat, affordable in *. cbn.
      assert (Hrev : 0 < position e * close row * (1 - commission e))
        by (apply Qmult_lt_0_compat; [apply Qmult_lt_0_compat|]; lra).
      split; [lra|]. split; [lra|]. rewrite Ht. split.
      * rewrite <- app_assoc. apply round_trips_app; trivial.
        cbn. split; [exact Hpq|exact I].
      * rewrite even_app_two. exact Hev.
    + rewrite bar_step_long_hold; trivial.
      eexists. split; [reflexivity|]. right.
      unfold ledger_long. cbn. repeat split; trivial.
      exists pre, ts, p, q, cost, bal. repeat split; trivial.
Qed.

Lemma iterrows_ledger (df : DataFrame) (strategy_func : Strategy) :
  well_formed df ->
  forall (rs : list Bar) (i : nat) (e : Engine),
    positive_closes rs -> ledger_flat e \/ ledger_long e ->
    exists e',
      iterrows df strategy_func i rs e = (e', inr tt) /\
      (ledger_flat e' \/ ledger_long e').
Proof.
  intros Hwf. induction rs as [|row rs IH]; intros i e Hpos He.
  - exists e. split; [reflexivity|assumption].
  - destruct (bar_step_ledger df strategy_func i row e Hwf) as (e1 & Hs & H1);
      [apply Hpos; now left|assumption|].
    destruct (IH (S i) e1) as (e' & Hr & H'); [|assumption|].
    + intros r Hr. apply Hpos. now right.
    + exists e'. split; [|assumption].
      rewrite iterrows_cons, Hs. exact Hr.
Qed.

(** From a positive balance over positive closes, whatever the strategy and
    the commission, the ledger of a run is a sequence of round trips: BUY and
    SELL rows alternate, starting with a BUY; every SELL row sells the whole
    quantity of the BUY row before it; and the engine ends flat exactly when
    the ledger has an even number of rows. *)
Theorem ledger_is_round_trips (df : DataFrame) (strategy_func : Strategy)
    (b c : Q) :
  well_formed df -> positive_closes (rows df) -> 0 < b ->
  exists e',
    run_backtest df strategy_func (fresh b c) = (e', inr tt) /\
    round_trips (trades e') /\
    (position e' == 0 <-> Nat.even (length (trades e')) = true) /\
    (0 < position e' <-> Nat.even (length (trades e')) = false).
Proof.
  intros Hwf Hpos Hb.
  destruct (iterrows_ledger df strategy_func Hwf (rows df) 0 (fresh b c) Hpos)
    as (e' & Hrun & Hl).
  { left. unfold ledger_flat. cbn. repeat split; trivial; reflexivity. }
  exists e'. split; [exact Hrun|].
  destruct Hl as [(Hq & _ & Hrt & Hev)|(Hq & _ & _ & _ & Hopen)].
  - split; [exact Hrt|]. split; split; trivial; intro H.
    + lra.
    + congruence.
  - destruct Hopen as (pre & ts & p & q & cost & bal & Ht & Hrt & Hev & _).
    assert (Hodd : Nat.even (length (trades e')) = false).
    { rewrite Ht, length_app. cbn [length].
      replace (length pre + 1)%nat with (S (length pre)) by lia.
      rewrite Nat.even_succ, <- Nat.negb_even, Hev. reflexivity. }
    split.
    + rewrite Ht. apply round_trips_app; trivial. exact I.
    + split; split; trivial; intro H.
      * lra.
      * congruence.
Qed.

Lemma ledger_is_round_trips_witness :
  exists e',
    run_backtest scenario_frame scenario_signals (fresh 10000 0.001) = (e', inr tt) /\
    round_trips (trades e') /\
    (position e' == 0 <-> Nat.even (length (trades e')) = true) /\
    (0 < position e' <-> Nat.even (length (trades e')) = false).
Proof.
  apply (ledger_is_round_trips scenario_frame scenario_signals 10000 0.001).
  - split; reflexivity.
  - intros row Hin. cbn in Hin.
    repeat (destruct Hin as [Hin|Hin]; [subst row; reflexivity|]).
    destruct Hin.
  - reflexivity.
Defined.

(** ** The ledger follows the bars *)

Lemma bar_step_trades (df : DataFrame) (strategy_func : Strategy) (i : nat)
    (row : Bar) (e e' : Engine) (r : exn + unit) :
  bar_step df strategy_func i row e = (e', r) ->
  trades e' = trades e \/
  exists t, trades e' = trades e ++ [t] /\ trade_stamp t = bar_stamp row.
Proof.
  intro H.
  destruct (has_close df) eqn:Hc; [destruct (has_open_time df) eqn:Ht|].
  - rewrite bar_step_eq in H by assumption. cbv zeta in H.
    repeat match type of H with
      | (if ?b then _ else _) = _ => destruct b
      end; inversion H; subst; cbn; auto;
      right; eexists; split; reflexivity.
  - rewrite bar_step_missing_column in H by (now right).
    inversion H; subst; now left.
  - rewrite bar_step_missing_column in H by (now left).
    inversion H; subst; now left.
Qed.

Lemma subseq_length {A} (l1 l2 : list A) :
  subseq l1 l2 -> (length l1 <= length l2)%nat.
Proof. induction 1; cbn; lia. Qed.

(** Whatever the frame, the strategy and the outcome (completed or stopped
    by an exception), a run only appends to the ledger, at most one row per
    bar, and the rows it appends carry the timestamp and the close of bars
    of the frame, in the order of the bars. *)
Theorem ledger_follows_bars (df : DataFrame) (strategy_func : Strategy)
    (e e' : Engine) (r : exn + unit) :
  run_backtest df strategy_func e = (e', r) ->
  exists new,
    trades e' = trades e ++ new /\
    subseq (map trade_stamp new) (map bar_stamp (rows df)) /\
    (length new <= length (rows df))%nat.
Proof.
  unfold run_backtest. generalize 0%nat as i. revert e.
  induction (rows df) as [|row rs IH]; intros e i H.
  - inversion H; subst. exists []. rewrite app_nil_r.
    repeat split; trivial. constructor.
  - rewrite iterrows_cons in H.
    destruct (bar_step df strategy_func i row e) as [e1 [x|[]]] eqn:Hs.
    + inversion H; subst.
      destruct (bar_step_trades _ _ _ _ _ _ _ Hs) as [E|(t & E & Hst)].
      * exists []. rewrite app_nil_r. repeat split; trivial; cbn; try lia.
        apply subseq_nil.
      * exists [t]. repeat split; trivial; cbn; try lia.
        rewrite Hst. apply subseq_take, subseq_nil.
    + destruct (IH _ _ H) as (new & E' & Hsub & Hlen).
      destruct (bar_step_trades _ _ _ _ _ _ _ Hs) as [E|(t & E & Hst)].
      * exists new. rewrite E', E. repeat split; trivial; cbn; try lia.
        now apply subseq_skip.
      * exists (t :: new). rewrite E', E, <- app_assoc.
        repeat split; trivial; cbn; try lia.
        rewrite Hst. now apply subseq_take.
Qed.

Lemma ledger_follows_bars_witness :
  exists new,
    trades scenario_final = trades scenario_engine ++ new /\
    subseq (map trade_stamp new) (map bar_stamp (rows scenario_frame)) /\
    (length new <= length (rows scenario_frame))%nat.
Proof.
  apply (ledger_follows_bars scenario_frame scenario_signals
           scenario_engine scenario_final (inr tt)).
  vm_compute. reflexivity.
Defined.

(** ** A close of zero *)

Lemma iterrows_app (df : DataFrame) (strategy_func : Strategy) :
  forall (l1 l2 : list Bar) (i : nat) (e : Engine),
    iterrows df strategy_func i (l1 ++ l2) e =
      match iterrows df strategy_func i l1 e with
      | (e1, inr _) => iterrows df strategy_func (i + length l1) l2 e1
      | (e1, inl x) => (e1, inl x)
      end.
Proof.
  induction l1 as [|row l1 IH]; intros l2 i e.
  - cbn. now rewrite Nat.add_0_r.
  - cbn [app]. rewrite !iterrows_cons.
    destruct (bar_step df strategy_func i row e) as [e1 [x|[]]]; [reflexivity|].
    rewrite IH. cbn [length]. now rewrite Nat.add_succ_r.
Qed.

(** A bar whose close is 0 and whose signal is a buy, met while the engine is
    flat, stops the run with [ZeroDivisionError] (the order size divides the
    balance by the close).  The engine is left as it was after the bars
    before: their equity points stay in the curve, and neither the failing
    bar nor any later bar adds one. *)
Theorem zero_close_stops_the_run (df : DataFrame) (strategy_func : Strategy)
    (pre post : list Bar) (bar : Bar) (e e1 : Engine) :
  well_formed df ->
  rows df = pre ++ bar :: post ->
  iterrows df strategy_func 0 pre e = (e1, inr tt) ->
  position e1 == 0 -> close bar == 0 ->
  strategy_func df (length pre) = 1%Z ->
  run_backtest df strategy_func e = (e1, inl ZeroDivisionError) /\
  length (equity_curve e1) = (length (equity_curve e) + length pre)%nat.
Proof.
  intros [Hc Ht] Hrows Hpre Hq Hz Hs. split.
  - unfold run_backtest. rewrite Hrows, iterrows_app, Hpre.
    rewrite iterrows_cons, bar_step_eq by assumption. cbv zeta.
    cbn [Nat.add]. rewrite Hs.
    apply Qeq_bool_iff in Hq, Hz. rewrite Hq, Hz. reflexivity.
  - destruct (iterrows_trace _ _ _ _ _ _ _ Hpre) as (pts & Heq & Hlen & _).
    rewrite Heq, length_app, (Hlen tt eq_refl). reflexivity.
Qed.

Lemma zero_close_stops_the_run_witness :
  run_backtest (frame_of [100; 0; 90]) (signals [0; 1; 0]%Z) scenario_engine
    = (fst (iterrows (frame_of [100; 0; 90]) (signals [0; 1; 0]%Z) 0
              [mkBar 0 100] scenario_engine),
       inl ZeroDivisionError) /\
  length (equity_curve
            (fst (iterrows (frame_of [100; 0; 90]) (signals [0; 1; 0]%Z) 0
                    [mkBar 0 100] scenario_engine)))
    = (length (equity_curve scenario_engine) + length [mkBar 0 100])%nat.
Proof.
  apply (zero_close_stops_the_run (frame_of [100; 0; 90]) (signals [0; 1; 0]%Z)
           [mkBar 0 100] [mkBar (2 * 86400) 90] (mkBar 86400 0)).
  - split; reflexivity.
  - reflexivity.
  - vm_compute. reflexivity.
  - reflexivity.
  - reflexivity.
  - reflexivity.
Defined.

(** * Properties of the summary metrics *)

Lemma filter_win_lose_length (l : list Q) :
  (length (filter (fun p => ltb 0 p) l) + length (filter (fun p => ltb p 0) l)
   <= length l)%nat.
Proof.
  induction l as [|p l IH]; cbn; [lia|].
  destruct (ltb 0 p) eqn:H1, (ltb p 0) eqn:H2; cbn; try lia.
  reflect_tests. lra.
Qed.

Lemma Qlen_cons_pos (x : Q) (l : list Q) : 0 < Qlen (x :: l).
Proof. unfold Qlen. cbn [length]. apply Qlen_pos. Qed.

Lemma Qlen_le (l1 l2 : list Q) :
  (length l1 <= length l2)%nat -> Qlen l1 <= Qlen l2.
Proof.
  intro H. unfold Qlen. rewrite <- Zle_Qle. lia.
Qed.

Lemma Qlen_nonneg (l : list Q) : 0 <= Qlen l.
Proof.
  unfold Qlen. change 0 with (inject_Z 0). rewrite <- Zle_Qle. lia.
Qed.

(** The four outcomes of [get_performance_metrics], each with the engines it
    comes from: an empty ledger; a ledger without a SELL row; a ledger with a
    SELL row on an engine whose initial balance is 0, where the return
    percentage divides by zero; and the metrics, in which the trade count is
    the number of SELL rows and is at least 1, winners and losers together
    are no more than that count, and the win rate lies between 0 and 100. *)
Theorem performance_metrics_outcomes (e : Engine) :
  match get_performance_metrics e with
  | inr NoTradesExecuted => trades e = []
  | inr NoSellTradesExecuted =>
      trades e <> [] /\ filter is_sell (trades e) = []
  | inl err =>
      err = ZeroDivisionError /\ initial_balance e == 0 /\
      filter is_sell (trades e) <> []
  | inr (MetricsOf m) =>
      ~ initial_balance e == 0 /\
      total_trades m = length (filter is_sell (trades e)) /\
      (1 <= total_trades m)%nat /\
      (winning_trades m + losing_trades m <= total_trades m)%nat /\
      0 <= win_rate m <= 100 /\
      final_balance m = balance e /\ final_position m = position e
  end.
Proof.
  unfold get_performance_metrics.
  destruct (trades e) as [|t0 ts] eqn:Ht; [reflexivity|].
  set (sells := filter is_sell (t0 :: ts)).
  destruct (map trade_profit sells) as [|p0 ps] eqn:Hp.
  - split; [discriminate|]. now apply map_eq_nil in Hp.
  - assert (Hlen : length sells = length (p0 :: ps))
      by (now rewrite <- Hp, length_map).
    assert (Hne : sells <> []) by (intro E; rewrite E in Hp; discriminate).
    unfold truediv.
    destruct (Qeq_bool (initial_balance e) 0) eqn:Hz; reflect_tests.
    + repeat split; trivial.
    + cbn [total_trades winning_trades losing_trades win_rate final_balance
           final_position].
      pose proof (filter_win_lose_length (p0 :: ps)) as Hwl.
      split; [exact Hz|]. split; [reflexivity|].
      split; [rewrite Hlen; cbn; lia|]. split; [now rewrite Hlen|].
      split; [|split; reflexivity].
      set (w := filter (fun p => ltb 0 p) (p0 :: ps)) in *.
      pose proof (Qlen_cons_pos p0 ps) as Hpos.
      pose proof (Qlen_nonneg w) as Hw0.
      assert (Hw : Qlen w <= Qlen (p0 :: ps)) by (apply Qlen_le; lia).
      assert (Hn0 : ~ Qlen (p0 :: ps) == 0) by lra.
      pose proof (quotient_spec (Qlen w) (Qlen (p0 :: ps)) Hn0) as Hd.
      set (r := Qlen w / Qlen (p0 :: ps)) in *.
      split; nra.
Qed.

Lemma py_max_spec (l : list Q) :
  forall x, x <= py_max x l /\ forall y, In y l -> y <= py_max x l.
Proof.
  unfold py_max. induction l as [|z l IH]; intro x; cbn [fold_left].
  - split; [lra|]. intros y [].
  - destruct (IH (if ltb x z then z else x)) as [H1 H2].
    destruct (ltb x z) eqn:E; reflect_tests.
    + split; [lra|]. intros y [Hy|Hy]; [subst; exact H1|now apply H2].
    + split; [exact H1|]. intros y [Hy|Hy]; [subst; lra|now apply H2].
Qed.

Lemma py_min_spec (l : list Q) :
  forall x, py_min x l <= x /\ forall y, In y l -> py_min x l <= y.
Proof.
  unfold py_min. induction l as [|z l IH]; intro x; cbn [fold_left].
  - split; [lra|]. intros y [].
  - destruct (IH (if ltb z x then z else x)) as [H1 H2].
    destruct (ltb z x) eqn:E; reflect_tests.
    + split; [lra|]. intros y [Hy|Hy]; [subst; exact H1|now apply H2].
    + split; [exact H1|]. intros y [Hy|Hy]; [subst; lra|now apply H2].
Qed.

Lemma Qsum_from_bounds (lo hi : Q) (l : list Q) :
  (forall y, In y l -> lo <= y <= hi) ->
  forall a,
    a + Qlen l * lo <= fold_left Qplus l a /\
    fold_left Qplus l a <= a + Qlen l * hi.
Proof.
  induction l as [|z l IH]; intros Hall a.
  - cbn. unfold Qlen, inject_Z. cbn. split; lra.
  - cbn [fold_left].
    destruct (IH (fun y Hy => Hall y (or_intror Hy)) (a + z)) as [H1 H2].
    destruct (Hall z (or_introl eq_refl)) as [Hz1 Hz2].
    assert (E : Qlen (z :: l) == Qlen l + 1).
    { unfold Qlen. cbn [length]. rewrite Nat2Z.inj_succ. unfold Z.succ.
      now rewrite inject_Z_plus. }
    rewrite E. split; nra.
Qed.

(** In the metrics, the average profit lies between the largest loss and the
    largest profit, each of which is the profit of a SELL row of the ledger
    or bounds all of them, and the total return is the average profit times
    the number of trades. *)
Theorem performance_metrics_profit_bounds (e : Engine) (m : Metrics) :
  get_performance_metrics e = inr (MetricsOf m) ->
  max_loss m <= avg_profit m /\ avg_profit m <= max_profit m /\
  total_return m == avg_profit m * inject_Z (Z.of_nat (total_trades m)) /\
  (forall t, In t (trades e) -> is_sell t = true ->
     max_loss m <= trade_profit t <= max_profit m).
Proof.
  unfold get_performance_metrics.
  destruct (trades e) as [|t0 ts] eqn:Ht; [discriminate|].
  set (sells := filter is_sell (t0 :: ts)).
  destruct (map trade_profit sells) as [|p0 ps] eqn:Hp; [discriminate|].
  unfold truediv.
  destruct (Qeq_bool (initial_balance e) 0); [discriminate|].
  intro H. inversion H; subst m; clear H.
  cbn [max_loss avg_profit max_profit total_return total_trades].
  destruct (py_max_spec ps p0) as [Hx0 Hx].
  destruct (py_min_spec ps p0) as [Hn0 Hn].
  assert (Hall : forall y, In y (p0 :: ps) ->
                   py_min p0 ps <= y <= py_max p0 ps).
  { intros y [Hy|Hy]; [subst; split; assumption|split; auto]. }
  destruct (Qsum_from_bounds _ _ _ Hall 0) as [Hlo Hhi].
  fold (Qsum (p0 :: ps)) in Hlo, Hhi.
  pose proof (Qlen_cons_pos p0 ps) as Hpos.
  assert (Hn0' : ~ Qlen (p0 :: ps) == 0) by lra.
  pose proof (quotient_spec (Qsum (p0 :: ps)) (Qlen (p0 :: ps)) Hn0') as Hd.
  assert (Hlen : length sells = length (p0 :: ps))
    by (now rewrite <- Hp, length_map).
  set (avg := Qsum (p0 :: ps) / Qlen (p0 :: ps)) in *.
  split; [nra|]. split; [nra|]. split.
  - rewrite Hlen. fold (Qlen (p0 :: ps)). rewrite Hd. reflexivity.
  - intros t Hin Hs. apply Hall. rewrite <- Hp.
    apply in_map. apply filter_In. split; assumption.
Qed.

Lemma performance_metrics_profit_bounds_witness :
  exists m,
    get_performance_metrics scenario_final = inr (MetricsOf m) /\
    max_loss m <= avg_profit m /\ avg_profit m <= max_profit m /\
    total_return m == avg_profit m * inject_Z (Z.of_nat (total_trades m)) /\
    (forall t, In t (trades scenario_final) -> is_sell t = true ->
       max_loss m <= trade_profit t <= max_profit m).
Proof.
  eexists. split; [vm_compute; reflexivity|].
  apply (performance_metrics_profit_bounds scenario_final).
  vm_compute. reflexivity.
Defined.

(** * Properties of the example strategies *)

(** ** Slices *)

Lemma slice_bound_inside (n : nat) (k : Z) :
  (0 <= k)%Z -> (Z.to_nat k <= n)%nat -> slice_bound n k = Z.to_nat k.
Proof.
  intros H0 Hn. unfold slice_bound.
  destruct (Z.ltb_spec k 0); [lia|]. lia.
Qed.

(** A slice with bounds inside a prefix of the column is a slice of that
    prefix. *)
Lemma iloc_prefix {A} (a b : Z) (i : nat) (l : list A) :
  (0 <= a)%Z -> (a <= b)%Z -> (b <= Z.of_nat i)%Z -> (i <= length l)%nat ->
  iloc a b l = iloc a b (firstn i l).
Proof.
  intros Ha Hab Hb Hi. unfold iloc.
  assert (Hlen : length (firstn i l) = i) by (rewrite length_firstn; lia).
  rewrite Hlen, !slice_bound_inside by lia.
  rewrite skipn_firstn_comm, firstn_firstn. f_equal. lia.
Qed.

Lemma iloc_prefix_eq {A} (a b : Z) (i : nat) (l1 l2 : list A) :
  (0 <= a)%Z -> (a <= b)%Z -> (b <= Z.of_nat i)%Z ->
  (i <= length l1)%nat -> (i <= length l2)%nat ->
  firstn i l1 = firstn i l2 ->
  iloc a b l1 = iloc a b l2.
Proof.
  intros Ha Hab Hb H1 H2 E.
  rewrite (iloc_prefix a b i l1), (iloc_prefix a b i l2) by assumption.
  now rewrite E.
Qed.

(** ** Moving-average crossover *)

Lemma xleb_nan_r (x : xnum) : xleb x NaN = false.
Proof. unfold xleb. cbn. now rewrite andb_false_r. Qed.

Lemma xleb_nan_l (x : xnum) : xleb NaN x = false.
Proof. reflexivity. Qed.

Lemma xleb_not_lt (x y : xnum) : xleb x y = true -> xltb y x = false.
Proof.
  unfold xleb. intro H. apply andb_true_iff in H. destruct H as [_ H].
  now apply negb_true_iff in H.
Qed.

Lemma sma_crossover_early (df : DataFrame) (i : nat) :
  (i <= 20)%nat -> (i < length (rows df))%nat ->
  sma_crossover_strategy df i = 0%Z.
Proof.
  intros Hi Hlen. unfold sma_crossover_strategy, sma_crossover.
  destruct (Z.ltb_spec (Z.of_nat i) 20); [reflexivity|].
  assert (i = 20%nat) by lia. subst i. cbv zeta.
  set (closes := map close (rows df)).
  assert (Hn : (21 <= length closes)%nat)
    by (unfold closes; rewrite length_map; lia).
  assert (E : iloc (-1) 19 closes = []).
  { unfold iloc, slice_bound.
    change (-1 <? 0)%Z with true. change (19 <? 0)%Z with false. cbv iota.
    replace (Z.to_nat (Z.max 0 (Z.of_nat (length closes) + -1)))
      with (length closes - 1)%nat by lia.
    replace (Nat.min (Z.to_nat 19) (length closes)) with 19%nat by lia.
    replace (19 - (length closes - 1))%nat with 0%nat by lia.
    reflexivity. }
  change (Z.of_nat 20 - 20 - 1)%Z with (-1)%Z.
  change (Z.of_nat 20 - 1)%Z with 19%Z.
  rewrite E. cbn [series_mean].
  rewrite xleb_nan_r, xleb_nan_l, !andb_false_r. reflexivity.
Qed.

(** The strategy holds on every bar up to and including position 20: below
    20 by its own guard, and at 20 because the previous long window
    [iloc[-1:19]] starts from the end of the column and is empty, so its mean
    is NaN and both crossing tests fail. *)
Theorem sma_crossover_warm_up (df : DataFrame) (i : nat) :
  (i <= 20)%nat -> (i < length (rows df))%nat ->
  sma_crossover_strategy df i = 0%Z.
Proof. apply sma_crossover_early. Qed.

Lemma sma_crossover_warm_up_witness :
  sma_crossover_strategy (frame_of (repeat 100 25 ++ [200])) 20%nat = 0%Z.
Proof.
  apply (sma_crossover_warm_up (frame_of (repeat 100 25 ++ [200])) 20%nat).
  - lia.
  - vm_compute. lia.
Defined.

(** The strategy never gives the same signal on two consecutive bars: the
    previous windows of a bar are the current windows of the bar before, and
    a crossing needs them to be ordered the other way round. *)
Theorem sma_crossover_no_repeated_signal (df : DataFrame) (i : nat) :
  sma_crossover_strategy df i <> 0%Z ->
  sma_crossover_strategy df (S i) <> sma_crossover_strategy df i.
Proof.
  unfold sma_crossover_strategy, sma_crossover.
  set (closes := map close (rows df)).
  replace (Z.of_nat (S i) - 10 - 1)%Z with (Z.of_nat i - 10)%Z by lia.
  replace (Z.of_nat (S i) - 20 - 1)%Z with (Z.of_nat i - 20)%Z by lia.
  replace (Z.of_nat (S i) - 1)%Z with (Z.of_nat i) by lia.
  destruct (Z.of_nat i <? 20)%Z; [congruence|].
  set (short_sma := series_mean (iloc (Z.of_nat i - 10) (Z.of_nat i) closes)).
  set (long_sma := series_mean (iloc (Z.of_nat i - 20) (Z.of_nat i) closes)).
  cbv zeta.
  destruct (xltb long_sma short_sma && _) eqn:Hbuy.
  - intros _. apply andb_true_iff in Hbuy. destruct Hbuy as [Hlt _].
    destruct (Z.of_nat (S i) <? 20)%Z; [discriminate|].
    destruct (xleb short_sma long_sma) eqn:Hle.
    + apply xleb_not_lt in Hle. congruence.
    + rewrite andb_false_r.
      destruct (_ && xleb long_sma short_sma); discriminate.
  - destruct (xltb short_sma long_sma && _) eqn:Hsell; [|congruence].
    intros _. apply andb_true_iff in Hsell. destruct Hsell as [Hlt _].
    destruct (Z.of_nat (S i) <? 20)%Z; [discriminate|].
    destruct (xleb long_sma short_sma) eqn:Hle.
    + apply xleb_not_lt in Hle. congruence.
    + rewrite !andb_false_r.
      destruct (_ && xleb short_sma long_sma); discriminate.
Qed.

(** The strategy has no lookahead: on two frames whose closes agree before
    position [i], it gives the same signal at [i] (the close of bar [i]
    itself is not read either). *)
Theorem sma_crossover_no_lookahead (df1 df2 : DataFrame) (i : nat) :
  (i < length (rows df1))%nat -> (i < length (rows df2))%nat ->
  firstn i (map close (rows df1)) = firstn i (map close (rows df2)) ->
  sma_crossover_strategy df1 i = sma_crossover_strategy df2 i.
Proof.
  intros H1 H2 E.
  destruct (le_lt_dec i 20) as [Hw|Hw].
  - now rewrite !sma_crossover_early.
  - unfold sma_crossover_strategy, sma_crossover.
    assert (L1 : (i <= length (map close (rows df1)))%nat)
      by (rewrite length_map; lia).
    assert (L2 : (i <= length (map close (rows df2)))%nat)
      by (rewrite length_map; lia).
    rewrite !(iloc_prefix_eq _ _ i (map close (rows df1)) (map close (rows df2)))
      by (trivial; lia).
    reflexivity.
Qed.

Lemma sma_crossover_no_lookahead_witness :
  sma_crossover_strategy (frame_of (repeat 100 22 ++ [1; 2])) 22%nat
  = sma_crossover_strategy (frame_of (repeat 100 22 ++ [300])) 22%nat.
Proof.
  apply (sma_crossover_no_lookahead
           (frame_of (repeat 100 22 ++ [1; 2]))
           (frame_of (repeat 100 22 ++ [300])) 22%nat).
  - vm_compute. lia.
  - vm_compute. lia.
  - vm_compute. reflexivity.
Defined.

Lemma sma_crossover_no_repeated_signal_witness :
  sma_crossover_strategy (frame_of (repeat 100 21 ++ [200; 200; 200])) 23%nat
  <> sma_crossover_strategy (frame_of (repeat 100 21 ++ [200; 200; 200])) 22%nat.
Proof.
  apply (sma_crossover_no_repeated_signal
           (frame_of (repeat 100 21 ++ [200; 200; 200])) 22%nat).
  vm_compute. discriminate.
Defined.

(** ** Relative strength index *)

Lemma length_iloc_inside {A} (a b : Z) (l : list A) :
  (0 <= a)%Z -> (a <= b)%Z -> (Z.to_nat b <= length l)%nat ->
  length (iloc a b l) = Z.to_nat (b - a).
Proof.
  intros Ha Hab Hb. unfold iloc.
  rewrite !slice_bound_inside by lia.
  rewrite length_firstn, length_skipn. lia.
Qed.

Lemma fold_Qplus_bounds_nonneg (l : list Q) :
  (forall y, In y l -> 0 <= y) -> forall a, a <= fold_left Qplus l a.
Proof.
  induction l as [|z l IH]; intros Hall a; cbn [fold_left]; [lra|].
  specialize (IH (fun y Hy => Hall y (or_intror Hy)) (a + z)).
  specialize (Hall z (or_introl eq_refl)). lra.
Qed.

Lemma Qmean_nonneg (x : Q) (l : list Q) :
  (forall y, In y (x :: l) -> 0 <= y) -> 0 <= Qmean (x :: l).
Proof.
  intro Hall. unfold Qmean.
  pose proof (fold_Qplus_bounds_nonneg _ Hall 0) as Hs. fold (Qsum (x :: l)) in Hs.
  pose proof (Qlen_cons_pos x l) as Hn.
  apply Qle_shift_div_l; lra.
Qed.

Lemma rises_nonneg (window : list Q) : forall y, In y (rises window) -> 0 <= y.
Proof.
  destruct window as [|q qs]; [intros y []|]. cbn [rises].
  intros y [Hy|Hy]; [subst y; lra|].
  apply in_map_iff in Hy. destruct Hy as (d & Hd & _). subst y.
  destruct (ltb 0 d) eqn:E; reflect_tests; lra.
Qed.

Lemma falls_nonneg (window : list Q) : forall y, In y (falls window) -> 0 <= y.
Proof.
  destruct window as [|q qs]; [intros y []|]. cbn [falls].
  intros y [Hy|Hy]; [subst y; lra|].
  apply in_map_iff in Hy. destruct Hy as (d & Hd & _). subst y.
  destruct (ltb d 0) eqn:E; reflect_tests; lra.
Qed.

(** The index computed from a gain that is not negative and a positive loss
    is a finite number in [0, 100), below 30 exactly when [7 gain < 3 loss]
    and above 70 exactly when [7 loss < 3 gain]. *)
Lemma rsi_value_spec (gain loss : Q) :
  0 <= gain -> 0 < loss ->
  exists r,
    rsi_value gain loss = Fin r /\ 0 <= r < 100 /\
    (r < 30 <-> 7 * gain < 3 * loss) /\
    (70 < r <-> 7 * loss < 3 * gain).
Proof.
  intros Hg Hl. unfold rsi_value, xdiv.
  assert (Hz : Qeq_bool loss 0 = false) by (apply Qeq_bool_false; lra).
  rewrite Hz.
  assert (Hl0 : ~ loss == 0) by lra.
  pose proof (quotient_spec gain loss Hl0) as Hrs.
  set (rs := gain / loss) in *.
  assert (Hrs0 : 0 <= rs) by (apply Qle_shift_div_l; lra).
  assert (Hz' : Qeq_bool (1 + rs) 0 = false) by (apply Qeq_bool_false; lra).
  rewrite Hz'. cbn [xrsub].
  assert (H1 : ~ 1 + rs == 0) by lra.
  pose proof (quotient_spec 100 (1 + rs) H1) as Ht.
  set (t := 100 / (1 + rs)) in *.
  assert (Ht0 : 0 < t) by (apply Qlt_shift_div_l; lra).
  exists (100 - t). split; [reflexivity|].
  split; [split; nra|]. split; split; intro H; nra.
Qed.

(** From position 14 on, [rsi_strategy] reads the 14 closes before the
    current bar and decides on the mean rise ([gain]) and the mean fall
    ([loss]) of that window alone: it buys exactly when the window has a fall
    and [7 gain < 3 loss] (index below 30), and sells exactly when the window
    has a fall and [7 loss < 3 gain] (index above 70). *)
Theorem rsi_strategy_signal (df : DataFrame) (i : nat) :
  (14 <= i)%nat -> (i <= length (rows df))%nat ->
  let window := iloc (Z.of_nat i - 14) (Z.of_nat i) (map close (rows df)) in
  let gain := Qmean (rises window) in
  let loss := Qmean (falls window) in
  length window = 14%nat /\ 0 <= gain /\ 0 <= loss /\
  (rsi_strategy df i = 1%Z <-> 0 < loss /\ 7 * gain < 3 * loss) /\
  (rsi_strategy df i = (-1)%Z <-> 0 < loss /\ 7 * loss < 3 * gain).
Proof.
  intros Hi Hlen window gain loss.
  assert (Hw : length window = 14%nat).
  { unfold window. rewrite length_iloc_inside; rewrite ?length_map; lia. }
  destruct window as [|w0 ws] eqn:Ew; [discriminate|].
  assert (Hg : 0 <= gain).
  { unfold gain. cbn [rises]. apply Qmean_nonneg.
    apply (rises_nonneg (w0 :: ws)). }
  assert (Hl : 0 <= loss).
  { unfold loss. cbn [falls]. apply Qmean_nonneg.
    apply (falls_nonneg (w0 :: ws)). }
  split; [exact Hw|]. split; [exact Hg|]. split; [exact Hl|].
  unfold rsi_strategy, rsi_signal.
  destruct (Z.ltb_spec (Z.of_nat i) 14); [lia|].
  fold window. rewrite Ew. fold gain loss.
  destruct (Qeq_bool loss 0) eqn:Hz; reflect_tests.
  - split; split; intro H'; try discriminate; lra.
  - assert (Hl' : 0 < loss) by lra.
    destruct (rsi_value_spec gain loss Hg Hl') as (r & Er & Hr & Hlow & Hhigh).
    rewrite Er. cbn [xltb].
    destruct (ltb r 30) eqn:E1; reflect_tests.
    + split; split; intro H'; try discriminate; try reflexivity.
      * split; [exact Hl'|]. now apply Hlow.
      * destruct H' as [_ H']. apply Hhigh in H'. lra.
    + destruct (ltb 70 r) eqn:E2; reflect_tests.
      * split; split; intro H'; try discriminate; try reflexivity.
        -- destruct H' as [_ H']. apply Hlow in H'. lra.
        -- split; [exact Hl'|]. now apply Hhigh.
      * split; split; intro H'; try discriminate.
        -- destruct H' as [_ H']. apply Hlow in H'. lra.
        -- destruct H' as [_ H']. apply Hhigh in H'. lra.
Qed.

Lemma rsi_strategy_signal_witness :
  let window := iloc (Z.of_nat 14 - 14) (Z.of_nat 14)
                     (map close (rows (frame_of (repeat 100 13 ++ [50; 60])))) in
  let gain := Qmean (rises window) in
  let loss := Qmean (falls window) in
  length window = 14%nat /\ 0 <= gain /\ 0 <= loss /\
  (rsi_strategy (frame_of (repeat 100 13 ++ [50; 60])) 14%nat = 1%Z
   <-> 0 < loss /\ 7 * gain < 3 * loss) /\
  (rsi_strategy (frame_of (repeat 100 13 ++ [50; 60])) 14%nat = (-1)%Z
   <-> 0 < loss /\ 7 * loss < 3 * gain).
Proof.
  apply (rsi_strategy_signal (frame_of (repeat 100 13 ++ [50; 60])) 14%nat).
  - lia.
  - vm_compute. lia.
Defined.

Lemma fold_Qplus_zeros (l : list Q) :
  (forall y, In y l -> y == 0) -> forall a, fold_left Qplus l a == a.
Proof.
  induction l as [|z l IH]; intros Hall a; cbn [fold_left]; [reflexivity|].
  rewrite (IH (fun y Hy => Hall y (or_intror Hy))).
  rewrite (Hall z (or_introl eq_refl)). ring.
Qed.

Lemma diff_from_rising (qs : list Q) :
  forall q, rising_from q qs -> forall d, In d (diff_from q qs) -> 0 <= d.
Proof.
  induction qs as [|x qs IH]; intros q Hr d Hd; [destruct Hd|].
  destruct Hr as [Hle Hr]. destruct Hd as [Hd|Hd].
  - subst d. lra.
  - exact (IH x Hr d Hd).
Qed.

(** On a window in which no close is below the one before it, the strategy
    holds: the mean fall is 0 and the code returns before computing the
    index, which would be at its overbought extreme. *)
Theorem rsi_strategy_holds_without_fall (df : DataFrame) (i : nat)
    (w0 : Q) (ws : list Q) :
  iloc (Z.of_nat i - 14) (Z.of_nat i) (map close (rows df)) = w0 :: ws ->
  rising_from w0 ws ->
  rsi_strategy df i = 0%Z.
Proof.
  intros Ew Hr. unfold rsi_strategy, rsi_signal.
  destruct (Z.of_nat i <? 14)%Z; [reflexivity|].
  rewrite Ew.
  assert (Hz : Qmean (falls (w0 :: ws)) == 0).
  { unfold Qmean, Qsum. rewrite fold_Qplus_zeros.
    - unfold Qdiv. ring.
    - cbn [falls]. intros y [Hy|Hy]; [subst y; reflexivity|].
      apply in_map_iff in Hy. destruct Hy as (d & Hd & Hin). subst y.
      pose proof (diff_from_rising ws w0 Hr d Hin) as H0.
      assert (E : ltb d 0 = false) by (apply ltb_false; exact H0).
      rewrite E. reflexivity. }
  apply Qeq_bool_iff in Hz. now rewrite Hz.
Qed.

Lemma rsi_strategy_holds_without_fall_witness :
  rsi_strategy (frame_of [1; 2; 3; 4; 5; 6; 7; 8; 9; 10; 11; 12; 13; 14; 15])
               14%nat = 0%Z.
Proof.
  apply (rsi_strategy_holds_without_fall
           (frame_of [1; 2; 3; 4; 5; 6; 7; 8; 9; 10; 11; 12; 13; 14; 15])
           14%nat 1 [2; 3; 4; 5; 6; 7; 8; 9; 10; 11; 12; 13; 14]).
  - reflexivity.
  - cbn. repeat split; discriminate.
Defined.

(** [rsi_strategy] has no lookahead: on two frames whose closes agree before
    position [i], it gives the same signal at [i]. *)
Theorem rsi_strategy_no_lookahead (df1 df2 : DataFrame) (i : nat) :
  (i <= length (rows df1))%nat -> (i <= length (rows df2))%nat ->
  firstn i (map close (rows df1)) = firstn i (map close (rows df2)) ->
  rsi_strategy df1 i = rsi_strategy df2 i.
Proof.
  intros H1 H2 E. unfold rsi_strategy, rsi_signal.
  destruct (Z.ltb_spec (Z.of_nat i) 14); [reflexivity|].
  rewrite (iloc_prefix_eq _ _ i (map close (rows df1)) (map close (rows df2)));
    rewrite ?length_map; trivial; lia.
Qed.

Lemma rsi_strategy_no_lookahead_witness :
  rsi_strategy (frame_of (repeat 100 13 ++ [50; 60; 70])) 14%nat
  = rsi_strategy (frame_of (repeat 100 13 ++ [50; 999])) 14%nat.
Proof.
  apply (rsi_strategy_no_lookahead
           (frame_of (repeat 100 13 ++ [50; 60; 70]))
           (frame_of (repeat 100 13 ++ [50; 999])) 14%nat).
  - vm_compute. lia.
  - vm_compute. lia.
  - vm_compute. reflexivity.
Defined.

(** * Further properties of the analytics *)

(** ** Sharpe and Sortino ratios *)

Lemma ratio_finite_mean (q var : Q) :
  Qeq_bool var 0 = false ->
  ratio (Fin q) (Some var) = SNaN \/
  (ratio (Fin q) (Some var) = Ratio q var /\ 0 < var).
Proof.
  intro Hz. unfold ratio. rewrite Hz.
  destruct (ltb var 0) eqn:E; [now left|right].
  reflect_tests. split; [reflexivity|lra].
Qed.

Lemma finite_values_length (xs : list xnum) (qs : list Q) :
  finite_values xs = Some qs -> (length qs <= length xs)%nat.
Proof.
  revert qs. induction xs as [|x xs IH]; intros qs H.
  - inversion H. cbn. lia.
  - destruct x; cbn in H; try discriminate.
    + destruct (finite_values xs) as [qs'|]; [|discriminate].
      inversion H; subst. specialize (IH qs' eq_refl). cbn. lia.
    + specialize (IH qs H). cbn. lia.
Qed.

Lemma xmean_finite (xs : list xnum) (q : Q) (qs : list Q) :
  finite_values xs = Some (q :: qs) -> xmean xs = Fin (Qmean (q :: qs)).
Proof. intro H. unfold xmean. now rewrite H. Qed.

(** [calculate_sharpe_ratio] never returns an infinity: its result is the
    literal 0, NaN, or a quotient of a finite mean by the root of a positive
    variance. *)
Theorem sharpe_ratio_is_never_infinite (equity_df : list EquityPoint) (rf : Q) :
  calculate_sharpe_ratio equity_df rf = Lit0 \/
  calculate_sharpe_ratio equity_df rf = SNaN \/
  exists mean var,
    calculate_sharpe_ratio equity_df rf = Ratio mean var /\ 0 < var.
Proof.
  unfold calculate_sharpe_ratio.
  destruct (is_empty equity_df || _); [now left|].
  destruct (length _ =? 0)%nat; [now left|].
  set (excess := map _ _).
  destruct (std_sq excess) as [var|] eqn:Hs; [|right; left; reflexivity].
  cbn [std_is_zero]. destruct (Qeq_bool var 0) eqn:Hz; [now left|].
  right. unfold std_sq in Hs.
  destruct (finite_values excess) as [qs|] eqn:Hf; [|discriminate].
  destruct (length qs <? 2)%nat eqn:Hl; [discriminate|].
  destruct qs as [|q qs]; [discriminate|].
  rewrite (xmean_finite _ _ _ Hf).
  destruct (ratio_finite_mean (Qmean (q :: qs)) var Hz) as [E|[E Hv]];
    rewrite E; [now left|right; eauto].
Qed.

(** When exactly one excess return is negative, [calculate_sortino_ratio] is
    NaN: the downside deviation is the sample deviation of a single value,
    NaN under [ddof = 1], which the test [std() == 0] lets through. *)
Theorem sortino_single_loss_gives_nan (equity_df : list EquityPoint) (rf : Q) :
  length
    (filter (fun x => xltb x (Fin 0))
       (map (fun r => xsub r (rf / 252)) (dropna (returns_column equity_df))))
    = 1%nat ->
  calculate_sortino_ratio equity_df rf = SNaN.
Proof.
  intro H. unfold calculate_sortino_ratio.
  set (returns := dropna (returns_column equity_df)) in *.
  set (excess := map (fun r => xsub r (rf / 252)) returns) in *.
  set (downside := filter (fun x => xltb x (Fin 0)) excess) in *.
  assert (Hne : (1 <= length returns)%nat).
  { assert (Hle : (length downside <= length excess)%nat)
      by apply filter_length_le.
    unfold excess in Hle. rewrite length_map in Hle. lia. }
  assert (Heq : (2 <= length equity_df)%nat).
  { assert (Hle : (length returns <= length (returns_column equity_df))%nat)
      by apply filter_length_le.
    unfold returns_column in Hle.
    destruct equity_df as [|p0 [|p1 rest]]; cbn in *; lia. }
  destruct equity_df as [|p0 [|p1 rest]]; try (cbn in Heq; lia).
  cbn [is_empty length Nat.ltb Nat.leb orb].
  destruct (length returns =? 0)%nat eqn:E0; [apply Nat.eqb_eq in E0; lia|].
  rewrite H. cbn [Nat.eqb orb].
  destruct downside as [|d [|d' ds]] eqn:Ed; try discriminate.
  assert (Hs : std_sq [d] = None).
  { unfold std_sq. destruct d; cbn; reflexivity. }
  rewrite Hs. reflexivity.
Qed.

Lemma sortino_single_loss_gives_nan_witness :
  calculate_sortino_ratio (curve_of [100; 110; 99; 120; 130]) 0 = SNaN.
Proof.
  apply (sortino_single_loss_gives_nan (curve_of [100; 110; 99; 120; 130]) 0).
  reflexivity.
Defined.

Lemma pct_change_from_positive (vs : list Q) :
  forall prev, 0 < prev -> Forall (fun v => 0 < v) vs ->
    exists qs, pct_change_from prev vs = map Fin qs /\ length qs = length vs.
Proof.
  induction vs as [|v vs IH]; intros prev Hp Hall.
  - exists []. split; reflexivity.
  - inversion Hall as [|? ? Hv Hrest]; subst.
    destruct (IH v Hv Hrest) as (qs & E & Hl).
    cbn [pct_change_from]. unfold xdiv.
    assert (Hz : Qeq_bool prev 0 = false) by (apply Qeq_bool_false; lra).
    rewrite Hz. cbn [xsub]. rewrite E.
    exists ((v / prev - 1) :: qs). split; [reflexivity|]. cbn. now rewrite Hl.
Qed.

Lemma dropna_map_Fin (qs : list Q) : dropna (map Fin qs) = map Fin qs.
Proof.
  unfold dropna. induction qs as [|q qs IH]; cbn; [reflexivity|].
  now rewrite IH.
Qed.

Lemma finite_values_map_Fin (qs : list Q) :
  finite_values (map Fin qs) = Some qs.
Proof.
  induction qs as [|q qs IH]; cbn; [reflexivity|]. now rewrite IH.
Qed.

Lemma Qvar_nonneg (q1 q2 : Q) (qs : list Q) : 0 <= Qvar (q1 :: q2 :: qs).
Proof.
  unfold Qvar. set (l := q1 :: q2 :: qs).
  assert (Hs : 0 <= Qsum (map (fun q => (q - Qmean l) * (q - Qmean l)) l)).
  { unfold Qsum. apply fold_Qplus_bounds_nonneg.
    intros y Hy. apply in_map_iff in Hy. destruct Hy as (q & Hq & _).
    subst y. set (x := q - Qmean l). clearbody x. nra. }
  assert (Hn : 0 < Qlen l - 1).
  { unfold l, Qlen. cbn [length]. rewrite !Nat2Z.inj_succ. unfold Z.succ.
    rewrite !inject_Z_plus.
    assert (0 <= inject_Z (Z.of_nat (length qs))).
    { change 0 with (inject_Z 0). rewrite <- Zle_Qle. lia. }
    change (inject_Z 1) with 1. lra. }
  apply Qle_shift_div_l; lra.
Qed.

(** On an equity curve of positive values, [calculate_sharpe_ratio] is NaN
    exactly when the curve has two points: the one return has no sample
    deviation.  (With fewer points the guard returns 0; with more the
    deviation exists.) *)
Theorem sharpe_nan_iff_two_points (equity_df : list EquityPoint) (rf : Q) :
  Forall (fun p => 0 < portfolio_value p) equity_df ->
  (calculate_sharpe_ratio equity_df rf = SNaN <-> length equity_df = 2%nat).
Proof.
  intro Hpos. unfold calculate_sharpe_ratio, returns_column.
  destruct equity_df as [|p0 rest]; [cbn; split; discriminate|].
  inversion Hpos as [|? ? H0 Hrest]; subst.
  assert (Hrest' : Forall (fun v => 0 < v) (map portfolio_value rest)).
  { apply Forall_map. exact Hrest. }
  destruct (pct_change_from_positive _ _ H0 Hrest') as (qs & E & Hl).
  rewrite length_map in Hl.
  cbn [map pct_change is_empty orb]. rewrite E.
  unfold dropna. cbn [filter is_nan negb]. fold (dropna (map Fin qs)).
  rewrite dropna_map_Fin, map_map. cbn [xsub].
  rewrite <- (map_map (fun q => q - rf / 252) Fin).
  set (excess := map (fun q => q - rf / 252) qs).
  assert (Hle : length excess = length rest)
    by (unfold excess; now rewrite length_map).
  rewrite !length_map. unfold std_sq. rewrite finite_values_map_Fin, Hle.
  cbn [length]. rewrite Hl.
  destruct rest as [|p1 [|p2 rest']].
  - cbn. split; discriminate.
  - cbn. split; reflexivity.
  - cbn [length Nat.ltb Nat.leb Nat.eqb].
    split; [|intro H; cbn in H; lia]. intro H. exfalso.
    cbn [std_is_zero] in H.
    destruct (Qeq_bool (Qvar excess) 0) eqn:Hz; [discriminate|].
    destruct excess as [|q1 [|q2 qs']] eqn:Ee; try (cbn in Hle; lia).
    unfold xmean in H. rewrite finite_values_map_Fin in H.
    destruct (ratio_finite_mean (Qmean (q1 :: q2 :: qs'))
                (Qvar (q1 :: q2 :: qs')) Hz) as [Hn|[Hr _]].
    + unfold ratio in Hn. rewrite Hz in Hn.
      destruct (ltb (Qvar (q1 :: q2 :: qs')) 0) eqn:Hneg.
      * reflect_tests. pose proof (Qvar_nonneg q1 q2 qs'). lra.
      * discriminate.
    + rewrite Hr in H. discriminate.
Qed.

Lemma sharpe_nan_iff_two_points_witness :
  calculate_sharpe_ratio (curve_of [100; 120]) 0.02 = SNaN <->
  length (curve_of [100; 120]) = 2%nat.
Proof.
  apply (sharpe_nan_iff_two_points (curve_of [100; 120]) 0.02).
  repeat constructor.
Defined.

(** ** The maximum drawdown of a curve of positive values *)

Lemma drawdown_positive_from (vs : list Q) :
  forall m, 0 < m -> Forall (fun v => 0 < v) vs ->
    Forall shallow_entry
      (map (fun vp => xdiv (fst vp - snd vp) (snd vp))
           (combine vs (expanding_max_from m vs))).
Proof.
  induction vs as [|v vs IH]; intros m Hm Hall; cbn; [constructor|].
  inversion Hall as [|? ? Hv Hrest]; subst.
  set (p := if ltb m v then v else m).
  assert (Hp : v <= p /\ 0 < p).
  { subst p. destruct (ltb m v) eqn:E; reflect_tests; split; lra. }
  destruct Hp as [Hvp Hp0].
  constructor.
  - unfold xdiv.
    assert (Hz : Qeq_bool p 0 = false) by (apply Qeq_bool_false; lra).
    rewrite Hz. eexists. split; [reflexivity|]. cbn [fst snd].
    assert (Hn : ~ p == 0) by lra.
    pose proof (quotient_spec (v - p) p Hn) as Hd.
    set (z := (v - p) / p) in *. split; nra.
  - now apply IH.
Qed.

Lemma drawdown_positive (vs : list Q) :
  Forall (fun v => 0 < v) vs -> Forall shallow_entry (drawdown_series vs).
Proof.
  destruct vs as [|v vs]; intro Hall; [constructor|].
  inversion Hall as [|? ? Hv Hrest]; subst.
  unfold drawdown_series. cbn [expanding_max combine map fst snd].
  constructor.
  - unfold xdiv.
    assert (Hz : Qeq_bool v 0 = false) by (apply Qeq_bool_false; lra).
    rewrite Hz. eexists. split; [reflexivity|].
    assert (E : (v - v) / v == 0) by (field; lra). rewrite E. split; lra.
  - now apply drawdown_positive_from.
Qed.

Lemma drawdown_first_is_zero (v : Q) (vs : list Q) :
  0 < v -> exists z, nth 0 (drawdown_series (v :: vs)) NaN = Fin z /\ z == 0.
Proof.
  intro Hv. unfold drawdown_series. cbn [expanding_max combine map fst snd nth].
  unfold xdiv.
  assert (Hz : Qeq_bool v 0 = false) by (apply Qeq_bool_false; lra).
  rewrite Hz. eexists. split; [reflexivity|]. field. lra.
Qed.

Lemma Forall_nth_in {A} (P : A -> Prop) (l : list A) (d : A) (k : nat) :
  Forall P l -> (k < length l)%nat -> P (nth k l d).
Proof.
  intros H Hk. rewrite Forall_forall in H. apply H. now apply nth_In.
Qed.

Lemma idxmin_exists (xs : list xnum) :
  (exists k, is_nan (nth k xs NaN) = false) -> exists t, idxmin xs = Some t.
Proof.
  intros (k & Hk). unfold idxmin.
  assert (S := argmin_from_spec xs 0 None).
  destruct (argmin_from 0 None xs) as [[t v]|]; [exists t; reflexivity|].
  destruct S as (_ & Hnan); [intros; discriminate|].
  rewrite Hnan in Hk. discriminate.
Qed.

(** When the trough is not the first point, the function returns the minimum
    of the drawdown series and two timestamps of the frame. *)
Lemma max_drawdown_returns (equity_df : list EquityPoint) (t : nat) :
  idxmin (drawdown_series (map portfolio_value equity_df)) = Some t ->
  (0 < t)%nat ->
  exists start_date end_date,
    calculate_max_drawdown equity_df =
      inr (series_min (drawdown_series (map portfolio_value equity_df)),
           xscale (series_min (drawdown_series (map portfolio_value equity_df))) 100,
           Some start_date, Some end_date).
Proof.
  intros Hmin Ht.
  set (vs := map portfolio_value equity_df) in *.
  destruct (idxmin_spec _ _ Hmin) as (Hlen & _).
  rewrite length_drawdown_series in Hlen.
  assert (Hpk : length (firstn t (expanding_max vs)) = t).
  { rewrite length_firstn, length_expanding_max. lia. }
  destruct (idxmax (firstn t (expanding_max vs))) as [s|] eqn:Hmax.
  2:{ apply idxmax_none in Hmax. rewrite Hmax in Hpk. cbn in Hpk. lia. }
  destruct (idxmax_spec _ _ Hmax) as (Hs & _). rewrite Hpk in Hs.
  unfold vs in Hlen. rewrite length_map in Hlen.
  destruct (nth_error equity_df s) as [ps|] eqn:Es;
    [|apply nth_error_None in Es; lia].
  destruct (nth_error equity_df t) as [pt|] eqn:Et;
    [|apply nth_error_None in Et; lia].
  exists (timestamp ps), (timestamp pt).
  unfold calculate_max_drawdown, drawdown_labels. fold vs.
  destruct equity_df as [|p0 rest]; [cbn in Hlen; lia|]. cbn [is_empty].
  rewrite Hmin, Hmax. unfold timestamp_at. now rewrite Es, Et.
Qed.

(** On a non-empty equity curve of positive values the minimum drawdown [d]
    is a finite number with [-1 < d <= 0].  When it is negative,
    [calculate_max_drawdown] returns it together with its percentage
    [100 d] and two timestamps; when it is 0 the function raises
    [ValueError]. *)
Theorem max_drawdown_of_positive_curve (equity_df : list EquityPoint) :
  equity_df <> [] ->
  Forall (fun p => 0 < portfolio_value p) equity_df ->
  exists d,
    series_min (drawdown_series (map portfolio_value equity_df)) = Fin d /\
    -1 < d /\ d <= 0 /\
    (d < 0 ->
     exists start_date end_date,
       calculate_max_drawdown equity_df =
         inr (Fin d, Fin (d * 100), Some start_date, Some end_date)) /\
    (d == 0 -> calculate_max_drawdown equity_df = inl ValueError).
Proof.
  intros Hne Hpos.
  destruct equity_df as [|p0 rest]; [congruence|].
  assert (Hv0 : 0 < portfolio_value p0) by (inversion Hpos; assumption).
  destruct (drawdown_first_is_zero (portfolio_value p0)
              (map portfolio_value rest) Hv0) as (z0 & E0 & Hz0).
  change (portfolio_value p0 :: map portfolio_value rest)
    with (map portfolio_value (p0 :: rest)) in E0.
  set (vs := map portfolio_value (p0 :: rest)) in *.
  assert (Hvs : Forall (fun v => 0 < v) vs) by (apply Forall_map; exact Hpos).
  pose proof (drawdown_positive vs Hvs) as Hsh.
  destruct (idxmin_exists (drawdown_series vs)) as (t & Hmin).
  { exists 0%nat. now rewrite E0. }
  destruct (idxmin_spec _ _ Hmin) as (Hlen & Hval & _ & _ & Hearly).
  destruct (Forall_nth_in _ _ NaN t Hsh Hlen) as (d & Ed & Hd1 & Hd2).
  rewrite Hval in Ed. exists d. split; [exact Ed|].
  split; [exact Hd1|]. split; [exact Hd2|].
  destruct t as [|t'].
  - assert (Hd0 : d == 0).
    { rewrite <- Hval, E0 in Ed. inversion Ed; subst. exact Hz0. }
    split; [intro H; lra|]. intros _.
    now apply max_drawdown_trough_first.
  - assert (Hneg : d < 0).
    { destruct (Hearly 0%nat) as [Hn|Hl]; [lia| |].
      - rewrite E0 in Hn. discriminate.
      - rewrite E0, Ed in Hl. cbn in Hl. reflect_tests. lra. }
    split; [|intro H; lra]. intros _.
    destruct (max_drawdown_returns (p0 :: rest) (S t') Hmin) as (sd & ed & Hr);
      [lia|].
    exists sd, ed. rewrite Hr. fold vs. rewrite Ed. reflexivity.
Qed.

Lemma max_drawdown_of_positive_curve_witness :
  exists d,
    series_min (drawdown_series
                  (map portfolio_value (curve_of [100; 90; 80; 95]))) = Fin d /\
    -1 < d /\ d <= 0 /\
    (d < 0 ->
     exists start_date end_date,
       calculate_max_drawdown (curve_of [100; 90; 80; 95]) =
         inr (Fin d, Fin (d * 100), Some start_date, Some end_date)) /\
    (d == 0 ->
     calculate_max_drawdown (curve_of [100; 90; 80; 95]) = inl ValueError).
Proof.
  apply (max_drawdown_of_positive_curve (curve_of [100; 90; 80; 95])).
  - discriminate.
  - repeat constructor.
Defined.

(** ** Number of drawdown episodes *)

Lemma runs_from_length (l : list bool) :
  forall i start_idx,
    (2 * length (runs_from i l start_idx)
     <= length l + match start_idx with Some _ => 1 | None => 0 end)%nat.
Proof.
  induction l as [|b l IH]; intros i start_idx; cbn [runs_from length].
  - destruct start_idx; lia.
  - destruct b, start_idx as [s|].
    + specialize (IH (S i) (Some s)). cbv iota in IH. lia.
    + specialize (IH (S i) (Some i)). cbv iota in IH. lia.
    + specialize (IH (S i) None). cbv iota in IH. cbn [length]. lia.
    + specialize (IH (S i) None). cbv iota in IH. lia.
Qed.

(** [drawdown_analysis] returns at most one row for every two equity
    points: a row needs a run of at least one point and a later point that
    closes it. *)
Theorem drawdown_episodes_at_most_half (equity_df : list EquityPoint) :
  (2 * length (drawdown_analysis equity_df) <= length equity_df)%nat.
Proof.
  unfold drawdown_analysis.
  destruct equity_df as [|p0 rest]; [cbn; lia|]. cbn [is_empty].
  rewrite scan_drawdown_runs. cbn [app]. rewrite length_map.
  set (dd := drawdown_pct_series (map portfolio_value (p0 :: rest))).
  pose proof (runs_from_length (in_drawdown_column dd) 0 None) as H.
  unfold in_drawdown_column, dd, drawdown_pct_series in H.
  rewrite !length_map, length_drawdown_series, length_map in H.
  unfold dd, in_drawdown_column, drawdown_pct_series. lia.
Qed.

Lemma runs_from_all_false (l : list bool) :
  Forall (fun b => b = false) l -> forall i, runs_from i l None = [].
Proof.
  induction 1 as [|b l Hb _ IH]; intro i; [reflexivity|].
  subst b. cbn [runs_from]. apply IH.
Qed.

Lemma drawdown_never_declines (vs : list Q) :
  never_declines vs -> Forall zero_entry (drawdown_series vs).
Proof.
  destruct vs as [|v vs]; [intros []|]. intros [Hv Hr].
  unfold drawdown_series. cbn [expanding_max combine map fst snd].
  constructor.
  - unfold xdiv.
    assert (Hz : Qeq_bool v 0 = false) by (apply Qeq_bool_false; lra).
    rewrite Hz. eexists. split; [reflexivity|]. field. lra.
  - apply (drawdown_rising_from vs v v); trivial. reflexivity.
Qed.

Lemma no_episode_without_decline (equity_df : list EquityPoint) :
  never_declines (map portfolio_value equity_df) ->
  drawdown_analysis equity_df = [].
Proof.
  intro H. unfold drawdown_analysis.
  destruct equity_df as [|p0 rest]; [reflexivity|]. cbn [is_empty].
  rewrite scan_drawdown_runs, runs_from_all_false; [reflexivity|].
  unfold in_drawdown_column, drawdown_pct_series. rewrite map_map.
  apply Forall_map.
  eapply Forall_impl; [|exact (drawdown_never_declines _ H)].
  intros x (z & Ex & Hz). subst x. cbn [xscale xltb].
  apply ltb_false. rewrite Hz. discriminate.
Qed.

(** ** A backtest without trades, seen by the analytics *)

Lemma marked_never_declines (b c : Q) (row : Bar) (rs : list Bar) :
  0 < b ->
  never_declines (map portfolio_value (marked (fresh b c) (row :: rs))).
Proof.
  intro Hb. unfold marked. cbn [map portfolio_value point_of never_declines].
  cbn [balance position fresh]. split; [lra|].
  generalize (close row) as c0. induction rs as [|r rs IH]; intro c0; cbn.
  - exact I.
  - split; [lra|]. apply IH.
Qed.

(** After a backtest in which the strategy never signals, over at least one
    bar and from a positive balance, the summary reports "no trades", the
    drawdown analysis finds no episode, and [calculate_max_drawdown] raises
    [ValueError] on the flat equity curve the run has produced. *)
Theorem no_trade_backtest_analytics (df : DataFrame) (strategy_func : Strategy)
    (b c : Q) :
  well_formed df -> holds strategy_func df -> rows df <> [] -> 0 < b ->
  exists e',
    run_backtest df strategy_func (fresh b c) = (e', inr tt) /\
    get_performance_metrics e' = inr NoTradesExecuted /\
    drawdown_analysis (equity_curve e') = [] /\
    calculate_max_drawdown (equity_curve e') = inl ValueError.
Proof.
  intros [Hc Ht] Hh Hne Hb. exists (idled (fresh b c) (rows df)).
  split.
  - unfold run_backtest.
    apply (iterrows_idle (fun _ => True)); trivial.
    intros e0 k row _ Hk. rewrite bar_step_eq by assumption. cbv zeta.
    destruct (Hh k) as [H1 H2].
    { apply nth_error_Some. congruence. }
    cbn [Nat.add]. apply Z.eqb_neq in H1, H2. now rewrite H1, H2.
  - destruct (rows df) as [|row rs]; [congruence|].
    pose proof (marked_never_declines b c row rs Hb) as Hnd.
    cbn [idled equity_curve fresh app].
    split; [reflexivity|]. split.
    + now apply no_episode_without_decline.
    + apply max_drawdown_trough_first.
      destruct (argmin_never_declines _ Hnd) as (z & Hz & _).
      unfold idxmin. now rewrite Hz.
Qed.

Lemma no_trade_backtest_analytics_witness :
  exists e',
    run_backtest scenario_frame (signals []) (fresh 10000 0.001) = (e', inr tt) /\
    get_performance_metrics e' = inr NoTradesExecuted /\
    drawdown_analysis (equity_curve e') = [] /\
    calculate_max_drawdown (equity_curve e') = inl ValueError.
Proof.
  apply (no_trade_backtest_analytics scenario_frame (signals []) 10000 0.001).
  - split; reflexivity.
  - intros i _. unfold signals. destruct i; cbn; split; discriminate.
  - discriminate.
  - reflexivity.
Defined.

(** Over a frame of at most 21 bars, a backtest driven by
    [sma_crossover_strategy] never trades: the strategy holds on every bar
    up to position 20, so the ledger, the balance and the position are
    untouched and only equity points are appended. *)
Theorem sma_backtest_needs_22_bars (df : DataFrame) (e : Engine) :
  well_formed df -> (length (rows df) <= 21)%nat ->
  exists e',
    run_backtest df sma_crossover_strategy e = (e', inr tt) /\
    trades e' = trades e /\ balance e' = balance e /\
    position e' = position e /\
    length (equity_curve e') = (length (equity_curve e) + length (rows df))%nat.
Proof.
  intros [Hc Ht] Hlen. exists (idled e (rows df)). split.
  - unfold run_backtest.
    apply (iterrows_idle (fun _ => True)); trivial.
    intros e0 k row _ Hk. rewrite bar_step_eq by assumption. cbv zeta.
    assert (Hk' : (k < length (rows df))%nat)
      by (apply nth_error_Some; congruence).
    cbn [Nat.add]. rewrite sma_crossover_early by lia. reflexivity.
  - cbn. repeat split. unfold marked. now rewrite length_app, length_map.
Qed.

Lemma sma_backtest_needs_22_bars_witness :
  exists e',
    run_backtest scenario_frame sma_crossover_strategy scenario_engine
      = (e', inr tt) /\
    trades e' = trades scenario_engine /\ balance e' = balance scenario_engine /\
    position e' = position scenario_engine /\
    length (equity_curve e')
      = (length (equity_curve scenario_engine) + length (rows scenario_frame))%nat.
Proof.
  apply (sma_backtest_needs_22_bars scenario_frame scenario_engine).
  - split; reflexivity.
  - vm_compute. lia.
Defined.

(** * Properties of the period table *)

(** ** Group keys *)

Lemma insert_key_In (k k' : Z) (ks : list Z) :
  In k' (insert_key k ks) <-> k' = k \/ In k' ks.
Proof.
  induction ks as [|x ks IH]; cbn.
  - intuition.
  - destruct (Z.ltb_spec k x); [cbn; intuition|].
    destruct (Z.eqb_spec k x); [subst; cbn; intuition|].
    cbn. rewrite IH. intuition.
Qed.

Lemma insert_key_sorted (k : Z) (ks : list Z) :
  StronglySorted Z.lt ks -> StronglySorted Z.lt (insert_key k ks).
Proof.
  induction 1 as [|x ks Hs IH Hall]; cbn.
  - repeat constructor.
  - destruct (Z.ltb_spec k x).
    + constructor; [now constructor|].
      constructor; [assumption|].
      eapply Forall_impl; [|exact Hall]. intros y Hy. cbn in Hy. lia.
    + destruct (Z.eqb_spec k x); [now constructor|].
      constructor; [assumption|].
      apply Forall_forall. intros y Hy. apply insert_key_In in Hy.
      destruct Hy as [Hy|Hy]; [subst; lia|].
      rewrite Forall_forall in Hall. now apply Hall.
Qed.

Lemma group_keys_In (k : Z) (ks : list Z) : In k (group_keys ks) <-> In k ks.
Proof.
  induction ks as [|x ks IH]; cbn; [tauto|].
  rewrite insert_key_In, IH. intuition.
Qed.

Lemma group_keys_sorted (ks : list Z) : StronglySorted Z.lt (group_keys ks).
Proof.
  induction ks as [|x ks IH]; cbn; [constructor|].
  now apply insert_key_sorted.
Qed.

Lemma map_period_rows (to_period : Z -> Z) (table : list (EquityPoint * xnum))
    (ks : list Z) :
  map ByPeriod.period (map (period_row to_period table) ks) = ks.
Proof.
  induction ks as [|k ks IH]; cbn; [reflexivity|]. now rewrite IH.
Qed.

(** [performance_by_period] returns one row for each period that holds at
    least one equity point, and no row for any other period; the rows come in
    ascending order of their period, each period once. *)
Theorem period_rows_are_the_periods_present (to_period : Z -> Z)
    (equity_df : list EquityPoint) :
  StronglySorted Z.lt
    (map ByPeriod.period (performance_by_period to_period equity_df)) /\
  forall k,
    In k (map ByPeriod.period (performance_by_period to_period equity_df)) <->
    exists p, In p equity_df /\ to_period (timestamp p) = k.
Proof.
  unfold performance_by_period.
  destruct equity_df as [|p0 rest].
  - cbn. split; [constructor|]. intro k. split; [tauto|].
    intros (p & [] & _).
  - cbn [is_empty]. rewrite map_period_rows. split.
    + apply group_keys_sorted.
    + intro k. rewrite group_keys_In, in_map_iff. split.
      * intros (p & E & Hin). eauto.
      * intros (p & Hin & E). eauto.
Qed.

(** ** Counting over the groups *)

Lemma sorted_lt_NoDup (ks : list Z) : StronglySorted Z.lt ks -> NoDup ks.
Proof.
  induction 1 as [|x ks Hs IH Hall]; constructor; trivial.
  intro Hin. rewrite Forall_forall in Hall. specialize (Hall x Hin). lia.
Qed.

Lemma list_sum_map_add {A} (f g : A -> nat) (l : list A) :
  list_sum (map (fun k => f k + g k)%nat l)
  = (list_sum (map f l) + list_sum (map g l))%nat.
Proof.
  unfold list_sum. induction l as [|x l IH]; cbn; [reflexivity|].
  rewrite IH. lia.
Qed.

Lemma list_sum_indicator (x : Z) (c : nat) (ks : list Z) :
  NoDup ks ->
  list_sum (map (fun k => if (x =? k)%Z then c else 0%nat) ks)
  = if in_dec Z.eq_dec x ks then c else 0%nat.
Proof.
  induction 1 as [|k ks Hk Hnd IH]; [reflexivity|].
  change (list_sum (map (fun k0 => if (x =? k0)%Z then c else 0%nat) (k :: ks)))
    with ((if (x =? k)%Z then c else 0%nat)
          + list_sum (map (fun k0 => if (x =? k0)%Z then c else 0%nat) ks))%nat.
  rewrite IH. destruct (Z.eqb_spec x k) as [E|E].
  - subst k. destruct (in_dec Z.eq_dec x ks) as [Hin|_]; [contradiction|].
    destruct (in_dec Z.eq_dec x (x :: ks)) as [_|Hn]; [lia|].
    exfalso. apply Hn. now left.
  - destruct (in_dec Z.eq_dec x ks) as [Hin|Hn];
      destruct (in_dec Z.eq_dec x (k :: ks)) as [Hin'|Hn']; try lia.
    + exfalso. apply Hn'. now right.
    + exfalso. destruct Hin' as [Hin'|Hin']; [congruence|contradiction].
Qed.

(** Counting the rows that satisfy [P] group by group counts every such row
    once, when every row's key is among the keys and no key is repeated. *)
Lemma group_counts_add_up {A} (key : A -> Z) (P : A -> bool) (ks : list Z) :
  NoDup ks ->
  forall table : list A,
    (forall r, In r table -> In (key r) ks) ->
    list_sum
      (map (fun k => length (filter P (filter (fun r => (key r =? k)%Z) table))) ks)
    = length (filter P table).
Proof.
  intro Hnd. induction table as [|r table IH]; intro Hkeys.
  - cbn. clear Hnd Hkeys. induction ks as [|k ks IHk]; [reflexivity|].
    exact IHk.
  - specialize (IH (fun r' Hr' => Hkeys r' (or_intror Hr'))).
    pose (F := fun k : Z =>
                 length (filter P (filter (fun r0 => (key r0 =? k)%Z) table))).
    pose (G := fun k : Z =>
                 if (key r =? k)%Z then (if P r then 1%nat else 0%nat) else 0%nat).
    assert (E : forall k,
               length (filter P (filter (fun r0 => (key r0 =? k)%Z) (r :: table)))
               = (F k + G k)%nat).
    { intro k. unfold F, G. cbn [filter]. destruct (key r =? k)%Z; [|lia].
      cbn [filter]. destruct (P r); cbn; lia. }
    rewrite (map_ext _ (fun k => (F k + G k)%nat) E).
    rewrite (list_sum_map_add F G). unfold F at 1. rewrite IH.
    unfold G. rewrite list_sum_indicator by exact Hnd.
    destruct (in_dec Z.eq_dec (key r) ks) as [_|Hn].
    + cbn [filter]. destruct (P r); cbn; lia.
    + exfalso. apply Hn, Hkeys. now left.
Qed.

Lemma length_pct_change (vs : list Q) : length (pct_change vs) = length vs.
Proof.
  destruct vs as [|v vs]; [reflexivity|]. cbn. f_equal.
  revert v. induction vs as [|x vs IH]; intro v; cbn; [reflexivity|].
  now rewrite IH.
Qed.

Lemma length_returns_column (equity_df : list EquityPoint) :
  length (returns_column equity_df) = length equity_df.
Proof.
  unfold returns_column. now rewrite length_pct_change, length_map.
Qed.

Lemma map_snd_combine {A B} (l : list A) (r : list B) :
  length l = length r -> map snd (combine l r) = r.
Proof.
  revert r. induction l as [|x l IH]; intros [|y r] H; cbn in *;
    try discriminate; [reflexivity|].
  f_equal. apply IH. lia.
Qed.

Lemma map_fst_combine {A B} (l : list A) (r : list B) :
  length l = length r -> map fst (combine l r) = l.
Proof.
  revert r. induction l as [|x l IH]; intros [|y r] H; cbn in *;
    try discriminate; [reflexivity|].
  f_equal. apply IH. lia.
Qed.

Lemma length_filter_map {A B} (f : B -> bool) (g : A -> B) (l : list A) :
  length (filter f (map g l)) = length (filter (fun x => f (g x)) l).
Proof.
  induction l as [|x l IH]; cbn; [reflexivity|].
  destruct (f (g x)); cbn; now rewrite IH.
Qed.

(** The column ['periods'] counts every valid return once: over all rows it
    adds up to the number of non-NaN returns of the curve, which on a curve
    of positive values is the number of points less one (the first point has
    no return). *)
Theorem period_counts_add_up (to_period : Z -> Z)
    (equity_df : list EquityPoint) :
  list_sum (map ByPeriod.periods (performance_by_period to_period equity_df))
    = length (dropna (returns_column equity_df)) /\
  (Forall (fun p => 0 < portfolio_value p) equity_df ->
   list_sum (map ByPeriod.periods (performance_by_period to_period equity_df))
     = (length equity_df - 1)%nat).
Proof.
  assert (Hmain :
    list_sum (map ByPeriod.periods (performance_by_period to_period equity_df))
    = length (dropna (returns_column equity_df))).
  { unfold performance_by_period.
    destruct equity_df as [|p0 rest]; [reflexivity|]. cbn [is_empty].
    set (equity_df := p0 :: rest).
    set (keys := group_keys (map (fun p => to_period (timestamp p)) equity_df)).
    rewrite map_map.
    assert (E : forall k,
               ByPeriod.periods (period_row to_period (with_returns equity_df) k)
               = length (filter (fun r => negb (is_nan (snd r)))
                           (filter (fun r => (to_period (timestamp (fst r)) =? k)%Z)
                                   (with_returns equity_df)))).
    { intro k. unfold period_row, period_group. cbn [ByPeriod.periods].
      unfold dropna. apply (length_filter_map (fun x => negb (is_nan x)) snd). }
    rewrite (map_ext _ _ E).
    rewrite (group_counts_add_up (fun r => to_period (timestamp (fst r)))).
    - unfold dropna.
      rewrite <- (length_filter_map (fun x => negb (is_nan x)) snd).
      unfold with_returns. rewrite map_snd_combine; [reflexivity|].
      now rewrite length_returns_column.
    - apply sorted_lt_NoDup, group_keys_sorted.
    - intros r Hr. unfold keys. apply group_keys_In.
      apply in_map_iff. exists (fst r). split; [reflexivity|].
      unfold with_returns in Hr. destruct r as [p x].
      now apply in_combine_l in Hr. }
  split; [exact Hmain|]. intro Hpos. rewrite Hmain.
  unfold returns_column.
  destruct equity_df as [|p0 rest]; [reflexivity|].
  inversion Hpos as [|? ? H0 Hrest]; subst.
  assert (Hrest' : Forall (fun v => 0 < v) (map portfolio_value rest))
    by (apply Forall_map; exact Hrest).
  destruct (pct_change_from_positive _ _ H0 Hrest') as (qs & E & Hl).
  cbn [map pct_change]. rewrite E.
  unfold dropna. cbn [filter is_nan negb]. fold (dropna (map Fin qs)).
  rewrite dropna_map_Fin, length_map, Hl, length_map. cbn. lia.
Qed.

Lemma period_counts_add_up_witness :
  list_sum (map ByPeriod.periods (performance_by_period week_of sample_curve))
    = length (dropna (returns_column sample_curve)) /\
  list_sum (map ByPeriod.periods (performance_by_period week_of sample_curve))
    = (length sample_curve - 1)%nat.
Proof.
  destruct (period_counts_add_up week_of sample_curve) as [H1 H2].
  split; [exact H1|]. apply H2. repeat constructor.
Defined.

(** ** First and last value of a period *)

Lemma rint_error (x : Q) :
  - (1 # 2) <= inject_Z (rint x) - x /\ inject_Z (rint x) - x <= 1 # 2.
Proof.
  unfold rint. pose proof (Qfloor_le x) as Hlo. pose proof (Qlt_floor x) as Hhi.
  rewrite inject_Z_plus in Hhi. change (inject_Z 1) with 1 in Hhi.
  set (f := Qfloor x) in *.
  destruct (ltb (x - inject_Z f) (1 # 2)) eqn:E1; reflect_tests.
  - split; lra.
  - destruct (ltb (1 # 2) (x - inject_Z f)) eqn:E2; reflect_tests.
    + rewrite inject_Z_plus. change (inject_Z 1) with 1. split; lra.
    + destruct (Z.even f).
      * split; lra.
      * rewrite inject_Z_plus. change (inject_Z 1) with 1. split; lra.
Qed.

Lemma round_to_error (x : Q) :
  - (1 # 20000) <= round_to 10000 x - x /\ round_to 10000 x - x <= 1 # 20000.
Proof.
  unfold round_to. destruct (rint_error (x * 10000)) as [H1 H2].
  set (n := inject_Z (rint (x * 10000))) in *.
  assert (E : n / 10000 == n * (1 # 10000)) by (field; discriminate).
  rewrite E. split; lra.
Qed.

Lemma filter_first {A} (f : A -> bool) (l : list A) (x : A) (rest : list A) :
  filter f l = x :: rest ->
  exists pre post,
    l = pre ++ x :: post /\ Forall (fun y => f y = false) pre /\ f x = true.
Proof.
  induction l as [|y l IH]; cbn; [discriminate|].
  destruct (f y) eqn:E; intro H.
  - inversion H; subst. exists [], l. repeat split; trivial.
  - destruct (IH H) as (pre & post & El & Hpre & Hx).
    exists (y :: pre), post. subst l. repeat split; trivial.
    now constructor.
Qed.

Lemma filter_last {A} (f : A -> bool) (l : list A) :
  filter f l <> [] ->
  exists pre x post,
    l = pre ++ x :: post /\ Forall (fun y => f y = false) post /\
    f x = true /\ forall d, last (filter f l) d = x.
Proof.
  induction l as [|y l IH] using rev_ind; [cbn; congruence|].
  rewrite filter_app. cbn [filter]. destruct (f y) eqn:E; intro H.
  - exists l, y, []. repeat split; trivial. intro d. apply last_last.
  - rewrite app_nil_r in *. destruct (IH H) as (pre & x & post & El & Hp & Hx & Hl).
    exists pre, x, (post ++ [y]). subst l. rewrite <- app_assoc. cbn.
    repeat split; trivial.
    apply Forall_app. split; [assumption|]. now repeat constructor.
Qed.

Lemma filter_map_fst {A B} (f : A -> bool) (t : list (A * B)) :
  map fst (filter (fun r => f (fst r)) t) = filter f (map fst t).
Proof.
  induction t as [|r t IH]; cbn; [reflexivity|].
  destruct (f (fst r)); cbn; now rewrite IH.
Qed.

Lemma last_map_nonempty {A B} (g : A -> B) (x : A) (l : list A) (d : B) (d' : A) :
  last (map g (x :: l)) d = g (last (x :: l) d').
Proof.
  revert x. induction l as [|y l IH]; intro x; [reflexivity|].
  change (last (map g (x :: y :: l)) d) with (last (map g (y :: l)) d).
  change (last (x :: y :: l) d') with (last (y :: l) d').
  apply IH.
Qed.

(** Every row of [performance_by_period] takes its start value from the
    first point of its period and its end value from the last one, both
    rounded to 4 decimals and so within 0.00005 of the portfolio values; its
    return percentage is computed from the two rounded values. *)
Theorem period_row_start_and_end (to_period : Z -> Z)
    (equity_df : list EquityPoint) (row : ByPeriod.Row) :
  In row (performance_by_period to_period equity_df) ->
  let in_period p := to_period (timestamp p) = ByPeriod.period row in
  exists pre first post pre' final post',
    equity_df = pre ++ first :: post /\
    Forall (fun p => ~ in_period p) pre /\ in_period first /\
    equity_df = pre' ++ final :: post' /\
    Forall (fun p => ~ in_period p) post' /\ in_period final /\
    ByPeriod.start_value row = round_to 10000 (portfolio_value first) /\
    ByPeriod.end_value row = round_to 10000 (portfolio_value final) /\
    - (1 # 20000) <= ByPeriod.start_value row - portfolio_value first <= 1 # 20000 /\
    - (1 # 20000) <= ByPeriod.end_value row - portfolio_value final <= 1 # 20000 /\
    ByPeriod.return_pct row =
      xround 100
        (xscale (xdiv (ByPeriod.end_value row - ByPeriod.start_value row)
                      (ByPeriod.start_value row)) 100).
Proof.
  unfold performance_by_period.
  destruct equity_df as [|p0 rest]; [intros []|]. cbn [is_empty].
  set (equity_df := p0 :: rest).
  intro Hin. apply in_map_iff in Hin. destruct Hin as (k & Erow & Hk).
  apply group_keys_In, in_map_iff in Hk. destruct Hk as (p & Ek & Hp).
  subst row. cbn [ByPeriod.period ByPeriod.start_value ByPeriod.end_value
                  ByPeriod.return_pct period_row]. cbv zeta.
  set (f := fun q : EquityPoint => (to_period (timestamp q) =? k)%Z).
  assert (Hg : map fst (period_group to_period k (with_returns equity_df))
               = filter f equity_df).
  { change (period_group to_period k (with_returns equity_df))
      with (filter (fun r : EquityPoint * xnum => f (fst r))
                   (with_returns equity_df)).
    rewrite (filter_map_fst f (with_returns equity_df)).
    unfold with_returns. rewrite map_fst_combine; [reflexivity|].
    now rewrite length_returns_column. }
  assert (Hvals : map (fun r => portfolio_value (fst r))
                      (period_group to_period k (with_returns equity_df))
                  = map portfolio_value (filter f equity_df)).
  { now rewrite <- Hg, map_map. }
  rewrite Hvals.
  assert (Hne : filter f equity_df <> []).
  { intro E. assert (Hin : In p (filter f equity_df)).
    { apply filter_In. split; [exact Hp|]. unfold f. now apply Z.eqb_eq. }
    rewrite E in Hin. destruct Hin. }
  destruct (filter f equity_df) as [|x xs] eqn:Ef; [congruence|].
  destruct (filter_first f equity_df x xs Ef) as (pre & post & E1 & Hpre & Hx).
  destruct (filter_last f equity_df) as (pre' & y & post' & E2 & Hpost & Hy & Hl);
    [now rewrite Ef|].
  rewrite Ef in Hl.
  exists pre, x, post, pre', y, post'.
  rewrite (last_map_nonempty portfolio_value x xs 0 x), (Hl x).
  cbn [map hd].
  assert (Hnot : forall l, Forall (fun q => f q = false) l ->
                   Forall (fun q => to_period (timestamp q) <> k) l).
  { intros l Hl'. eapply Forall_impl; [|exact Hl'].
    intros q Hq E. unfold f in Hq. apply Z.eqb_eq in E. congruence. }
  unfold f in Hx, Hy. apply Z.eqb_eq in Hx, Hy.
  split; [exact E1|]. split; [now apply Hnot|]. split; [exact Hx|].
  split; [exact E2|]. split; [now apply Hnot|]. split; [exact Hy|].
  split; [reflexivity|]. split; [reflexivity|].
  split; [apply round_to_error|]. split; [apply round_to_error|]. reflexivity.
Qed.

Lemma period_row_start_and_end_witness :
  let row := period_row week_of (with_returns sample_curve) 0 in
  let in_period p := week_of (timestamp p) = ByPeriod.period row in
  exists pre first post pre' final post',
    sample_curve = pre ++ first :: post /\
    Forall (fun p => ~ in_period p) pre /\ in_period first /\
    sample_curve = pre' ++ final :: post' /\
    Forall (fun p => ~ in_period p) post' /\ in_period final /\
    ByPeriod.start_value row = round_to 10000 (portfolio_value first) /\
    ByPeriod.end_value row = round_to 10000 (portfolio_value final) /\
    - (1 # 20000) <= ByPeriod.start_value row - portfolio_value first <= 1 # 20000 /\
    - (1 # 20000) <= ByPeriod.end_value row - portfolio_value final <= 1 # 20000 /\
    ByPeriod.return_pct row =
      xround 100
        (xscale (xdiv (ByPeriod.end_value row - ByPeriod.start_value row)
                      (ByPeriod.start_value row)) 100).
Proof.
  apply (period_row_start_and_end week_of sample_curve
           (period_row week_of (with_returns sample_curve) 0)).
  left. reflexivity.
Defined.
